(** * StreamDownloader: manifest extraction and job lifecycle

    A shallow embedding of [backend/app/download_service.py] and of the
    job-handling part of [backend/app/main.py], with the properties the
    specification states about them.

    Character model.  A Python [str] is embedded as a [string] whose
    characters are the code points 0..255; the classifications the code
    relies on ([str.isspace], the [re] classes \s, \d, \w and \b,
    [str.lower]) are the Unicode ones restricted to that range.

    Failure model.  A Python exception is a value of [exn]; a computation
    that may raise has type [res A]. *)

From Stdlib Require Import Ascii String ZArith List Bool Lia Permutation Sorted.
From Stdlib Require Import DecimalString OrderedTypeEx.
From stdpp Require Import gmap strings list fin_maps sorting.

Import ListNotations.
Local Open Scope Z_scope.

(** ** Exceptions *)

Inductive exn : Type :=
| IndexError
| ValueError (msg : string)
| KeyError
| TypeError
| DownloadCancelled
| OtherError (msg : string).

(** [str(e)]: the exception's arguments; [DownloadCancelled()] is raised
    without any, so its text is empty. *)
Definition str_of_exn (e : exn) : string :=
  match e with
  | IndexError => "list index out of range"
  | ValueError msg => msg
  | KeyError => ""
  | TypeError => "unsupported operand"
  | DownloadCancelled => ""
  | OtherError msg => msg
  end.

Inductive res (A : Type) : Type :=
| Ok (a : A)
| Raise (e : exn).
Arguments Ok {A} a.
Arguments Raise {A} e.

#[global] Instance res_ret : MRet res := fun A a => Ok a.
#[global] Instance res_bind : MBind res := fun A B f m =>
  match m with
  | Ok a => f a
  | Raise e => Raise e
  end.

(** [try: m except Exception: h] *)
Definition try_except {A} (m : res A) (h : exn -> res A) : res A :=
  match m with
  | Ok a => Ok a
  | Raise e => h e
  end.

(** ** Characters *)

Module Char.

Definition code (c : ascii) : N := N_of_ascii c.

Definition between (lo hi : N) (c : ascii) : bool :=
  ((lo <=? code c) && (code c <=? hi))%N.

(** [str.isspace] / \s on code points below 256. *)
Definition is_space (c : ascii) : bool :=
  between 9 13 c || between 28 32 c || (code c =? 133)%N || (code c =? 160)%N.

(** \d: the decimal digits; below 256 these are 0-9 only. *)
Definition is_digit (c : ascii) : bool := between 48 57 c.

Definition is_upper_ascii (c : ascii) : bool := between 65 90 c.
Definition is_lower_ascii (c : ascii) : bool := between 97 122 c.

(** Alphanumeric code points below 256 (letters, digits and the numeric
    signs of Latin-1). *)
Definition is_alnum (c : ascii) : bool :=
  is_digit c || is_upper_ascii c || is_lower_ascii c
  || (code c =? 170)%N || (code c =? 178)%N || (code c =? 179)%N
  || (code c =? 181)%N || (code c =? 185)%N || (code c =? 186)%N
  || between 188 190 c || between 192 214 c || between 216 246 c
  || between 248 255 c.

(** \w *)
Definition is_word (c : ascii) : bool := is_alnum c || (code c =? 95)%N.

(** [str.lower] on one character. *)
Definition lower (c : ascii) : ascii :=
  if is_upper_ascii c || (between 192 222 c && negb (code c =? 215)%N)
  then ascii_of_N (code c + 32) else c.

Definition eqb (a b : ascii) : bool := (code a =? code b)%N.

Lemma eqb_eq a b : eqb a b = true <-> a = b.
Proof.
  unfold eqb, code. rewrite N.eqb_eq. split; [|congruence].
  intros H. rewrite <- (ascii_N_embedding a), <- (ascii_N_embedding b).
  now rewrite H.
Qed.

Lemma eqb_refl a : eqb a a = true.
Proof. now apply eqb_eq. Qed.

End Char.

(** ** Python string operations *)

Module Py.

Fixpoint chars (s : string) : list ascii :=
  match s with
  | EmptyString => []
  | String c s' => c :: chars s'
  end.

Fixpoint of_chars (l : list ascii) : string :=
  match l with
  | [] => EmptyString
  | c :: l' => String c (of_chars l')
  end.

Definition len (s : string) : nat := String.length s.

Fixpoint take (n : nat) (s : string) : string :=
  match n, s with
  | S n', String c s' => String c (take n' s')
  | _, _ => EmptyString
  end.

Fixpoint drop (n : nat) (s : string) : string :=
  match n, s with
  | S n', String _ s' => drop n' s'
  | _, _ => s
  end.

(** [s.startswith(p)] *)
Fixpoint startswith (p s : string) : bool :=
  match p, s with
  | EmptyString, _ => true
  | String a p', String b s' => Char.eqb a b && startswith p' s'
  | String _ _, EmptyString => false
  end.

Definition rev (s : string) : string := of_chars (List.rev (chars s)).

(** [s.endswith(p)] *)
Definition endswith (p s : string) : bool := startswith (rev p) (rev s).

(** [s.find(sub)]: index of the first occurrence, or -1. *)
Fixpoint find_from (sub s : string) (i : Z) : Z :=
  if startswith sub s then i
  else match s with
       | EmptyString => -1
       | String _ s' => find_from sub s' (i + 1)
       end.

Definition find (sub s : string) : Z := find_from sub s 0.

(** [sub in s] *)
Definition contains (sub s : string) : bool := negb (find sub s =? -1).

(** Normalisation of a slice bound against a length. *)
Definition clamp (n : Z) (i : Z) : nat :=
  let i := if i <? 0 then i + n else i in
  Z.to_nat (Z.max 0 (Z.min n i)).

(** [s[lo:hi]] for a string. *)
Definition slice (s : string) (lo hi : Z) : string :=
  let n := Z.of_nat (len s) in
  let a := clamp n lo in
  let b := clamp n hi in
  take (b - a) (drop a s).

(** [l[lo:hi]] for a list. *)
Definition lslice {A} (l : list A) (lo hi : Z) : list A :=
  let n := Z.of_nat (length l) in
  let a := clamp n lo in
  let b := clamp n hi in
  List.firstn (b - a) (List.skipn a l).

(** [l[i]]: negative indices count from the end; out of range raises. *)
Definition index {A} (l : list A) (i : Z) : res A :=
  let n := Z.of_nat (length l) in
  let j := if i <? 0 then i + n else i in
  if (j <? 0) || (n <=? j) then Raise IndexError
  else match nth_error l (Z.to_nat j) with
       | Some x => Ok x
       | None => Raise IndexError
       end.

(** [s.split(sep)] for a non-empty separator: the scan is left to right
    and occurrences do not overlap.  [skip] counts the characters of a
    separator just recognised that are still to be passed over; [cur]
    holds, reversed, the characters of the piece being read. *)
Fixpoint split_go (sep : string) (s : string) (skip : nat)
         (cur : list ascii) : list string :=
  match s with
  | EmptyString => [of_chars (List.rev cur)]
  | String c s' =>
      match skip with
      | S k => split_go sep s' k cur
      | O =>
          if startswith sep s
          then of_chars (List.rev cur) :: split_go sep s' (len sep - 1) []
          else split_go sep s' O (c :: cur)
      end
  end.

Definition split (sep s : string) : list string := split_go sep s O [].

(** [sep.join(l)] *)
Fixpoint join (sep : string) (l : list string) : string :=
  match l with
  | [] => ""
  | [x] => x
  | x :: l' => x +:+ sep +:+ join sep l'
  end.

(** [s.replace(old, new)] for a non-empty [old]. *)
Definition replace (old new s : string) : string := join new (split old s).

Fixpoint lstrip_by (p : ascii -> bool) (s : string) : string :=
  match s with
  | String c s' => if p c then lstrip_by p s' else s
  | EmptyString => EmptyString
  end.

Definition rstrip_by (p : ascii -> bool) (s : string) : string :=
  rev (lstrip_by p (rev s)).

Definition strip_by (p : ascii -> bool) (s : string) : string :=
  rstrip_by p (lstrip_by p s).

(** [s.strip()] *)
Definition strip (s : string) : string := strip_by Char.is_space s.

Definition mem_char (set : string) (c : ascii) : bool :=
  existsb (Char.eqb c) (chars set).

(** [s.strip(set)], [s.rstrip(set)], [s.lstrip(set)] *)
Definition strip_chars (set s : string) : string := strip_by (mem_char set) s.
Definition rstrip_chars (set s : string) : string := rstrip_by (mem_char set) s.
Definition lstrip_chars (set s : string) : string := lstrip_by (mem_char set) s.

(** [s.lower()] *)
Fixpoint lower (s : string) : string :=
  match s with
  | EmptyString => EmptyString
  | String c s' => String (Char.lower c) (lower s')
  end.

(** [x in l] for a list of strings, and [l.index(x)]. *)
Definition str_eqb (a b : string) : bool := String.eqb a b.

Definition mem (x : string) (l : list string) : bool := existsb (str_eqb x) l.

Fixpoint index_of_from (x : string) (l : list string) (i : Z) : res Z :=
  match l with
  | [] => Raise (ValueError "not in list")
  | y :: l' => if str_eqb y x then Ok i else index_of_from x l' (i + 1)
  end.

Definition index_of (x : string) (l : list string) : res Z := index_of_from x l 0.

(** [s.isdigit()]: non-empty, every character a digit; below 256 the
    digits are 0-9 and the superscripts one, two and three. *)
Definition isdigit_char (c : ascii) : bool :=
  Char.is_digit c || (Char.code c =? 178)%N || (Char.code c =? 179)%N
  || (Char.code c =? 185)%N.

Definition isdigit (s : string) : bool :=
  match s with
  | EmptyString => false
  | _ => forallb isdigit_char (chars s)
  end.

(** [int(s)] for a string of decimal digits; anything else raises. *)
Fixpoint int_go (s : string) (acc : Z) : res Z :=
  match s with
  | EmptyString => Ok acc
  | String c s' =>
      if Char.is_digit c
      then int_go s' (10 * acc + (Z.of_N (Char.code c) - 48))
      else Raise (ValueError "invalid literal for int()")
  end.

Definition int (s : string) : res Z :=
  match s with
  | EmptyString => Raise (ValueError "invalid literal for int()")
  | _ => int_go s 0
  end.

(** [ord(s)]: defined on strings of length one. *)
Definition ord (s : string) : res Z :=
  match s with
  | String c EmptyString => Ok (Z.of_N (Char.code c))
  | _ => Raise TypeError
  end.

(** Truth value of a string, and of an optional string. *)
Definition nonempty (s : string) : bool :=
  match s with EmptyString => false | _ => true end.

Definition truthy (o : option string) : bool :=
  match o with Some s => nonempty s | None => false end.

End Py.

(** ** Regular expressions

    The patterns of the program are values of [regex]; [run] is a
    backtracking matcher with the behaviour of Python's [re] on them:
    alternatives are tried left to right, repetition is greedy, a group
    records the text of its last match, and \b looks at the characters on
    both sides of the current position. *)

Module Re.

Inductive regex : Type :=
| Eps
| Chr (p : ascii -> bool)
| Cat (a b : regex)
| Alt (a b : regex)
| Star (a : regex)
| Grp (n : nat) (a : regex)
| WordB.

Record mstate : Type := MState {
  prev : option ascii;          (* the character before the position *)
  rest : string;                (* the subject from the position on *)
  caps : list (nat * string)    (* groups closed so far, newest first *)
}.

Definition word_opt (o : option ascii) : bool :=
  match o with Some c => Char.is_word c | None => false end.

Definition next_char (s : string) : option ascii :=
  match s with String c _ => Some c | EmptyString => None end.

Definition boundary (st : mstate) : bool :=
  xorb (word_opt (prev st)) (word_opt (next_char (rest st))).

Definition consumed (before after : string) : string :=
  Py.take (Py.len before - Py.len after) before.

(** Greedy repetition of [body]: one more round when it succeeds and moves
    forward, the continuation otherwise.  The fuel bounds the rounds by the
    characters left, which each round decreases. *)
Definition star_loop (body : mstate -> (mstate -> option mstate) -> option mstate)
           (k : mstate -> option mstate) : nat -> mstate -> option mstate :=
  fix loop (fuel : nat) (st : mstate) {struct fuel} : option mstate :=
    match fuel with
    | O => k st
    | S fuel' =>
        match body st (fun st' =>
                 if (Py.len (rest st') <? Py.len (rest st))%nat
                 then loop fuel' st' else None) with
        | Some x => Some x
        | None => k st
        end
    end.

Fixpoint run (r : regex) (st : mstate) (k : mstate -> option mstate)
  {struct r} : option mstate :=
  match r with
  | Eps => k st
  | Chr p =>
      match rest st with
      | String c s' => if p c then k (MState (Some c) s' (caps st)) else None
      | EmptyString => None
      end
  | Cat a b => run a st (fun st' => run b st' k)
  | Alt a b =>
      match run a st k with
      | Some x => Some x
      | None => run b st k
      end
  | Star a => star_loop (run a) k (S (Py.len (rest st))) st
  | Grp n a =>
      run a st (fun st' =>
        k (MState (prev st') (rest st')
                  ((n, consumed (rest st) (rest st')) :: caps st')))
  | WordB => if boundary st then k st else None
  end.

(** A match object: where it starts, group 0, the groups, and the text
    after the match. *)
Record rmatch : Type := RMatch {
  m_start : nat;
  m_text : string;
  m_caps : list (nat * string);
  m_after : string
}.

(** [m.group(n)] for n >= 1. *)
Fixpoint group (n : nat) (cs : list (nat * string)) : option string :=
  match cs with
  | [] => None
  | (i, s) :: cs' => if (i =? n)%nat then Some s else group n cs'
  end.

Definition at_pos (r : regex) (p : option ascii) (s : string) (off : nat)
  : option rmatch :=
  match run r (MState p s []) Some with
  | Some st => Some (RMatch off (consumed s (rest st)) (caps st) (rest st))
  | None => None
  end.

(** [re.match(r, s)] *)
Definition match_ (r : regex) (s : string) : option rmatch := at_pos r None s O.

(** [re.search(r, s)]: the leftmost position at which [r] matches. *)
Fixpoint search_go (r : regex) (p : option ascii) (s : string) (off : nat)
  : option rmatch :=
  match at_pos r p s off with
  | Some m => Some m
  | None =>
      match s with
      | EmptyString => None
      | String c s' => search_go r (Some c) s' (S off)
      end
  end.

Definition search (r : regex) (s : string) : option rmatch := search_go r None s O.

(** [re.sub(r, repl, s)] with a function [repl], for a pattern whose
    matches are never empty (every pattern substituted in this program
    consumes exactly one character).  [skip] counts the characters of the
    last match still to be passed over. *)
Fixpoint sub_go (r : regex) (repl : rmatch -> res string)
         (p : option ascii) (s : string) (off skip : nat) : res string :=
  match s with
  | EmptyString => Ok EmptyString
  | String c s' =>
      match skip with
      | S k => sub_go r repl (Some c) s' (S off) k
      | O =>
          match at_pos r p s off with
          | Some m =>
              out ← repl m;
              tl ← sub_go r repl (Some c) s' (S off) (Py.len (m_text m) - 1);
              Ok (out +:+ tl)
          | None =>
              tl ← sub_go r repl (Some c) s' (S off) O;
              Ok (String c tl)
          end
      end
  end.

Definition sub (r : regex) (repl : rmatch -> res string) (s : string)
  : res string := sub_go r repl None s O O.

(** *** Pattern constructors *)

Definition lit (c : ascii) : regex := Chr (Char.eqb c).

(** A literal under [re.I]. *)
Definition lit_i (c : ascii) : regex :=
  Chr (fun x => Char.eqb (Char.lower x) (Char.lower c)).

Fixpoint str (s : string) : regex :=
  match s with
  | EmptyString => Eps
  | String c s' => Cat (lit c) (str s')
  end.

Fixpoint str_i (s : string) : regex :=
  match s with
  | EmptyString => Eps
  | String c s' => Cat (lit_i c) (str_i s')
  end.

Definition plus (a : regex) : regex := Cat a (Star a).
Definition opt (a : regex) : regex := Alt a Eps.

(** . without DOTALL *)
Definition dot : regex := Chr (fun c => negb (Char.code c =? 10)%N).
Definition set (cs : string) : regex := Chr (Py.mem_char cs).
Definition nset (cs : string) : regex := Chr (fun c => negb (Py.mem_char cs c)).
Definition ws : regex := Star (Chr Char.is_space).
Definition digits : regex := plus (Chr Char.is_digit).

Fixpoint seq (rs : list regex) : regex :=
  match rs with
  | [] => Eps
  | [r] => r
  | r :: rs' => Cat r (seq rs')
  end.

(** *** Notions used to reason about the matcher *)





(** The state [n] characters further on. *)
Fixpoint adv (n : nat) (st : mstate) : mstate :=
  match n, rest st with
  | S n', String c s' => adv n' (MState (Some c) s' (caps st))
  | _, _ => st
  end.

(** [st'] lies at or after [st] in the same subject and keeps its groups. *)
Definition extends (st st' : mstate) : Prop :=
  (Py.len (rest st') <= Py.len (rest st))%nat /\
  forall n, is_Some (group n (caps st)) -> is_Some (group n (caps st')).

(** [r] consumes at least one character whenever it matches. *)
Fixpoint nonnull (r : regex) : bool :=
  match r with
  | Chr _ => true
  | Cat a b => nonnull a || nonnull b
  | Alt a b => nonnull a && nonnull b
  | Grp _ a => nonnull a
  | _ => false
  end.

(** [r] closes group [n] on every successful match. *)
Fixpoint binds (n : nat) (r : regex) : bool :=
  match r with
  | Grp i a => (i =? n)%nat || binds n a
  | Cat a b => binds n a || binds n b
  | Alt a b => binds n a && binds n b
  | _ => false
  end.


End Re.

(** ** download_service.py: the packed-script unpacker *)

Definition quote : ascii := ascii_of_N 39.
Definition dquote : ascii := ascii_of_N 34.
Definition backslash : ascii := ascii_of_N 92.

(** [\b([0-9a-e])\b] *)
Definition packed_code_char (c : ascii) : bool :=
  Char.between 48 57 c || Char.between 97 101 c.

Definition unpack_re : Re.regex :=
  Re.seq [Re.WordB; Re.Grp 1 (Re.Chr packed_code_char); Re.WordB].

(** The inner function [repl] of [_unpack_missav_packed_js]. *)
Definition unpack_repl (parts : list string) (m : Re.rmatch) : res string :=
  let n := Z.of_nat (length parts) in
  let c := Re.m_text m in
  if Py.isdigit c then
    i ← Py.int c;
    if i <? n then Py.index parts i else Ok c
  else if String.leb "a" c && String.leb c "e" then
    o ← Py.ord c;
    let i := 10 + o - 97 in
    if i <? n then Py.index parts i else Ok c
  else Ok c.

Definition _unpack_missav_packed_js (packed dict_str : string) : res string :=
  let parts := Py.split "|" dict_str in
  Re.sub unpack_re (unpack_repl parts) packed.

(** *** The unpacker as the specification words it *)

(** The dictionary index a code character addresses: digits 0-9 address
    0-9, letters a-e address 10-14. *)
Definition code_index (c : ascii) : option nat :=
  if Char.between 48 57 c then Some (N.to_nat (Char.code c - 48))
  else if Char.between 97 101 c then Some (N.to_nat (Char.code c - 97) + 10)%nat
  else None.

(** What one character of the packed text becomes: a code character that
    stands alone between word boundaries is replaced by the entry it
    addresses when there is one; everything else is copied. *)
Definition unpack_char (parts : list string) (before : option ascii)
           (c : ascii) (after : option ascii) : string :=
  match code_index c with
  | Some i =>
      if negb (Re.word_opt before) && negb (Re.word_opt after)
      then match nth_error parts i with
           | Some entry => entry
           | None => String c EmptyString
           end
      else String c EmptyString
  | None => String c EmptyString
  end.

Fixpoint unpack_spec (parts : list string) (before : option ascii)
         (s : string) : string :=
  match s with
  | EmptyString => EmptyString
  | String c s' =>
      unpack_char parts before c (Re.next_char s')
        +:+ unpack_spec parts (Some c) s'
  end.

(** ** download_service.py: manifest extraction *)

Definition not_quote : Re.regex := Re.Chr (fun c => negb (Char.eqb c quote)).

(** [(?:[^'\\]|\\.)*] *)
Definition js_string_body : Re.regex :=
  Re.Star (Re.Alt (Re.Chr (fun c => negb (Char.eqb c quote || Char.eqb c backslash)))
                  (Re.Cat (Re.lit backslash) Re.dot)).

(** ['\.split\s*\(\s*'\|'\s*\)] *)
Definition split_tail : Re.regex :=
  Re.seq [Re.str "'.split"; Re.ws; Re.lit "("; Re.ws; Re.str "'|'"; Re.ws; Re.lit ")"].

(** [[^']+(?:\|[^']+)+] *)
Definition piped_tokens : Re.regex :=
  Re.Cat (Re.plus not_quote) (Re.plus (Re.Cat (Re.lit "|") (Re.plus not_quote))).

(** [,\s*\d+\s*,\s*\d+\s*,\s*] *)
Definition two_numbers : Re.regex :=
  Re.seq [Re.lit ","; Re.ws; Re.digits; Re.ws; Re.lit ","; Re.ws; Re.digits; Re.ws;
          Re.lit ","; Re.ws].

(** The main pattern of the packed-eval strategy: a closing brace, an
    opening parenthesis, the quoted packed text (group 1, [js_string_body]),
    two numbers, the quoted dictionary (group 2, [piped_tokens]) and
    [split_tail], with optional blanks where the source has \s. *)
Definition packed_main_re : Re.regex :=
  Re.seq [Re.lit "}"; Re.ws; Re.lit "("; Re.ws; Re.lit quote;
          Re.Grp 1 js_string_body; Re.lit quote; two_numbers; Re.lit quote;
          Re.Grp 2 piped_tokens; split_tail].

(** The fallback pattern: a quote, group 1 made of [js_string_body] and the
    closing quote, a semicolon, two numbers, a quoted text that starts with
    m3u8| and [split_tail]. *)
Definition packed_fallback_re : Re.regex :=
  Re.seq [Re.lit quote; Re.Grp 1 (Re.Cat js_string_body (Re.lit quote)); Re.lit ";";
          Re.ws; two_numbers; Re.str "'m3u8|"; Re.Star not_quote; split_tail].

(** ['m3u8\|[^']+(?:\|[^']+)+'\.split\s*\(\s*'\|'\s*\)] *)
Definition packed_dict_re : Re.regex :=
  Re.seq [Re.str "'m3u8|"; piped_tokens; split_tail].

Definition url_char (c : ascii) : bool :=
  negb (Char.is_space c || Char.eqb c quote || Char.eqb c dquote
        || Char.eqb c "<" || Char.eqb c ">").

(** [https?://[^\s'Q<>]+\.m3u8], Q standing for the double quote *)
Definition m3u8_url_re : Re.regex :=
  Re.seq [Re.str "http"; Re.opt (Re.lit "s"); Re.str "://"; Re.plus (Re.Chr url_char);
          Re.str ".m3u8"].

(** [m.group(n)]; a group that took no part in the match is [None], and
    using it as a string raises. *)
Definition group_str (n : nat) (m : Re.rmatch) : res string :=
  match Re.group n (Re.m_caps m) with
  | Some g => Ok g
  | None => Raise TypeError
  end.

Definition _extract_missav_m3u8_from_packed (webpage : string) : res (option string) :=
  found ←
    match Re.search packed_main_re webpage with
    | None =>
        match Re.search packed_fallback_re webpage with
        | None => Ok None
        | Some fallback =>
            packed ← group_str 1 fallback;
            match Re.search packed_dict_re (Py.drop (Re.m_start fallback) webpage) with
            | None => Ok None
            | Some dict_match =>
                let dict_str := Re.m_text dict_match in
                let dict_str := Py.slice dict_str 0 (Py.find "'.split" dict_str) in
                let dict_str :=
                  if Py.startswith "'" dict_str then Py.drop 1 dict_str else dict_str in
                if negb (Py.contains "https" dict_str) then Ok None
                else Ok (Some (packed, dict_str))
            end
        end
    | Some m =>
        packed ← group_str 1 m;
        dict_str ← group_str 2 m;
        Ok (Some (packed, dict_str))
    end;
  match found with
  | None => Ok None
  | Some (packed, dict_str) =>
      unpacked ← _unpack_missav_packed_js packed dict_str;
      match Re.search m3u8_url_re unpacked with
      | Some u => Ok (Some (Re.m_text u))
      | None => Ok None
      end
  end.

(** ['m3u8\|([^']+(?:\|[^']+)+)'\.split\s*\(\s*'\|'\s*\)] *)
Definition dict_only_re : Re.regex :=
  Re.seq [Re.str "'m3u8|"; Re.Grp 1 piped_tokens; split_tail].

(** [next((i for i, x in enumerate(parts) if x == w), None)] *)
Fixpoint first_index_from (w : string) (l : list string) (i : Z) : option Z :=
  match l with
  | [] => None
  | x :: l' => if Py.str_eqb x w then Some i else first_index_from w l' (i + 1)
  end.

Definition first_index (w : string) (l : list string) : option Z :=
  first_index_from w l 0.

(** [except (ValueError, IndexError): return None] *)
Definition except_value_index {A} (m : res (option A)) : res (option A) :=
  try_except m (fun e =>
    match e with
    | ValueError _ | IndexError => Ok None
    | _ => Raise e
    end).

Definition _extract_missav_m3u8_from_dict_only (webpage : string) : res (option string) :=
  match Re.search dict_only_re webpage with
  | None => Ok None
  | Some m =>
      g ← group_str 1 m;
      let parts := Py.split "|" ("m3u8|" +:+ g) in
      if negb (Py.mem "https" parts) || negb (Py.mem "playlist" parts) then Ok None
      else except_value_index (
        idx_https ← Py.index_of "https" parts;
        match first_index "com" parts with
        | None => Ok None
        | Some idx_com =>
            if (idx_https <=? idx_com) || (idx_https - idx_com <? 2) then Ok None
            else
              let base := Py.join "." (List.rev (Py.lslice parts idx_com idx_https)) in
              if 6 <=? Z.of_nat (length parts) then
                let path := Py.join "-" (List.rev (Py.lslice parts 1 6)) in
                Ok (Some ("https://" +:+ base +:+ "/" +:+ path +:+ "/playlist.m3u8"))
              else Ok None
        end)
  end.

(** *** The dictionary-only strategy as the specification words it *)

(** The token list of the dictionary literal the strategy finds. *)
Definition dict_tokens (webpage : string) : option (list string) :=
  match Re.search dict_only_re webpage with
  | Some m =>
      match Re.group 1 (Re.m_caps m) with
      | Some g => Some (Py.split "|" ("m3u8|" +:+ g))
      | None => None
      end
  | None => None
  end.

(** Position of the first occurrence of a token. *)
Fixpoint position (w : string) (l : list string) : option nat :=
  match l with
  | [] => None
  | x :: l' => if Py.str_eqb x w then Some O else S <$> position w l'
  end.

(** Both https and playlist occur, com stands before https with a token in
    between, and there are six tokens or more: the origin is the slice from
    com up to https reversed and joined by dots, the path the tokens 1 to 5
    reversed and joined by dashes. *)
Definition dict_only_spec (parts : list string) : option string :=
  match position "com" parts, position "https" parts with
  | Some ic, Some ih =>
      if Py.mem "playlist" parts && (ic + 2 <=? ih)%nat && (6 <=? length parts)%nat
      then
        let origin := Py.join "." (List.rev (firstn (ih - ic) (skipn ic parts))) in
        let pth := Py.join "-" (List.rev (firstn 5 (skipn 1 parts))) in
        Some ("https://" +:+ origin +:+ "/" +:+ pth +:+ "/playlist.m3u8")
      else None
  | _, _ => None
  end.

Definition quote_char (c : ascii) : bool := Char.eqb c quote || Char.eqb c dquote.

(** [<meta[^>]+property=[Q']og:NAME[Q'][^>]+content=[Q']GROUP[Q']] with GROUP a group of [^Q'] repeated,
    Q standing for the double quote, compiled with [re.I]. *)
Definition og_re (name : string) : Re.regex :=
  let not_gt := Re.Chr (fun c => negb (Char.eqb c ">")) in
  Re.seq [Re.str_i "<meta"; Re.plus not_gt; Re.str_i "property="; Re.Chr quote_char;
          Re.str_i name; Re.Chr quote_char; Re.plus not_gt; Re.str_i "content=";
          Re.Chr quote_char; Re.Grp 1 (Re.Star (Re.Chr (fun c => negb (quote_char c))));
          Re.Chr quote_char].

(** [x or None] for a string *)
Definition or_none (s : string) : option string :=
  if Py.nonempty s then Some s else None.

Definition og_field (name webpage : string) : res (option string) :=
  match Re.search (og_re name) webpage with
  | Some m => g ← group_str 1 m; Ok (or_none (Py.strip g))
  | None => Ok None
  end.

Definition _extract_og_meta (webpage : string) : res (option string * option string) :=
  og_title ← og_field "og:title" webpage;
  og_desc ← og_field "og:description" webpage;
  Ok (og_title, og_desc).

(** The class of [<>:/|?*], the double quote and the backslash. *)
Definition illegal_filename_char (c : ascii) : bool :=
  Py.mem_char "<>:/|?*" c || Char.eqb c dquote || Char.eqb c backslash.

Definition sanitize_filename (name : string) : res string :=
  name ← Re.sub (Re.Chr illegal_filename_char) (fun _ => Ok "_") name;
  let name := Py.strip name in
  Ok (if Py.nonempty name then name else "video").

(** ** urllib.parse.urlparse

    The part of the standard library's [urlparse] that decides the [path]
    component: the scheme is split off at the first colon when what
    precedes it is a scheme name, a leading // introduces the network
    location, then the fragment, the query and the parameters of the last
    segment are cut off.  An unbalanced bracket in the network location
    raises [ValueError]. *)

Module Url.

Record parsed : Type := Parsed {
  scheme : string;
  netloc : string;
  path : string;
  params : string;
  query : string;
  fragment : string
}.

Definition c0_or_space (c : ascii) : bool := (Char.code c <=? 32)%N.

Definition unsafe_char (c : ascii) : bool :=
  (Char.code c =? 9)%N || (Char.code c =? 10)%N || (Char.code c =? 13)%N.

Definition remove_unsafe (s : string) : string :=
  Py.of_chars (List.filter (fun c => negb (unsafe_char c)) (Py.chars s)).

Definition scheme_char (c : ascii) : bool :=
  Char.is_lower_ascii c || Char.is_upper_ascii c || Char.is_digit c
  || Py.mem_char "+-." c.

Definition uses_params : list string :=
  [""; "ftp"; "hdl"; "prospero"; "http"; "imap"; "https"; "shttp"; "rtsp";
   "rtspu"; "sip"; "sips"; "mms"; "sftp"; "tel"].

(** [s.split(sep, 1)] as a pair, the second part empty when [sep] is absent. *)
Definition cut (sep s : string) : string * string :=
  let i := Py.find sep s in
  if i <? 0 then (s, EmptyString)
  else (Py.take (Z.to_nat i) s, Py.drop (Z.to_nat i + Py.len sep) s).

Definition split_scheme (url : string) : string * string :=
  let i := Py.find ":" url in
  match url with
  | String c0 _ =>
      if (0 <? i) && (Char.is_lower_ascii c0 || Char.is_upper_ascii c0)
         && forallb scheme_char (Py.chars (Py.take (Z.to_nat i) url))
      then (Py.lower (Py.take (Z.to_nat i) url), Py.drop (Z.to_nat i + 1) url)
      else (EmptyString, url)
  | EmptyString => (EmptyString, url)
  end.

(** Length of the longest prefix free of the delimiters /, ? and #. *)
Fixpoint netloc_len (s : string) : nat :=
  match s with
  | EmptyString => O
  | String c s' => if Py.mem_char "/?#" c then O else S (netloc_len s')
  end.

Definition split_netloc (url : string) : res (string * string) :=
  if Py.startswith "//" url then
    let s := Py.drop 2 url in
    let n := netloc_len s in
    let nl := Py.take n s in
    if xorb (Py.contains "[" nl) (Py.contains "]" nl)
    then Raise (ValueError "Invalid IPv6 URL")
    else Ok (nl, Py.drop n s)
  else Ok (EmptyString, url).

(** Index of the last occurrence of a character, or -1. *)
Definition rfind_char (c : ascii) (s : string) : Z :=
  let i := Py.find (String c EmptyString) (Py.rev s) in
  if i <? 0 then -1 else Z.of_nat (Py.len s) - 1 - i.

Definition split_params (url : string) : string * string :=
  if Py.contains "/" url then
    let from := Z.to_nat (rfind_char "/" url) in
    let i := Py.find ";" (Py.drop from url) in
    if i <? 0 then (url, EmptyString)
    else (Py.take (from + Z.to_nat i) url, Py.drop (from + Z.to_nat i + 1) url)
  else cut ";" url.

Definition urlparse (url : string) : res parsed :=
  let url := remove_unsafe (Py.lstrip_by c0_or_space url) in
  let '(sch, url) := split_scheme url in
  '(nl, url) ← split_netloc url;
  let '(url, frag) := cut "#" url in
  let '(url, qry) := cut "?" url in
  let '(url, prm) :=
    if Py.mem sch uses_params && Py.contains ";" url
    then split_params url else (url, EmptyString) in
  Ok (Parsed sch nl url prm qry frag).

End Url.

(** ** download_service.py: naming and dispatch *)

Definition MISSAV_STRIP_SUFFIXES : list string :=
  ["-uncensored-leak"; "-uncensored"; "-leak"].

(** The [for suffix in ...: if segment.endswith(suffix): ...; break] loop. *)
Fixpoint strip_first_suffix (suffixes : list string) (segment : string) : string :=
  match suffixes with
  | [] => segment
  | suffix :: more =>
      if Py.endswith suffix segment
      then Py.rstrip_chars "-" (Py.slice segment 0 (- Z.of_nat (Py.len suffix)))
      else strip_first_suffix more segment
  end.



Definition _missav_filename_from_url (url : string) : res string :=
  p ← Url.urlparse (Py.strip url);
  let path := Py.strip_chars "/" (Url.path p) in
  if negb (Py.nonempty path) then Ok "video"
  else
    segment ← Py.index (Py.split "/" path) (-1);
    let segment := strip_first_suffix MISSAV_STRIP_SUFFIXES segment in
    name ← sanitize_filename segment;
    Ok (if Py.nonempty name then name else "video").

(** [https?://(?:www\.)?missav\.(?:ai|ws)/], compiled with [re.I] *)
Definition MISSAV_URL_RE : Re.regex :=
  Re.seq [Re.str_i "http"; Re.opt (Re.lit_i "s"); Re.str_i "://";
          Re.opt (Re.str_i "www."); Re.str_i "missav.";
          Re.Alt (Re.str_i "ai") (Re.str_i "ws"); Re.lit_i "/"].

Definition _is_missav_url (url : string) : bool :=
  match Re.match_ MISSAV_URL_RE (Py.strip url) with
  | Some _ => true
  | None => false
  end.

(** *** The MissAV address shape as the specification words it *)






(** ** download_service.py: the fallback chain *)

(** The body of the [if "video" in url_words:] statement of strategy 3: the
    URL it assigns, or [None] when the statement is skipped. *)
Definition legacy_url (url_words : list string) : res (option string) :=
  if Py.mem "video" url_words then
    video_index ← Py.index_of "video" url_words;
    protocol ← Py.index url_words (video_index - 1);
    let m3u8_url_path := Py.join "-" (List.rev (Py.lslice url_words 0 5)) in
    let base_url_path :=
      Py.join "." (List.rev (Py.lslice url_words 5 (video_index - 1))) in
    video_format ← Py.index url_words (video_index + 1);
    name ← Py.index url_words video_index;
    Ok (Some (protocol +:+ "://" +:+ base_url_path +:+ "/" +:+ m3u8_url_path
              +:+ "/" +:+ video_format +:+ "/" +:+ name +:+ ".m3u8"))
  else Ok None.

(** [webpage.split("m3u8|")[1].split("|playlist|source")[0].split("|")] *)
Definition legacy_words (webpage : string) : res (list string) :=
  after ← Py.index (Py.split "m3u8|" webpage) 1;
  chunk ← Py.index (Py.split "|playlist|source" after) 0;
  Ok (Py.split "|" chunk).

(** Strategy 3 with its [try]/[except (IndexError, ValueError, KeyError):
    pass]: the URL it assigns, or [None] when it assigns nothing. *)
Definition legacy_strategy (webpage : string) : res (option string) :=
  try_except (url_words ← legacy_words webpage; legacy_url url_words)
    (fun e =>
       match e with
       | IndexError | ValueError _ | KeyError => Ok None
       | _ => Raise e
       end).

(** *** The legacy strategy's URL, as the specification words it and as
    the code builds it

    [vi] is the position of video.  The scheme is the token before it, the
    path the first five tokens reversed and joined by dashes, the host the
    tokens from position 5 up to the one before the scheme reversed and
    joined by dots, the format the token after video. *)
Definition legacy_parts (url_words : list string) (vi : nat)
  : string * string * string * string :=
  (nth (vi - 1) url_words EmptyString,
   Py.join "." (List.rev (firstn (vi - 1 - 5) (skipn 5 url_words))),
   Py.join "-" (List.rev (firstn 5 url_words)),
   nth (vi + 1) url_words EmptyString).

(** scheme://host/path/format.m3u8 *)
Definition legacy_url_claimed (url_words : list string) (vi : nat) : string :=
  let '(sch, host, pth, fmt) := legacy_parts url_words vi in
  sch +:+ "://" +:+ host +:+ "/" +:+ pth +:+ "/" +:+ fmt +:+ ".m3u8".

(** scheme://host/path/format/video.m3u8 *)
Definition legacy_url_built (url_words : list string) (vi : nat) : string :=
  let '(sch, host, pth, fmt) := legacy_parts url_words vi in
  sch +:+ "://" +:+ host +:+ "/" +:+ pth +:+ "/" +:+ fmt +:+ "/video.m3u8".

Definition legacy_fixture : string :=
  "m3u8|1|2|3|4|5|com|surrit|https|video|ts|playlist|source".

Definition legacy_fixture_words : list string :=
  ["1"; "2"; "3"; "4"; "5"; "com"; "surrit"; "https"; "video"; "ts"].

(** The fixture after its marker, and the text between the marker and
    '|playlist|source'. *)
Definition fixture_body : string :=
  "1|2|3|4|5|com|surrit|https|video|ts|playlist|source".

Definition fixture_chunk : string := "1|2|3|4|5|com|surrit|https|video|ts".

(** No occurrence of [sep] starts inside [pre], whatever follows [pre]. *)
Fixpoint clear_of (sep pre : string) : bool :=
  match pre with
  | EmptyString => true
  | String _ pre' =>
      negb (Py.startswith sep pre) && negb (Py.startswith pre sep)
      && clear_of sep pre'
  end.

Definition example_url : string := "https://missav.ai/dm1/naac-032".

(** A page with both a packed-eval call and a dictionary literal, whose
    packed text spells another path than the dictionary's first tokens. *)
Definition both_markers_page : string :=
  "eval(function(p,a,c,k,e,d){}('8://7.6/x/b.0',15,15,'m3u8|1|2|3|4|5|com|surrit|https|video|ts|playlist|source'.split('|'),0,{}))".

(** [https?://[^\sQ'<>]+\.m3u8[^\sQ'<>]*], Q standing for the double quote *)
Definition any_m3u8_re : Re.regex :=
  Re.seq [Re.str "http"; Re.opt (Re.lit "s"); Re.str "://"; Re.plus (Re.Chr url_char);
          Re.str ".m3u8"; Re.Star (Re.Chr url_char)].

(** Strategy 4: the URL it assigns, or [None] when nothing matches. *)
Definition generic_strategy (webpage : string) : option string :=
  let normalized :=
    Py.replace (String backslash "/") "/" webpage in
  match Re.search any_m3u8_re normalized with
  | Some m =>
      Some (Py.strip (Py.rstrip_by (fun c => Char.eqb c backslash) (Re.m_text m)))
  | None => None
  end.

(** One step of the chain: [if not m3u8_url: m3u8_url = ...], where a
    strategy that assigns nothing leaves the variable as it was. *)
Definition or_else (m3u8_url : option string) (next : res (option string))
  : res (option string) :=
  if Py.truthy m3u8_url then Ok m3u8_url
  else
    r ← next;
    Ok (match r with Some u => Some u | None => m3u8_url end).

(** The value of the local variable [m3u8_url] of
    [_extract_missav_m3u8_and_title] when the four strategies have run. *)
Definition m3u8_url_of_page (webpage : string) : res (option string) :=
  m3u8_url ← _extract_missav_m3u8_from_packed webpage;
  m3u8_url ←
    (if Py.truthy m3u8_url then Ok m3u8_url
     else _extract_missav_m3u8_from_dict_only webpage);
  m3u8_url ← or_else m3u8_url (legacy_strategy webpage);
  or_else m3u8_url (Ok (generic_strategy webpage)).

Definition _extract_missav_m3u8_and_title (webpage page_url : string)
  : res (option (string * string * option string * option string)) :=
  m3u8_url ← m3u8_url_of_page webpage;
  match m3u8_url with
  | Some u =>
      if Py.nonempty u then
        title ← _missav_filename_from_url page_url;
        '(og_title, og_description) ← _extract_og_meta webpage;
        Ok (Some (u, title, og_title, og_description))
      else Ok None
  | None => Ok None
  end.

(** ** download_service.py: file classification *)

(** A [Path] is the list of its components; paths compare component by
    component, components by code point. *)
Definition path : Type := list string.

Fixpoint path_compare (p q : path) : comparison :=
  match p, q with
  | [], [] => Eq
  | [], _ :: _ => Lt
  | _ :: _, [] => Gt
  | a :: p', b :: q' =>
      match String.compare a b with
      | Eq => path_compare p' q'
      | c => c
      end
  end.

(** [p < q] *)
Definition path_ltb (p q : path) : bool :=
  match path_compare p q with Lt => true | _ => false end.

(** [p <= q], as the negation of [q < p]. *)
Definition path_le (p q : path) : Prop := path_ltb q p = false.

(** [sorted(files)]: a stable sort that compares with [<] only. *)
Fixpoint insert_sorted (f : path) (l : list path) : list path :=
  match l with
  | [] => [f]
  | g :: l' => if path_ltb g f then g :: insert_sorted f l' else f :: l
  end.

Fixpoint sorted (files : list path) : list path :=
  match files with
  | [] => []
  | f :: files' => insert_sorted f (sorted files')
  end.

(** [f.name] and [f.suffix] *)
Definition path_name (f : path) : string := List.last f EmptyString.

Definition path_suffix (f : path) : string :=
  let name := path_name f in
  let i := Url.rfind_char "." name in
  if (0 <? i) && (i <? Z.of_nat (Py.len name) - 1)
  then Py.drop (Z.to_nat i) name else EmptyString.

Definition VIDEO_EXTS : list string :=
  [".mp4"; ".mkv"; ".webm"; ".avi"; ".mov"; ".flv"; ".m4a"].

Definition SUB_EXTS : list string := [".srt"; ".vtt"; ".ass"; ".ssa"].

Definition is_video (f : path) : bool := Py.mem (Py.lower (path_suffix f)) VIDEO_EXTS.
Definition is_sub (f : path) : bool := Py.mem (Py.lower (path_suffix f)) SUB_EXTS.

(** One iteration of the loop of [_split_video_and_subs]. *)
Definition classify_step (is_file : path -> bool)
           (acc : option path * list path) (f : path) : option path * list path :=
  let '(video_path, sub_paths) := acc in
  if negb (is_file f) then acc
  else if is_video f && negb (bool_decide (is_Some video_path))
  then (Some f, sub_paths)
  else if is_sub f then (video_path, sub_paths ++ [f])
  else acc.

Definition _split_video_and_subs (is_file : path -> bool) (files : list path)
  : option path * list path :=
  fold_left (classify_step is_file) (sorted files) (None, []).

(** The regular files with a media extension, and those with a subtitle
    extension. *)
Definition media_file (is_file : path -> bool) (f : path) : bool :=
  is_file f && is_video f.

Definition subtitle_file (is_file : path -> bool) (f : path) : bool :=
  is_file f && is_sub f.

(** ** download_service.py: progress events *)

(** The dictionary the downloader passes to a progress hook, by the keys the
    hook reads; [None] stands for a key that is absent or bound to [None]. *)
Record event : Type := Event {
  d_status : option string;
  d_total_bytes : option Z;
  d_downloaded_bytes : option Z;
  d_percent_str : option string;
  d_fragment_count : option Z;
  d_fragment_index : option Z
}.

Definition truthy_num (o : option Z) : bool :=
  match o with Some n => negb (n =? 0) | None => false end.

(** [o or d] for an optional string *)
Definition str_or (o : option string) (d : string) : string :=
  match o with
  | Some s => if Py.nonempty s then s else d
  | None => d
  end.

(** [str(n)] *)
Definition str_of_Z (n : Z) : string := NilEmpty.string_of_int (Z.to_int n).

(** [int(a * 100 / b)]: the quotient truncated towards zero.  The source
    divides in floating point; the model divides exactly. *)
Definition percent_of (a b : Z) : Z := Z.quot (a * 100) b.

(** [int(float(g) + 0.5)] for [g] of the shape digits or digits.digits:
    the value rounded half up, computed exactly on the decimal text. *)
Definition round_half_up (g : string) : res Z :=
  let '(whole, frac) := Url.cut "." g in
  n ← Py.int whole;
  match frac with
  | String c _ => Ok (if (53 <=? Char.code c)%N then n + 1 else n)
  | EmptyString => Ok n
  end.

(** [(\d+(?:\.\d+)?)\s*%] *)
Definition percent_re : Re.regex :=
  Re.seq [Re.Grp 1 (Re.Cat Re.digits (Re.opt (Re.Cat (Re.lit ".") Re.digits)));
          Re.ws; Re.lit "%"].

Definition MSG_DOWNLOADING : string := "下載中…".
Definition MSG_MERGING : string := "合併檔案中…".

(** The arguments with which [progress_hook] calls its callback on the
    event [d], or [None] when it does not call it. *)
Definition hook_report (d : event) : res (option (Z * string)) :=
  match d_status d with
  | Some st =>
      if Py.str_eqb st "downloading" then
        if truthy_num (d_total_bytes d) then
          let total := default 0 (d_total_bytes d) in
          let pct := Z.min 100 (percent_of (default 0 (d_downloaded_bytes d)) total) in
          let msg := str_or (d_percent_str d) (str_of_Z pct +:+ "%") in
          Ok (Some (pct, msg))
        else
          let msg := str_or (d_percent_str d) MSG_DOWNLOADING in
          let pct := 0 in
          let percent_str := str_or (d_percent_str d) EmptyString in
          pct ←
            match Re.search percent_re percent_str with
            | Some m =>
                g ← group_str 1 m;
                v ← round_half_up g;
                Ok (Z.min 100 v)
            | None =>
                match d_fragment_index d with
                | Some fi =>
                    if truthy_num (d_fragment_count d) then
                      let fc := default 0 (d_fragment_count d) in
                      if 0 <? fc then Ok (Z.min 100 (percent_of fi fc)) else Ok pct
                    else Ok pct
                | None => Ok pct
                end
            end;
          Ok (Some (pct, msg))
      else if Py.str_eqb st "finished" then Ok (Some (100, MSG_MERGING))
      else Ok None
  | None => Ok None
  end.

Section Hook.

(** [W] is the state the callback writes and the cancellation check reads
    and may update. *)
Context {W : Type}.

Definition callback_t : Type := Z -> string -> W -> W.
Definition check_t : Type := W -> bool * W.

(** A computation over [W] that may raise; the state survives a raise. *)
Definition io (A : Type) : Type := W -> res A * W.

Definition progress_hook (callback : option callback_t)
           (cancelled_check : option check_t) (d : event) : io unit :=
  fun w =>
    let '(cancelled, w) :=
      match cancelled_check with
      | Some check => check w
      | None => (false, w)
      end in
    if cancelled then (Raise DownloadCancelled, w)
    else
      match callback with
      | Some cb =>
          match hook_report d with
          | Ok (Some (pct, msg)) => (Ok tt, cb pct msg w)
          | Ok None => (Ok tt, w)
          | Raise e => (Raise e, w)
          end
      | None => (Ok tt, w)
      end.

Definition _progress_hook_factory (callback : option callback_t)
           (cancelled_check : option check_t) : option (event -> io unit) :=
  match callback, cancelled_check with
  | None, None => None
  | _, _ => Some (progress_hook callback cancelled_check)
  end.

(** The downloader calls the hook on each event in turn; a hook that raises
    ends the transfer with that exception. *)
Fixpoint feed (hook : event -> io unit) (events : list event) : io unit :=
  fun w =>
    match events with
    | [] => (Ok tt, w)
    | d :: events' =>
        match hook d w with
        | (Ok _, w') => feed hook events' w'
        | (Raise e, w') => (Raise e, w')
        end
    end.

End Hook.

(** ** The delegate downloader and the file system

    What lies outside the program: the page fetch, the downloader and the
    scratch directory.  Each field gives the outcome of one external call. *)
Record delegate : Type := Delegate {
  fetch_page : string -> res string;           (* _fetch_missav_page(url) *)
  transfer : string -> list event;             (* events emitted while fetching url *)
  transfer_end : string -> res unit;           (* how the download of url ends *)
  info : string -> option (option string * option string);
                                              (* extract_info: title, description *)
  tmpdir : path;                               (* tempfile.mkdtemp() *)
  produced : list path;                        (* tmpdir.glob("*") afterwards *)
  is_file : path -> bool;
  zip_write : path -> list path -> res unit    (* zipfile.ZipFile(...).write *)
}.

Definition _origin_from_url (url : string) : res string :=
  p ← Url.urlparse url;
  Ok (if Py.nonempty (Url.scheme p) && Py.nonempty (Url.netloc p)
      then Url.scheme p +:+ "://" +:+ Url.netloc p else EmptyString).

Definition download_output : Type :=
  path * string * option path * list path * option string * option string.

Section Download.

Context {W : Type}.

Definition run_delegate (env : delegate) (hook : option (event -> io unit))
           (url : string) : @io W unit :=
  fun w =>
    match hook with
    | Some h =>
        match feed h (transfer env url) w with
        | (Ok _, w') => (transfer_end env url, w')
        | (Raise e, w') => (Raise e, w')
        end
    | None => (transfer_end env url, w)
    end.

Definition classify_output (env : delegate) (title : string)
           (og_title og_description : option string) : res download_output :=
  let all_files := List.filter (is_file env) (produced env) in
  match all_files with
  | [] => Raise (ValueError "未產生任何檔案")
  | _ =>
      let '(video_path, sub_paths) := _split_video_and_subs (is_file env) all_files in
      Ok (tmpdir env, title, video_path, sub_paths, og_title, og_description)
  end.

(** The branch of [download_video_with_subs] taken for a MissAV address. *)
Definition download_missav (env : delegate) (url : string)
           (progress_hook : option (event -> io unit)) : @io W download_output :=
  fun w =>
    match fetch_page env url with
    | Raise e => (Raise (ValueError ("無法載入 missav 頁面：" +:+ str_of_exn e)), w)
    | Ok webpage =>
        match _extract_missav_m3u8_and_title webpage url with
        | Raise e => (Raise e, w)
        | Ok None =>
            (Raise (ValueError
               "無法從 missav 頁面解析影片連結（頁面結構可能已變更）"), w)
        | Ok (Some (m3u8_url, title, og_title, og_description)) =>
            match run_delegate env progress_hook m3u8_url w with
            | (Raise e, w') => (Raise e, w')
            | (Ok _, w') =>
                (classify_output env title og_title og_description, w')
            end
        end
    end.

(** The branch taken for any other address: the address itself goes to the
    downloader. *)
Definition download_other (env : delegate) (url : string)
           (progress_hook : option (event -> io unit)) : @io W download_output :=
  fun w =>
    match run_delegate env progress_hook url w with
    | (Raise e, w') => (Raise e, w')
    | (Ok _, w') =>
        match info env url with
        | None => (Raise (ValueError "無法取得影片資訊"), w')
        | Some (info_title, info_description) =>
            match sanitize_filename (str_or info_title "video") with
            | Raise e => (Raise e, w')
            | Ok title =>
                (classify_output env title
                   (or_none (Py.strip (str_or info_title EmptyString)))
                   (or_none (Py.strip (str_or info_description EmptyString))),
                 w')
            end
        end
    end.

Definition download_video_with_subs (env : delegate) (url : string)
           (progress_callback : option callback_t)
           (cancelled_check : option check_t) : @io W download_output :=
  fun w =>
    let progress_hook := _progress_hook_factory progress_callback cancelled_check in
    match _origin_from_url url with
    | Raise e => (Raise e, w)
    | Ok _ =>
        if _is_missav_url url
        then download_missav env url progress_hook w
        else download_other env url progress_hook w
    end.

End Download.

(** ** main.py: the job store and the result table *)

Record DownloadLog : Type := Log {
  user_id : Z;
  url : string;
  status : string;
  progress : Z;
  message : string;
  title : option string;
  og_title : option string;
  og_description : option string;
  completed_at : option Z
}.

(** An entry of [_job_results]; an absent key is [None]. *)
Record result_data : Type := ResultData {
  r_tmpdir : path;
  r_title : string;
  r_dtype : string;
  r_video_path : option path;
  r_file_path : option path;
  r_filename : option string
}.

(** The process state: the job table of the database, the module-level
    dictionary [_job_results], and which paths exist on disk. *)
Record app : Type := App {
  db : gmap Z DownloadLog;
  _job_results : gmap Z result_data;
  on_disk : path -> bool
}.

Definition update_log (job_id : Z) (f : DownloadLog -> DownloadLog) (a : app) : app :=
  App (alter f job_id (db a)) (_job_results a) (on_disk a).

Definition set_running (log : DownloadLog) : DownloadLog :=
  Log (user_id log) (url log) "downloading" 0 "準備下載…" (title log)
      (og_title log) (og_description log) (completed_at log).

Definition set_progress (percent : Z) (msg : string) (log : DownloadLog) : DownloadLog :=
  Log (user_id log) (url log) (status log) (Z.min 100 percent) msg (title log)
      (og_title log) (og_description log) (completed_at log).

Definition set_error (msg : string) (now : Z) (log : DownloadLog) : DownloadLog :=
  Log (user_id log) (url log) "error" (progress log) msg (title log)
      (og_title log) (og_description log) (Some now).

Definition set_done (t : string) (ogt ogd : option string) (now : Z)
           (log : DownloadLog) : DownloadLog :=
  Log (user_id log) (url log) "done" 100 "完成" (Some t)
      (match ogt with Some _ => ogt | None => og_title log end)
      (match ogd with Some _ => ogd | None => og_description log end)
      (Some now).

(** The closure [progress_cb] of [_run_download_job]. *)
Definition progress_cb (job_id : Z) (percent : Z) (msg : string) (a : app) : app :=
  update_log job_id (set_progress percent msg) a.

(** The [except Exception as e:] branch of [_run_download_job]. *)
Definition on_download_error (now job_id : Z) (e : exn) (a : app) : app :=
  update_log job_id (set_error (str_of_exn e) now) a.

Definition child (dir : path) (name : string) : path := dir ++ [name].

Definition store_result (job_id : Z) (r : result_data) (a : app) : app :=
  App (db a) (<[job_id := r]> (_job_results a)) (on_disk a).

Definition create_file (p : path) (a : app) : app :=
  App (db a) (_job_results a)
      (fun q => if bool_decide (q = p) then true else on_disk a q).

(** The packaging part of [_run_download_job]: the entry to store, [None]
    with the message of the error branch, or the exception of the archive
    writer. *)
Definition package (env : delegate) (dtype : string) (out : download_output)
  : io (result_data + string) :=
  fun a =>
    let '(tmp, t, video_path, sub_paths, _, _) := out in
    if Py.str_eqb dtype "video" then
      match video_path with
      | Some v =>
          if on_disk a v
          then (Ok (inl (ResultData tmp t dtype (Some v) None
                           (Some (t +:+ path_suffix v)))), a)
          else (Ok (inr "未取得影片檔"), a)
      | None => (Ok (inr "未取得影片檔"), a)
      end
    else if Py.str_eqb dtype "subs" then
      match sub_paths with
      | [] => (Ok (inr "未取得字幕檔"), a)
      | [one] =>
          (Ok (inl (ResultData tmp t dtype None (Some one) (Some (path_name one)))), a)
      | _ =>
          let zip_path := child tmp (t +:+ "_subtitles.zip") in
          match zip_write env zip_path sub_paths with
          | Raise e => (Raise e, create_file zip_path a)
          | Ok _ =>
              (Ok (inl (ResultData tmp t dtype None (Some zip_path)
                          (Some (path_name zip_path)))), create_file zip_path a)
          end
      end
    else
      let zip_path := child tmp (t +:+ ".zip") in
      let members :=
        List.filter (fun f => is_file env f && negb (bool_decide (f = zip_path)))
                    (produced env) in
      match zip_write env zip_path members with
      | Raise e => (Raise e, create_file zip_path a)
      | Ok _ =>
          (Ok (inl (ResultData tmp t dtype None (Some zip_path)
                      (Some (path_name zip_path)))), create_file zip_path a)
      end.

Definition _run_download_job (env : delegate) (now : Z)
           (job_id : Z) (job_url dtype : string) (uid : Z) : io unit :=
  fun a =>
    match db a !! job_id with
    | None => (Ok tt, a)
    | Some log =>
        if negb (Py.str_eqb (status log) "pending") then (Ok tt, a)
        else
          let a := update_log job_id set_running a in
          match download_video_with_subs env job_url (Some (progress_cb job_id)) None a with
          | (Raise e, a) => (Ok tt, on_download_error now job_id e a)
          | (Ok out, a) =>
              let '(_, t, _, _, ogt, ogd) := out in
              match package env dtype out a with
              | (Raise e, a) => (Raise e, a)
              | (Ok (inr msg), a) => (Ok tt, update_log job_id (set_error msg now) a)
              | (Ok (inl r), a) =>
                  (Ok tt, update_log job_id (set_done t ogt ogd now)
                            (store_result job_id r a))
              end
          end
    end.

(** What the endpoint answers: an [HTTPException] or a [FileResponse]. *)
Inductive response : Type :=
| HTTPException (status_code : Z) (detail : string)
| FileResponse (file : path) (filename : string) (media_type : string).

(** [download_result]: the answer and the process state afterwards. *)
Definition download_result (job_id : Z) (current_user_id : Z) (a : app)
  : response * app :=
  match db a !! job_id with
  | None => (HTTPException 404 "找不到此下載任務", a)
  | Some log =>
      if negb (user_id log =? current_user_id) then (HTTPException 403 "無權限", a)
      else if negb (Py.str_eqb (status log) "done")
      then (HTTPException 400 "下載尚未完成或失敗", a)
      else
        match _job_results a !! job_id with
        | None => (HTTPException 404 "檔案已過期，請重新下載", a)
        | Some data =>
            let filename := default "download" (r_filename data) in
            match r_video_path data with
            | Some p => (FileResponse p filename "application/octet-stream", a)
            | None =>
                match r_file_path data with
                | Some p =>
                    if on_disk a p then
                      (FileResponse p filename
                         (if Py.str_eqb (path_suffix p) ".zip"
                          then "application/zip" else "application/x-subrip"), a)
                    else (HTTPException 404 "檔案不存在", a)
                | None => (HTTPException 404 "檔案不存在", a)
                end
            end
        end
  end.

(** The part of [lifespan] that runs at shutdown: every scratch directory
    is removed and the table is cleared. *)
Definition lifespan_shutdown (a : app) : app :=
  let dirs := List.map (fun kv => r_tmpdir (snd kv)) (map_to_list (_job_results a)) in
  App (db a) ∅
      (fun p => on_disk a p
                && negb (existsb (fun d => bool_decide (d `prefix_of` p)) dirs)).

Definition sample_files : list path :=
  [["t"; "x.jpg"]; ["t"; "c.mkv"]; ["t"; "a.vtt"]; ["t"; "z.MP4"]; ["t"; "b.srt"]].

(** ** Notions and fixtures for the job properties *)

(** The hook [_run_download_job] installs: its callback is [progress_cb],
    and no cancellation check is passed. *)
Definition job_hook (job_id : Z) : event -> @io app unit :=
  progress_hook (Some (progress_cb job_id)) None.

Definition job_progress (job_id : Z) (a : app) : option Z :=
  progress <$> db a !! job_id.

Definition job_status (job_id : Z) (a : app) : option string :=
  status <$> db a !! job_id.

Definition job_message (job_id : Z) (a : app) : option string :=
  message <$> db a !! job_id.

(** A fragment pair the hook can use: an index, and a count above zero. *)
Definition usable_fragments (d : event) : bool :=
  match d_fragment_index d, d_fragment_count d with
  | Some _, Some fc => 0 <? fc
  | _, _ => false
  end.

(** A downloading event that carries nothing but its status. *)
Definition bare_downloading : event :=
  Event (Some "downloading") None None None None None.

Definition fragment_event (fi fc : Z) : event :=
  Event (Some "downloading") None None None (Some fc) (Some fi).

Definition pending_log : DownloadLog :=
  Log 7 "http://example.org/v" "pending" 0 "排隊中…" None None None None.

Definition running_log : DownloadLog := set_running pending_log.

Definition one_job (log : DownloadLog) : app :=
  App (<[1 := log]> ∅) ∅ (fun _ => true).

(** A cancellation check with a counter of its own beside the process
    state: it answers true from its [k]-th call on (counting from 0). *)
Definition counting_check (k : nat) : @check_t (app * nat) :=
  fun w => ((k <=? snd w)%nat, (fst w, S (snd w))).

Definition lifted_cb (job_id : Z) : @callback_t (app * nat) :=
  fun pct msg w => (progress_cb job_id pct msg (fst w), snd w).

Definition three_events : list event :=
  [fragment_event 1 4; fragment_event 2 4; fragment_event 3 4].

Definition sample_env : delegate :=
  Delegate (fun _ => Raise (OtherError "offline"))
           (fun _ => three_events)
           (fun _ => Ok tt)
           (fun _ => Some (Some "clip", None))
           ["tmp"; "job"]
           [["tmp"; "job"; "clip.mkv"]]
           (fun _ => true)
           (fun _ _ => Ok tt).

Definition done_log : DownloadLog :=
  Log 7 "http://example.org/v" "done" 100 "完成" (Some "clip") None None (Some 0).

Definition served_app : app :=
  App (<[1 := done_log]> ∅)
      (<[1 := ResultData ["tmp"; "job"] "clip" "video"
                 (Some ["tmp"; "job"; "clip.mkv"]) None (Some "clip.mkv")]> ∅)
      (fun _ => true).

(** ** Notions for the further properties *)

(** [s] with every character of the class [p] replaced by [r]. *)
Fixpoint replace_chars (p : ascii -> bool) (r : string) (s : string) : string :=
  match s with
  | EmptyString => EmptyString
  | String c s' => (if p c then r else String c EmptyString) +:+ replace_chars p r s'
  end.

(** A name that can stand in a file name: not empty, and free of the
    characters [sanitize_filename] replaces. *)
Definition safe_name (s : string) : Prop :=
  Py.nonempty s = true /\ forall c, In c (Py.chars s) -> illegal_filename_char c = false.

(** An optional text that, when present, is not empty and has no blanks
    around it. *)
Definition clean_field (o : option string) : Prop :=
  forall s, o = Some s -> Py.nonempty s = true /\ Py.strip s = s.

(** Every match of [r] ends with the literal [w]: [r] is a sequence whose
    last member is that literal. *)
Fixpoint ends_lit (w : string) (r : Re.regex) : Prop :=
  match r with
  | Re.Cat a b => b = Re.str w \/ ends_lit w b
  | _ => False
  end.

(** The state [a'] differs from [a] at most in the progress and the message
    of job [j]. *)
Definition progress_only (j : Z) (a a' : app) : Prop :=
  _job_results a' = _job_results a /\
  on_disk a' = on_disk a /\
  (forall k, k <> j -> db a' !! k = db a !! k) /\
  (forall log, db a !! j = Some log ->
     exists log', db a' !! j = Some log' /\ status log' = status log /\
       completed_at log' = completed_at log /\ user_id log' = user_id log) /\
  (db a !! j = None -> db a' !! j = None).

(** The other jobs and the other entries of the result table are the same
    in [a] and [a']. *)
Definition others_untouched (j : Z) (a a' : app) : Prop :=
  forall k, k <> j ->
    db a' !! k = db a !! k /\ _job_results a' !! k = _job_results a !! k.

(** ** subtitle_service.py: the language code *)

Definition _normalize_subtitle_lang (lang : string) : string :=
  if negb (Py.nonempty lang) then "zht"
  else
    let lang := Py.lower (Py.strip lang) in
    if Py.mem lang ["zhs"; "zh-cn"; "zh_cn"] then "zhs" else "zht".

(** No code character of [s] stands alone between word boundaries;
    [before] is the character that precedes [s]. *)
Fixpoint no_standalone_code (before : option ascii) (s : string) : bool :=
  match s with
  | EmptyString => true
  | String c s' =>
      negb (packed_code_char c && negb (Re.word_opt before)
            && negb (Re.word_opt (Re.next_char s')))
      && no_standalone_code (Some c) s'
  end.

(** Every character class of [r] lies within [P]. *)
Fixpoint within (P : ascii -> bool) (r : Re.regex) : Prop :=
  match r with
  | Re.Chr p => forall c, p c = true -> P c = true
  | Re.Cat a b | Re.Alt a b => within P a /\ within P b
  | Re.Star a | Re.Grp _ a => within P a
  | _ => True
  end.

(** ** main.py: starting a job and asking for its state *)

(** What an endpoint answers: its response model, or an [HTTPException]. *)
Inductive reply (A : Type) : Type :=
| Replied (a : A)
| HTTPError (status_code : Z) (detail : string).

Arguments Replied {A} a.
Arguments HTTPError {A} status_code detail.


Record DownloadStatusResponse : Type := StatusResponse {
  s_job_id : Z;
  s_status : string;
  s_progress : Z;
  s_message : string;
  s_title : option string
}.

(** [n or d] for a number *)
Definition num_or (n d : Z) : Z := if n =? 0 then d else n.


Definition download_status (job_id : Z) (current_user_id : Z) (a : app)
  : reply DownloadStatusResponse :=
  match db a !! job_id with
  | None => HTTPError 404 "找不到此下載任務"
  | Some log =>
      if negb (user_id log =? current_user_id) then HTTPError 403 "無權限查看此任務"
      else Replied (StatusResponse job_id (status log) (num_or (progress log) 0)
                                   (message log) (title log))
  end.

(** ** auth.py and main.py: accounts *)

Record User : Type := MkUser {
  email : string;
  username : string;
  hashed_password : string;
  is_admin : bool;
  created_at : Z
}.

(** The table [users], keyed by the primary key [id]. *)
Abbreviation users := (gmap Z User).

Record UserInfo : Type := MkUserInfo {
  i_id : Z;
  i_email : string;
  i_username : string;
  i_is_admin : bool;
  i_created_at : Z
}.

Definition user_info (i : Z) (u : User) : UserInfo :=
  MkUserInfo i (email u) (username u) (is_admin u) (created_at u).

Definition ADMIN_USERNAME : string := "admin".
Definition ADMIN_PASSWORD : string := "1qaz2wsx".
Definition ADMIN_EMAIL : string := "admin@localhost".

(** [db.query(User).filter(p).first()]: a row that satisfies [p], if there
    is one. *)
Definition query_first (p : Z -> User -> bool) (t : users) : option (Z * User) :=
  List.find (fun r => p r.1 r.2) (map_to_list t).

(** The [unique=True] columns of models.py: no two rows share an email or a
    user name. *)
Definition unique_ok (t : users) : bool :=
  forallb (fun r =>
    forallb (fun r' =>
      (r.1 =? r'.1)
      || (negb (Py.str_eqb (email r.2) (email r'.2))
          && negb (Py.str_eqb (username r.2) (username r'.2))))
      (map_to_list t))
    (map_to_list t).

(** [db.commit()]: the database refuses a table that breaks a constraint. *)
Definition commit (t : users) : res users :=
  if unique_ok t then Ok t else Raise (OtherError "IntegrityError").

(** [s.encode("utf-8")] for code points below 256. *)
Definition utf8_char (c : ascii) : string :=
  if (Char.code c <? 128)%N then String c EmptyString
  else String (ascii_of_N (192 + Char.code c / 64))
         (String (ascii_of_N (128 + Char.code c mod 64)) EmptyString).

Fixpoint encode_utf8 (s : string) : string :=
  match s with
  | EmptyString => EmptyString
  | String c s' => utf8_char c +:+ encode_utf8 s'
  end.

Definition BCRYPT_MAX_PASSWORD_BYTES : nat := 72.

Definition _password_bytes (password : string) : string :=
  Py.take BCRYPT_MAX_PASSWORD_BYTES (encode_utf8 password).

Definition ACCESS_TOKEN_EXPIRE_MINUTES : Z := 60 * 24 * 7.

Section Accounts.

(** The libraries: [bcrypt.hashpw] on a password and a salt, whose output
    is ASCII and so is its own decoding; [bcrypt.checkpw] on a password and
    a stored hash; [jwt.encode] on the subject and the expiry, with the key
    and the algorithm of the module. *)
Variable hashpw : string -> string -> string.
Variable checkpw : string -> string -> bool.
Variable jwt_encode : string -> Z -> string.

Definition verify_password (plain_password hashed_password : string) : bool :=
  checkpw (_password_bytes plain_password) (encode_utf8 hashed_password).

(** [salt] is what [bcrypt.gensalt()] returns. *)
Definition get_password_hash (salt password : string) : string :=
  hashpw (_password_bytes password) salt.

(** [now] is the clock, in seconds. *)
Definition create_access_token (now : Z) (sub : string) : string :=
  jwt_encode sub (now + ACCESS_TOKEN_EXPIRE_MINUTES * 60).

Definition get_current_admin (current_user : Z * User) : reply (Z * User) :=
  if negb (is_admin current_user.2) then HTTPError 403 "需要管理員權限"
  else Replied current_user.

(** [_seed_admin]; [new_id] is the primary key the database gives a new
    row. *)
Definition _seed_admin (new_id now : Z) (salt : string) (t : users) : res users :=
  match query_first (fun _ u => Py.str_eqb (username u) ADMIN_USERNAME) t with
  | Some _ => Ok t
  | None =>
      commit (<[new_id := MkUser ADMIN_EMAIL ADMIN_USERNAME
                            (get_password_hash salt ADMIN_PASSWORD) true now]> t)
  end.

(** The body shared by [register] and [admin_create_user]: the two checks,
    then the new row. *)
Definition create_user (new_id now : Z) (salt : string)
           (data_email data_username data_password : string) (t : users)
  : res (reply (Z * User)) * users :=
  match query_first (fun _ u => Py.str_eqb (email u) data_email) t with
  | Some _ => (Ok (HTTPError 400 "此信箱已被註冊"), t)
  | None =>
      match query_first (fun _ u => Py.str_eqb (username u) data_username) t with
      | Some _ => (Ok (HTTPError 400 "此使用者名稱已被使用"), t)
      | None =>
          let user := MkUser data_email data_username
                             (get_password_hash salt data_password) false now in
          match commit (<[new_id := user]> t) with
          | Ok t' => (Ok (Replied (new_id, user)), t')
          | Raise e => (Raise e, t)
          end
      end
  end.

(** [register]: the answer is the access token. *)
Definition register (new_id now : Z) (salt : string)
           (data_email data_username data_password : string) (t : users)
  : res (reply string) * users :=
  match create_user new_id now salt data_email data_username data_password t with
  | (Ok (Replied (i, _)), t') => (Ok (Replied (create_access_token now (str_of_Z i))), t')
  | (Ok (HTTPError c d), t') => (Ok (HTTPError c d), t')
  | (Raise e, t') => (Raise e, t')
  end.

Definition login (now : Z) (data_email data_password : string) (t : users)
  : reply string :=
  let user :=
    if Py.contains "@" data_email
    then query_first (fun _ u => Py.str_eqb (email u) data_email) t
    else query_first (fun _ u => Py.str_eqb (username u) data_email) t in
  match user with
  | Some (i, u) =>
      if verify_password data_password (hashed_password u)
      then Replied (create_access_token now (str_of_Z i))
      else HTTPError 401 "帳號或密碼錯誤"
  | None => HTTPError 401 "帳號或密碼錯誤"
  end.

Definition admin_create_user (new_id now : Z) (salt : string)
           (body_email body_username body_password : string)
           (current_user : Z * User) (t : users)
  : res (reply UserInfo) * users :=
  match get_current_admin current_user with
  | HTTPError c d => (Ok (HTTPError c d), t)
  | Replied _ =>
      match create_user new_id now salt body_email body_username body_password t with
      | (Ok (Replied (i, u)), t') => (Ok (Replied (user_info i u)), t')
      | (Ok (HTTPError c d), t') => (Ok (HTTPError c d), t')
      | (Raise e, t') => (Raise e, t')
      end
  end.

(** [admin_update_user]; the four fields of the body are optional.  The
    row is changed in the session and written by the commit at the end; an
    [HTTPException] on the way leaves the table as it was. *)
Definition admin_update_user (salt : string) (user_id : Z)
           (body_username body_email body_password : option string)
           (body_is_admin : option bool)
           (current_user : Z * User) (t : users)
  : res (reply UserInfo) * users :=
  match get_current_admin current_user with
  | HTTPError c d => (Ok (HTTPError c d), t)
  | Replied _ =>
      match t !! user_id with
      | None => (Ok (HTTPError 404 "使用者不存在"), t)
      | Some user =>
          let taken (p : User -> bool) :=
            query_first (fun i u => p u && negb (i =? user_id)) t in
          match (match body_username with
                 | Some n =>
                     match taken (fun u => Py.str_eqb (username u) n) with
                     | Some _ => None
                     | None => Some (MkUser (email user) n (hashed_password user)
                                            (is_admin user) (created_at user))
                     end
                 | None => Some user
                 end) with
          | None => (Ok (HTTPError 400 "此使用者名稱已被使用"), t)
          | Some user =>
              match (match body_email with
                     | Some e =>
                         match taken (fun u => Py.str_eqb (email u) e) with
                         | Some _ => None
                         | None => Some (MkUser e (username user) (hashed_password user)
                                                (is_admin user) (created_at user))
                         end
                     | None => Some user
                     end) with
              | None => (Ok (HTTPError 400 "此信箱已被使用"), t)
              | Some user =>
                  let user :=
                    match body_password with
                    | Some p => MkUser (email user) (username user)
                                       (get_password_hash salt p)
                                       (is_admin user) (created_at user)
                    | None => user
                    end in
                  let user :=
                    match body_is_admin with
                    | Some b => MkUser (email user) (username user)
                                       (hashed_password user) b (created_at user)
                    | None => user
                    end in
                  match commit (<[user_id := user]> t) with
                  | Ok t' => (Ok (Replied (user_info user_id user)), t')
                  | Raise e => (Raise e, t)
                  end
              end
          end
      end
  end.

(** [admin_delete_user].  No constraint stands in the way of the deletion:
    the rows of [download_logs] that name the user are left as they are,
    SQLite not enforcing foreign keys as the program opens it. *)
Definition admin_delete_user (user_id : Z) (current_user : Z * User) (t : users)
  : reply unit * users :=
  match get_current_admin current_user with
  | HTTPError c d => (HTTPError c d, t)
  | Replied current_user =>
      if user_id =? current_user.1 then (HTTPError 400 "無法刪除自己", t)
      else
        match t !! user_id with
        | None => (HTTPError 404 "使用者不存在", t)
        | Some user =>
            if Py.str_eqb (username user) ADMIN_USERNAME
            then (HTTPError 400 "admin 不可以刪除", t)
            else (Replied tt, delete user_id t)
        end
  end.

(** [admin_delete_download] *)
Definition admin_delete_download (log_id : Z) (current_user : Z * User) (a : app)
  : reply unit * app :=
  match get_current_admin current_user with
  | HTTPError c d => (HTTPError c d, a)
  | Replied _ =>
      match db a !! log_id with
      | None => (HTTPError 404 "下載紀錄不存在", a)
      | Some _ => (Replied tt, App (delete log_id (db a)) (_job_results a) (on_disk a))
      end
  end.

End Accounts.

(** A table that holds one administrator, and library stand-ins with which
    the statements can be run: the hash of a password is the password. *)
Definition sample_admin : User := MkUser "admin@localhost" "admin" "1qaz2wsx" true 0.

Definition sample_users : users := <[1 := sample_admin]> ∅.

Definition plain_hashpw (password salt : string) : string := password.

Definition plain_checkpw (password hashed : string) : bool :=
  Py.str_eqb (encode_utf8 password) hashed.

Definition plain_jwt (sub : string) (exp : Z) : string := sub.

(** An account endpoint kept to the constraints: it did not raise, the
    table it leaves satisfies them, and an [HTTPException] left the table
    [t] as it was. *)
Definition lawful {A : Type} (t : users) (r : res (reply A) * users) : Prop :=
  unique_ok r.2 = true /\
  match r.1 with
  | Ok (Replied _) => True
  | Ok (HTTPError _ _) => r.2 = t
  | Raise _ => False
  end.

(** The table after the administrator has been renamed: no account is
    named admin, and one holds the email of the seed. *)
Definition renamed_users : users :=
  <[1 := MkUser "admin@localhost" "root" "1qaz2wsx" true 0]> ∅.

(** A password of 80 characters. *)
Definition long_password : string :=
  "0123456789012345678901234567890123456789"
  +:+ "0123456789012345678901234567890123456789".

(** The lookup of [login]: by email when the identifier holds an at sign,
    by user name otherwise. *)
Definition login_key (ident : string) (u : User) : bool :=
  if Py.contains "@" ident then Py.str_eqb (email u) ident
  else Py.str_eqb (username u) ident.

(** No two rows share an email or a user name: what [unique_ok] decides. *)
Definition distinct (t : users) : Prop :=
  forall i j u v, t !! i = Some u -> t !! j = Some v -> i <> j ->
    email u <> email v /\ username u <> username v.

(** * Properties *)

(** ** The matcher *)

Section Matcher.

Import Re.

Lemma extends_refl st : extends st st.
Proof. split; [lia | auto]. Qed.

Lemma extends_trans a b c : extends a b -> extends b c -> extends a c.
Proof. intros [H1 G1] [H2 G2]. split; [lia | auto]. Qed.

Lemma group_cons_same n s cs : is_Some (group n ((n, s) :: cs)).
Proof. cbn. rewrite Nat.eqb_refl. eauto. Qed.

Lemma group_cons_keep n i s cs :
  is_Some (group n cs) -> is_Some (group n ((i, s) :: cs)).
Proof. intros H. cbn. destruct (i =? n)%nat; eauto. Qed.

(** A result of [run] is a result of its continuation, taken at a state
    that extends the starting one. *)
Lemma run_extends r : forall st k x,
  run r st k = Some x -> exists st', extends st st' /\ k st' = Some x.
Proof.
  induction r as [|p|a IHa b IHb|a IHa b IHb|a IHa|n a IHa|]; intros st k x H;
    cbn [run] in H.
  - exists st. split; [apply extends_refl | exact H].
  - destruct (rest st) as [|c s'] eqn:E; [discriminate|].
    destruct (p c); [|discriminate].
    eexists. split; [|exact H]. split; cbn [rest caps]; [|auto].
    rewrite E. unfold Py.len. cbn [String.length]. lia.
  - apply IHa in H as (st1 & E1 & H). apply IHb in H as (st2 & E2 & H).
    exists st2. split; [eapply extends_trans; eauto | exact H].
  - destruct (run a st k) eqn:Ea.
    + injection H as <-. eapply IHa; eauto.
    + eapply IHb; eauto.
  - cbn [run] in H. generalize dependent (S (Py.len (rest st))). intros fuel.
    revert st. induction fuel as [|fuel IHf]; intros st H; cbn [star_loop] in H.
    + exists st. split; [apply extends_refl | exact H].
    + match type of H with
      | match ?t with _ => _ end = _ => destruct t eqn:Ea
      end.
      * injection H as <-. apply IHa in Ea as (st1 & E1 & Ea).
        destruct (Py.len (rest st1) <? Py.len (rest st))%nat; [|discriminate].
        apply IHf in Ea as (st2 & E2 & Ea).
        exists st2. split; [eapply extends_trans; eauto | exact Ea].
      * exists st. split; [apply extends_refl | exact H].
  - apply IHa in H as (st1 & [L1 G1] & H).
    eexists. split; [|exact H]. split; cbn [rest caps]; [lia|].
    intros i Hi. apply group_cons_keep. auto.
  - destruct (boundary st); [|discriminate].
    exists st. split; [apply extends_refl | exact H].
Qed.

Lemma run_nonnull r : forall st k x,
  nonnull r = true -> run r st k = Some x ->
  exists st', (Py.len (rest st') < Py.len (rest st))%nat /\ k st' = Some x.
Proof.
  induction r as [|p|a IHa b IHb|a IHa b IHb|a IHa|n a IHa|];
    intros st k x Hn H; cbn in Hn; try discriminate.
  - cbn in H. destruct (rest st) as [|c s'] eqn:E; [discriminate|].
    destruct (p c); [|discriminate].
    eexists. split; [|exact H]. cbn [rest].
    unfold Py.len. cbn [String.length]. lia.
  - cbn in H. apply orb_true_iff in Hn as [Hn|Hn].
    + apply (IHa _ _ _ Hn) in H as (st1 & L1 & H).
      apply run_extends in H as (st2 & [L2 _] & H).
      exists st2. split; [lia | exact H].
    + apply run_extends in H as (st1 & [L1 _] & H).
      apply (IHb _ _ _ Hn) in H as (st2 & L2 & H).
      exists st2. split; [lia | exact H].
  - cbn in H. apply andb_true_iff in Hn as [Hna Hnb].
    destruct (run a st k) eqn:Ea.
    + injection H as <-. eapply IHa; eauto.
    + eapply IHb; eauto.
  - cbn in H. apply (IHa _ _ _ Hn) in H as (st1 & L1 & H).
    eexists. split; [|exact H]. cbn [rest]. lia.
Qed.

Lemma run_binds n r : forall st k x,
  binds n r = true -> run r st k = Some x ->
  exists st', is_Some (group n (caps st')) /\ k st' = Some x.
Proof.
  induction r as [|p|a IHa b IHb|a IHa b IHb|a IHa|i a IHa|];
    intros st k x Hn H; cbn in Hn; try discriminate.
  - cbn in H. apply orb_true_iff in Hn as [Hn|Hn].
    + apply (IHa _ _ _ Hn) in H as (st1 & G1 & H).
      apply run_extends in H as (st2 & [_ G2] & H).
      exists st2. split; [auto | exact H].
    + apply run_extends in H as (st1 & _ & H).
      eapply IHb; eauto.
  - cbn in H. apply andb_true_iff in Hn as [Hna Hnb].
    destruct (run a st k) eqn:Ea.
    + injection H as <-. eapply IHa; eauto.
    + eapply IHb; eauto.
  - cbn in H. apply orb_true_iff in Hn as [Hn|Hn].
    + apply Nat.eqb_eq in Hn as ->.
      apply run_extends in H as (st1 & _ & H).
      eexists. split; [|exact H]. apply group_cons_same.
    + apply (IHa _ _ _ Hn) in H as (st1 & G1 & H).
      eexists. split; [|exact H]. cbn. now apply group_cons_keep.
Qed.

Lemma search_go_at r : forall s p off m,
  search_go r p s off = Some m -> exists p' s' off', at_pos r p' s' off' = Some m.
Proof.
  induction s as [|c s IH]; intros p off m H; cbn in H.
  - destruct (at_pos r p "" off) eqn:E; [|discriminate].
    injection H as <-. eauto.
  - destruct (at_pos r p (String c s) off) eqn:E.
    + injection H as <-. eauto.
    + eapply IH; eauto.
Qed.

Lemma take_nonempty n c s : (0 < n)%nat -> Py.nonempty (Py.take n (String c s)) = true.
Proof. destruct n; [lia | reflexivity]. Qed.

(** The text of a match of a pattern that cannot match the empty string
    is not empty. *)
Lemma search_nonempty r s m :
  nonnull r = true -> search r s = Some m -> Py.nonempty (m_text m) = true.
Proof.
  intros Hn H. apply search_go_at in H as (p & s' & off & H).
  unfold at_pos in H. destruct (run r _ Some) as [st|] eqn:E; [|discriminate].
  injection H as <-. cbn.
  apply (run_nonnull _ _ _ _ Hn) in E as (st' & L & E). injection E as ->.
  cbn [rest] in L. unfold consumed. destruct s' as [|c s'].
  - unfold Py.len in L. cbn [String.length] in L. lia.
  - apply take_nonempty. lia.
Qed.

(** A group the pattern always closes is present in the match. *)
Lemma search_binds n r s m :
  binds n r = true -> search r s = Some m -> is_Some (group n (m_caps m)).
Proof.
  intros Hn H. apply search_go_at in H as (p & s' & off & H).
  unfold at_pos in H. destruct (run r _ Some) as [st|] eqn:E; [|discriminate].
  injection H as <-. cbn.
  apply (run_binds _ _ _ _ _ Hn) in E as (st' & G & E). now injection E as ->.
Qed.

End Matcher.
(** ** The unpacker *)

Section Unpack.

Lemma take_one c s : Re.consumed (String c s) s = String c EmptyString.
Proof.
  unfold Re.consumed, Py.len. cbn [String.length].
  replace (S (String.length s) - String.length s)%nat with 1%nat by lia.
  reflexivity.
Qed.

Lemma code_char_cases c :
  packed_code_char c = true ->
  Char.is_word c = true /\
  exists i, code_index c = Some i /\
    ((Py.isdigit (String c "") = true /\ Py.int (String c "") = Ok (Z.of_nat i))
     \/ (Py.isdigit (String c "") = false
         /\ (String.leb "a" (String c "") && String.leb (String c "") "e") = true
         /\ Py.ord (String c "") = Ok (Z.of_nat i - 10 + 97))).
Proof.
  destruct c as [[] [] [] [] [] [] [] []]; vm_compute; intros H;
    try discriminate H; (split; [reflexivity|]); eexists; (split; [reflexivity|]);
    first [left; split; reflexivity | right; repeat split; reflexivity].
Qed.

Lemma non_code_char c : packed_code_char c = false -> code_index c = None.
Proof.
  unfold packed_code_char, code_index. intros H.
  apply orb_false_iff in H as [-> ->]. reflexivity.
Qed.

Lemma index_or_keep (parts : list string) (i : nat) (c : string) :
  (if Z.of_nat i <? Z.of_nat (length parts)
   then Py.index parts (Z.of_nat i) else Ok c)
  = Ok (match nth_error parts i with Some w => w | None => c end).
Proof.
  destruct (Z.ltb_spec (Z.of_nat i) (Z.of_nat (length parts))) as [Hlt|Hge].
  - unfold Py.index.
    destruct (Z.ltb_spec (Z.of_nat i) 0); [lia|].
    destruct (Z.ltb_spec (Z.of_nat i) 0); [lia|].
    destruct (Z.leb_spec (Z.of_nat (length parts)) (Z.of_nat i)); [lia|].
    cbn [orb]. rewrite Nat2Z.id.
    destruct (nth_error parts i) eqn:E; [reflexivity|].
    apply nth_error_None in E. lia.
  - destruct (nth_error parts i) eqn:E; [|reflexivity].
    assert (i < length parts)%nat by (apply nth_error_Some; congruence). lia.
Qed.

Lemma unpack_repl_code parts c off cs after i :
  packed_code_char c = true ->
  code_index c = Some i ->
  unpack_repl parts (Re.RMatch off (String c "") cs after)
  = Ok (match nth_error parts i with Some w => w | None => String c "" end).
Proof.
  intros Hc Hi. destruct (code_char_cases c Hc) as [_ (j & Hj & Hcase)].
  assert (j = i) by congruence. subst j.
  unfold unpack_repl. cbn [Re.m_text].
  destruct Hcase as [[Hd Hint] | (Hd & Hle & Hord)].
  - rewrite Hd, Hint. cbn. apply index_or_keep.
  - rewrite Hd, Hle, Hord. cbn.
    replace (10 + (Z.of_nat i - 10 + 97) - 97) with (Z.of_nat i) by lia.
    apply index_or_keep.
Qed.

Lemma at_pos_unpack p c s off :
  Re.at_pos unpack_re p (String c s) off =
  if packed_code_char c && negb (Re.word_opt p) && negb (Re.word_opt (Re.next_char s))
  then Some (Re.RMatch off (String c "") [(1%nat, String c "")] s)
  else None.
Proof.
  unfold Re.at_pos, unpack_re. cbn [Re.seq Re.run Re.rest Re.prev Re.caps].
  unfold Re.boundary at 1. cbn [Re.rest Re.prev Re.next_char Re.word_opt].
  destruct (packed_code_char c) eqn:Hc.
  - destruct (code_char_cases c Hc) as [Hw _]. rewrite Hw.
    destruct (Re.word_opt p); cbn [xorb negb andb]; [reflexivity|].
    unfold Re.boundary. cbn [Re.rest Re.prev Re.word_opt]. rewrite Hw.
    destruct (Re.word_opt (Re.next_char s)); cbn; [reflexivity|].
    unfold Py.len.
    replace (S (String.length s) - String.length s)%nat with 1%nat by lia.
    reflexivity.
  - cbn [andb]. destruct (xorb _ _); reflexivity.
Qed.

Lemma sub_go_unpack parts s : forall p off,
  Re.sub_go unpack_re (unpack_repl parts) p s off 0 = Ok (unpack_spec parts p s).
Proof.
  induction s as [|c s IH]; intros p off; [reflexivity|].
  cbn [Re.sub_go unpack_spec]. rewrite at_pos_unpack. unfold unpack_char.
  destruct (packed_code_char c) eqn:Hc.
  - destruct (code_char_cases c Hc) as [_ (i & Hi & _)]. rewrite Hi.
    cbn [andb].
    destruct (negb (Re.word_opt p) && negb (Re.word_opt (Re.next_char s))) eqn:Hb.
    + rewrite (unpack_repl_code parts c off _ s i Hc Hi).
      cbn [Re.m_text Py.len String.length Nat.sub]. cbn. rewrite IH. reflexivity.
    + cbn. rewrite IH. reflexivity.
  - rewrite (non_code_char c Hc). cbn. rewrite IH. reflexivity.
Qed.

End Unpack.

(** C2.  For every packed text and every |-delimited dictionary the
    unpacker returns normally, and its result is the packed text in which
    each character 0-9 or a-e that stands alone between word boundaries is
    replaced by the dictionary entry at index 0-9 or 10-14; a code whose
    index is not below the dictionary length, a character outside the
    alphabet, and a code inside a longer run of word characters are copied
    unchanged. *)
Theorem unpack_replaces_standalone_codes (packed dict_str : string) :
  _unpack_missav_packed_js packed dict_str
  = Ok (unpack_spec (Py.split "|" dict_str) None packed).
Proof. unfold _unpack_missav_packed_js, Re.sub. apply sub_go_unpack. Qed.

(** ** Dispatch *)

Section Dispatch.

Import Re.


Lemma rest_adv n : forall st, rest (adv n st) = Py.drop n (rest st).
Proof.
  induction n as [|n IH]; intros st; cbn [adv Py.drop]; [reflexivity|].
  destruct (rest st) as [|c s'] eqn:E; [now rewrite E|].
  rewrite IH. reflexivity.
Qed.

Lemma app_cons c a b : String c a +:+ b = String c (a +:+ b).
Proof. reflexivity. Qed.

Lemma len_app a b : Py.len (a +:+ b) = (Py.len a + Py.len b)%nat.
Proof.
  unfold Py.len. induction a as [|c a IH]; [reflexivity|].
  rewrite app_cons. cbn [String.length Nat.add]. now rewrite IH.
Qed.











End Dispatch.



(** ** The dictionary-only strategy *)

Section DictOnly.

Lemma clamp_nat (n a : nat) : Py.clamp (Z.of_nat n) (Z.of_nat a) = Nat.min n a.
Proof.
  unfold Py.clamp. destruct (Z.ltb_spec (Z.of_nat a) 0); lia.
Qed.

(** A slice with bounds that are not negative is a [firstn] of a [skipn]. *)
Lemma lslice_nat {A} (l : list A) (a b : nat) :
  Py.lslice l (Z.of_nat a) (Z.of_nat b) = firstn (b - a) (skipn a l).
Proof.
  unfold Py.lslice. rewrite !clamp_nat.
  destruct (Nat.le_gt_cases a (length l)) as [Ha|Ha].
  - rewrite (Nat.min_r _ _ Ha).
    destruct (Nat.le_gt_cases b (length l)) as [Hb|Hb].
    + now rewrite (Nat.min_r _ _ Hb).
    + rewrite Nat.min_l by lia.
      rewrite !firstn_all2; [reflexivity | |]; rewrite length_skipn; lia.
  - rewrite (Nat.min_l (length l) a) by lia.
    rewrite !skipn_all2 by lia. now rewrite !firstn_nil.
Qed.

Lemma index_of_from_position w l : forall i,
  Py.index_of_from w l i =
  match position w l with
  | Some k => Ok (i + Z.of_nat k)
  | None => Raise (ValueError "not in list")
  end.
Proof.
  induction l as [|x l IH]; intros i; cbn [Py.index_of_from position]; [reflexivity|].
  destruct (Py.str_eqb x w); [f_equal; lia|].
  rewrite IH. destruct (position w l); cbn; [f_equal; lia | reflexivity].
Qed.

Lemma first_index_from_position w l : forall i,
  first_index_from w l i = (fun k => i + Z.of_nat k) <$> position w l.
Proof.
  induction l as [|x l IH]; intros i; cbn [first_index_from position]; [reflexivity|].
  destruct (Py.str_eqb x w); [cbn; f_equal; lia|].
  rewrite IH. destruct (position w l); cbn; [f_equal; lia | reflexivity].
Qed.

Lemma str_eqb_sym a b : Py.str_eqb a b = Py.str_eqb b a.
Proof. unfold Py.str_eqb. apply String.eqb_sym. Qed.

Lemma mem_position w l : Py.mem w l = bool_decide (is_Some (position w l)).
Proof.
  unfold Py.mem. induction l as [|x l IH]; cbn [existsb position]; [reflexivity|].
  rewrite (str_eqb_sym w x). destruct (Py.str_eqb x w); cbn [orb].
  - symmetry. apply bool_decide_eq_true. eauto.
  - rewrite IH. destruct (position w l); reflexivity.
Qed.

Lemma position_lt w l k : position w l = Some k -> (k < length l)%nat.
Proof.
  revert k. induction l as [|x l IH]; intros k; cbn [position]; [discriminate|].
  destruct (Py.str_eqb x w).
  - intros [= <-]. cbn. lia.
  - destruct (position w l) as [j|]; [|discriminate].
    intros [= <-]. specialize (IH j eq_refl). cbn. lia.
Qed.

Lemma dict_only_parts (parts : list string) :
  (if negb (Py.mem "https" parts) || negb (Py.mem "playlist" parts) then Ok None
   else except_value_index (
     idx_https ← Py.index_of "https" parts;
     match first_index "com" parts with
     | None => Ok None
     | Some idx_com =>
         if (idx_https <=? idx_com) || (idx_https - idx_com <? 2) then Ok None
         else
           let base := Py.join "." (List.rev (Py.lslice parts idx_com idx_https)) in
           if 6 <=? Z.of_nat (length parts) then
             let path := Py.join "-" (List.rev (Py.lslice parts 1 6)) in
             Ok (Some ("https://" +:+ base +:+ "/" +:+ path +:+ "/playlist.m3u8"))
           else Ok None
     end))
  = Ok (dict_only_spec parts).
Proof.
  unfold dict_only_spec, Py.index_of, first_index.
  rewrite index_of_from_position, first_index_from_position.
  rewrite (mem_position "https").
  destruct (position "https" parts) as [ih|]; cbn [bool_decide negb orb];
    [|destruct (position "com" parts); reflexivity].
  rewrite bool_decide_eq_true_2 by eauto. cbn [negb orb].
  destruct (Py.mem "playlist" parts); cbn [negb andb];
    [|destruct (position "com" parts); reflexivity].
  change (res_bind _ _ ?f (Ok ?x)) with (f x). cbn [mbind res_bind].
  destruct (position "com" parts) as [ic|]; cbn [fmap option_fmap option_map];
    [|reflexivity].
  rewrite !Z.add_0_l.
  destruct (Nat.leb_spec (ic + 2) ih) as [Hc|Hc].
  - destruct (Z.leb_spec (Z.of_nat ih) (Z.of_nat ic)); [lia|].
    destruct (Z.ltb_spec (Z.of_nat ih - Z.of_nat ic) 2); [lia|]. cbn [orb andb].
    rewrite lslice_nat. change 1 with (Z.of_nat 1). change 6 with (Z.of_nat 6).
    rewrite lslice_nat. cbn [Nat.sub].
    destruct (Nat.leb_spec 6 (length parts));
      destruct (Z.leb_spec (Z.of_nat 6) (Z.of_nat (length parts))); try lia; reflexivity.
  - assert (((Z.of_nat ih <=? Z.of_nat ic) || (Z.of_nat ih - Z.of_nat ic <? 2)) = true) as ->.
    { apply orb_true_iff.
      destruct (Z.leb_spec (Z.of_nat ih) (Z.of_nat ic)); [now left|right].
      apply Z.ltb_lt. lia. }
    reflexivity.
Qed.

End DictOnly.

(** C3.  The dictionary-only strategy never raises.  When the page holds a
    literal 'm3u8|...'.split('|') whose tokens contain https and playlist,
    have com before https with at least one token in between, and number
    six or more, it returns https://ORIGIN/PATH/playlist.m3u8, ORIGIN being
    the tokens from com up to (not including) https reversed and joined by
    dots and PATH the tokens at positions 1 to 5 reversed and joined by
    dashes; in every other case it returns no result. *)
Theorem dict_only_reconstruction (webpage : string) :
  _extract_missav_m3u8_from_dict_only webpage =
  Ok (match dict_tokens webpage with
      | Some parts => dict_only_spec parts
      | None => None
      end).
Proof.
  unfold _extract_missav_m3u8_from_dict_only, dict_tokens, group_str.
  destruct (Re.search dict_only_re webpage) as [m|] eqn:Hs; [|reflexivity].
  destruct (search_binds 1 dict_only_re webpage m eq_refl Hs) as [g Hg]. rewrite Hg.
  change (res_bind _ _ ?f (Ok ?x)) with (f x). cbn beta.
  apply dict_only_parts.
Qed.

(** ** The legacy delimited strategy *)

Section Legacy.

Lemma bind_ok {A B} (a : A) (f : A -> res B) : (Ok a ≫= f) = f a.
Proof. reflexivity. Qed.

Lemma index_nat {A} (l : list A) (i : nat) (d : A) :
  (i < length l)%nat -> Py.index l (Z.of_nat i) = Ok (nth i l d).
Proof.
  intros H. unfold Py.index.
  destruct (Z.ltb_spec (Z.of_nat i) 0); [lia|].
  destruct (Z.ltb_spec (Z.of_nat i) 0); [lia|].
  destruct (Z.leb_spec (Z.of_nat (length l)) (Z.of_nat i)); [lia|].
  cbn [orb]. rewrite Nat2Z.id.
  destruct (nth_error l i) eqn:E.
  - now rewrite (nth_error_nth _ _ _ E).
  - apply nth_error_None in E. lia.
Qed.

Lemma position_nth w l k : position w l = Some k -> nth k l EmptyString = w.
Proof.
  revert k. induction l as [|x l IH]; intros k; cbn [position]; [discriminate|].
  destruct (Py.str_eqb x w) eqn:E.
  - intros [= <-]. now apply String.eqb_eq in E.
  - destruct (position w l) as [j|]; [|discriminate].
    intros [= <-]. cbn. now apply IH.
Qed.

Lemma legacy_url_video (url_words : list string) (vi : nat) :
  position "video" url_words = Some vi ->
  (1 <= vi)%nat -> (vi + 1 < length url_words)%nat ->
  legacy_url url_words = Ok (Some (legacy_url_built url_words vi)).
Proof.
  intros Hp H1 H2. unfold legacy_url, legacy_url_built, legacy_parts.
  rewrite mem_position, Hp. rewrite bool_decide_eq_true_2 by eauto.
  unfold Py.index_of. rewrite index_of_from_position, Hp. rewrite Z.add_0_l.
  rewrite bind_ok.
  replace (Z.of_nat vi - 1) with (Z.of_nat (vi - 1)) by lia.
  replace (Z.of_nat vi + 1) with (Z.of_nat (vi + 1)) by lia.
  rewrite (index_nat url_words (vi - 1) EmptyString) by lia. rewrite bind_ok.
  rewrite (index_nat url_words (vi + 1) EmptyString) by lia. rewrite bind_ok.
  rewrite (index_nat url_words vi EmptyString) by lia.
  rewrite !bind_ok.
  change 0 with (Z.of_nat 0). change 5 with (Z.of_nat 5). rewrite !lslice_nat.
  rewrite (position_nth _ _ _ Hp). cbn [Nat.sub skipn]. reflexivity.
Qed.

End Legacy.

(** C5, as the code has it.  When video occurs among the tokens between
    'm3u8|' and '|playlist|source', is not the first of them and has a
    token after it, the legacy strategy assembles
    SCHEME://HOST/PATH/FORMAT/video.m3u8: SCHEME the token before video,
    PATH the first five tokens reversed and joined by dashes, HOST the
    tokens from position 5 up to the one before SCHEME reversed and joined
    by dots, FORMAT the token after video. *)
Theorem legacy_url_assembled (url_words : list string) (vi : nat) :
  position "video" url_words = Some vi ->
  (1 <= vi)%nat -> (vi + 1 < length url_words)%nat ->
  legacy_url url_words = Ok (Some (legacy_url_built url_words vi)).
Proof. apply legacy_url_video. Qed.

Lemma legacy_url_assembled_witness :
  legacy_url legacy_fixture_words
  = Ok (Some "https://surrit.com/5-4-3-2-1/ts/video.m3u8").
Proof.
  exact (legacy_url_assembled legacy_fixture_words 8 eq_refl
           ltac:(cbn; lia) ltac:(cbn; lia)).
Defined.

(** On the tokens of the fixture the code does not build the URL of the
    shape SCHEME://HOST/PATH/FORMAT.m3u8. *)
Lemma legacy_url_not_as_claimed :
  position "video" legacy_fixture_words = Some 8%nat /\
  legacy_url_claimed legacy_fixture_words 8 = "https://surrit.com/5-4-3-2-1/ts.m3u8" /\
  legacy_url legacy_fixture_words = Ok (Some "https://surrit.com/5-4-3-2-1/ts/video.m3u8") /\
  legacy_url legacy_fixture_words
  <> Ok (Some (legacy_url_claimed legacy_fixture_words 8)).
Proof. repeat split; try reflexivity. vm_compute. discriminate. Qed.

(** ** The worked example *)

Section Example.

Lemma app_empty_r s : s +:+ EmptyString = s.
Proof. induction s as [|c s IH]; [reflexivity|]. rewrite app_cons. now rewrite IH. Qed.

Lemma app_assoc_s a b c : (a +:+ b) +:+ c = a +:+ (b +:+ c).
Proof. induction a as [|x a IH]; [reflexivity|]. rewrite !app_cons. now rewrite IH. Qed.

Lemma of_chars_app a b : Py.of_chars (a ++ b) = Py.of_chars a +:+ Py.of_chars b.
Proof.
  induction a as [|x a IH]; [reflexivity|].
  cbn [List.app Py.of_chars]. rewrite app_cons. now rewrite IH.
Qed.

Lemma of_chars_chars s : Py.of_chars (Py.chars s) = s.
Proof. induction s as [|c s IH]; [reflexivity|]. cbn. now rewrite IH. Qed.

(** The characters read so far only prefix the first piece. *)
Lemma split_go_cur sep s : forall skip cur,
  Py.split_go sep s skip cur =
  match Py.split_go sep s skip [] with
  | h :: t => (Py.of_chars (List.rev cur) +:+ h) :: t
  | [] => []
  end.
Proof.
  induction s as [|c s IH]; intros skip cur; cbn [Py.split_go].
  - cbn [List.rev Py.of_chars]. now rewrite app_empty_r.
  - destruct skip as [|k]; [|apply IH].
    destruct (Py.startswith sep (String c s)).
    + cbn [List.rev Py.of_chars]. now rewrite app_empty_r.
    + rewrite (IH O (c :: cur)), (IH O [c]).
      destruct (Py.split_go sep s 0 []) as [|h t]; [reflexivity|].
      cbn [List.rev List.app]. rewrite of_chars_app, app_assoc_s. reflexivity.
Qed.

Lemma split_go_nonempty sep s : forall skip cur, Py.split_go sep s skip cur <> [].
Proof.
  induction s as [|c s IH]; intros skip cur; cbn [Py.split_go]; [discriminate|].
  destruct skip; [|apply IH].
  destruct (Py.startswith sep (String c s)); [discriminate | apply IH].
Qed.

(** Up to the first occurrence of the separator nothing is cut. *)
Lemma split_go_before sep pre s : forall i cur,
  Py.find_from sep (pre +:+ s) i = i + Z.of_nat (Py.len pre) ->
  Py.split_go sep (pre +:+ s) 0 cur
  = Py.split_go sep s 0 (List.rev (Py.chars pre) ++ cur).
Proof.
  induction pre as [|c pre IH]; intros i cur H; [reflexivity|].
  rewrite app_cons in *. cbn [Py.find_from Py.split_go] in *.
  unfold Py.len in H. cbn [String.length] in H.
  destruct (Py.startswith sep (String c (pre +:+ s))); [lia|].
  rewrite (IH (i + 1) (c :: cur)).
  - cbn [Py.chars List.rev]. now rewrite <- app_assoc.
  - rewrite H. unfold Py.len. lia.
Qed.

Lemma index_second {A} (a b : A) (t : list A) : Py.index (a :: b :: t) 1 = Ok b.
Proof. apply (index_nat (a :: b :: t) 1 b). cbn. lia. Qed.

Lemma index_first {A} (a : A) (t : list A) : Py.index (a :: t) 0 = Ok a.
Proof. apply (index_nat (a :: t) 0 a). cbn. lia. Qed.

Lemma char_eqb_sym a b : Char.eqb a b = Char.eqb b a.
Proof. unfold Char.eqb. apply N.eqb_sym. Qed.

Lemma startswith_app_false sep : forall a s,
  Py.startswith sep a = false -> Py.startswith a sep = false ->
  Py.startswith sep (a +:+ s) = false.
Proof.
  induction sep as [|x sep IH]; intros [|y a] s H1 H2; try discriminate.
  rewrite app_cons. cbn [Py.startswith] in *.
  rewrite (char_eqb_sym y x) in H2.
  destruct (Char.eqb x y); [|reflexivity]. cbn [andb] in *. now apply IH.
Qed.

Lemma startswith_self_app sep s : Py.startswith sep (sep +:+ s) = true.
Proof.
  induction sep as [|x sep IH]; [reflexivity|].
  rewrite app_cons. cbn [Py.startswith]. now rewrite Char.eqb_refl, IH.
Qed.

Lemma split_go_clear sep pre s : forall cur,
  clear_of sep pre = true ->
  Py.split_go sep (pre +:+ s) 0 cur
  = Py.split_go sep s 0 (List.rev (Py.chars pre) ++ cur).
Proof.
  induction pre as [|c pre IH]; intros cur H; [reflexivity|].
  cbn [clear_of] in H. apply andb_true_iff in H as [H Hc].
  apply andb_true_iff in H as [H1 H2].
  apply negb_true_iff in H1, H2.
  pose proof (startswith_app_false sep (String c pre) s H1 H2) as Hs.
  rewrite app_cons in *. cbn [Py.split_go]. rewrite Hs.
  rewrite (IH (c :: cur) Hc). cbn [Py.chars List.rev]. now rewrite <- app_assoc.
Qed.

Lemma split_go_skip sep a s : forall cur,
  Py.split_go sep (a +:+ s) (Py.len a) cur = Py.split_go sep s 0 cur.
Proof.
  induction a as [|c a IH]; intros cur.
  - change (EmptyString +:+ s) with s. unfold Py.len. cbn [String.length].
    destruct s; reflexivity.
  - rewrite app_cons. unfold Py.len. cbn [String.length Py.split_go]. apply IH.
Qed.

Lemma split_go_sep c sep' s cur :
  Py.split_go (String c sep') (String c sep' +:+ s) 0 cur
  = Py.of_chars (List.rev cur) :: Py.split_go (String c sep') s 0 [].
Proof.
  pose proof (startswith_self_app (String c sep') s) as Hs.
  rewrite app_cons in *. cbn [Py.split_go]. rewrite Hs.
  unfold Py.len at 1. cbn [String.length Nat.sub]. rewrite Nat.sub_0_r.
  f_equal. apply split_go_skip.
Qed.

Lemma of_chars_rev_rev s : Py.of_chars (List.rev (List.rev (Py.chars s) ++ [])) = s.
Proof. now rewrite app_nil_r, rev_involutive, of_chars_chars. Qed.

Lemma legacy_words_fixture pre post :
  Py.find "m3u8|" (pre +:+ legacy_fixture +:+ post) = Z.of_nat (Py.len pre) ->
  legacy_words (pre +:+ legacy_fixture +:+ post) = Ok legacy_fixture_words.
Proof.
  intros H. unfold legacy_words, Py.split.
  rewrite (split_go_before "m3u8|" pre _ 0 []) by exact H.
  change legacy_fixture with ("m3u8|" +:+ fixture_body). rewrite app_assoc_s.
  rewrite split_go_sep.
  rewrite (split_go_clear "m3u8|" fixture_body post []) by (vm_compute; reflexivity).
  rewrite split_go_cur.
  destruct (Py.split_go "m3u8|" post 0 []) as [|h t] eqn:E;
    [now apply split_go_nonempty in E|].
  rewrite index_second, bind_ok, of_chars_rev_rev.
  change fixture_body with (fixture_chunk +:+ "|playlist|source").
  rewrite app_assoc_s.
  rewrite (split_go_clear "|playlist|source" fixture_chunk _ [])
    by (vm_compute; reflexivity).
  rewrite split_go_sep, index_first, bind_ok, of_chars_rev_rev.
  vm_compute. reflexivity.
Qed.

Lemma fixture_manifest pre post :
  Py.find "m3u8|" (pre +:+ legacy_fixture +:+ post) = Z.of_nat (Py.len pre) ->
  _extract_missav_m3u8_from_packed (pre +:+ legacy_fixture +:+ post) = Ok None ->
  _extract_missav_m3u8_from_dict_only (pre +:+ legacy_fixture +:+ post) = Ok None ->
  m3u8_url_of_page (pre +:+ legacy_fixture +:+ post)
  = Ok (Some "https://surrit.com/5-4-3-2-1/ts/video.m3u8").
Proof.
  intros Hf Hp Hd. unfold m3u8_url_of_page. rewrite Hp, bind_ok. cbn [Py.truthy].
  rewrite Hd, bind_ok. unfold or_else at 2. cbn [Py.truthy].
  unfold legacy_strategy. rewrite (legacy_words_fixture _ _ Hf), bind_ok.
  reflexivity.
Qed.

End Example.

(** ** The fallback chain *)

Section Chain.

Lemma nonempty_app a b : Py.nonempty (a +:+ b) = Py.nonempty a || Py.nonempty b.
Proof. destruct a; [reflexivity|]. now rewrite app_cons. Qed.

Lemma unpack_ok packed dict_str :
  _unpack_missav_packed_js packed dict_str
  = Ok (unpack_spec (Py.split "|" dict_str) None packed).
Proof. unfold _unpack_missav_packed_js, Re.sub. apply sub_go_unpack. Qed.

Lemma packed_result_nonempty webpage u :
  _extract_missav_m3u8_from_packed webpage = Ok (Some u) -> Py.nonempty u = true.
Proof.
  unfold _extract_missav_m3u8_from_packed.
  match goal with
  | |- (?F ≫= _) = _ -> _ => destruct F as [[[packed dict_str]|]|e]
  end; rewrite ?bind_ok; try discriminate.
  rewrite unpack_ok, bind_ok.
  destruct (Re.search m3u8_url_re _) as [m|] eqn:Hs; [|discriminate].
  intros [= <-]. exact (search_nonempty m3u8_url_re _ m eq_refl Hs).
Qed.

Lemma dict_only_eq webpage :
  _extract_missav_m3u8_from_dict_only webpage =
  Ok (match dict_tokens webpage with
      | Some parts => dict_only_spec parts
      | None => None
      end).
Proof.
  unfold _extract_missav_m3u8_from_dict_only, dict_tokens, group_str.
  destruct (Re.search dict_only_re webpage) as [m|] eqn:Hs; [|reflexivity].
  destruct (search_binds 1 dict_only_re webpage m eq_refl Hs) as [g Hg]. rewrite Hg.
  rewrite bind_ok. apply dict_only_parts.
Qed.

Lemma dict_result_nonempty webpage u :
  _extract_missav_m3u8_from_dict_only webpage = Ok (Some u) -> Py.nonempty u = true.
Proof.
  rewrite dict_only_eq. destruct (dict_tokens webpage) as [parts|]; [|discriminate].
  unfold dict_only_spec.
  destruct (position "com" parts), (position "https" parts); try discriminate.
  destruct (_ && _ && _); [|discriminate].
  intros [= <-]. reflexivity.
Qed.

Lemma legacy_url_nonempty url_words u :
  legacy_url url_words = Ok (Some u) -> Py.nonempty u = true.
Proof.
  unfold legacy_url. destruct (Py.mem "video" url_words); [|discriminate].
  destruct (Py.index_of "video" url_words) as [vi|]; [|discriminate]. rewrite bind_ok.
  destruct (Py.index url_words (vi - 1)) as [protocol|]; [|discriminate]. rewrite bind_ok.
  destruct (Py.index url_words (vi + 1)) as [fmt|]; [|discriminate]. rewrite bind_ok.
  destruct (Py.index url_words vi) as [name|]; [|discriminate]. rewrite bind_ok.
  intros [= <-]. rewrite nonempty_app. apply orb_true_iff. right. reflexivity.
Qed.

Lemma legacy_result_nonempty webpage u :
  legacy_strategy webpage = Ok (Some u) -> Py.nonempty u = true.
Proof.
  unfold legacy_strategy.
  destruct (legacy_words webpage) as [url_words|e].
  - rewrite bind_ok. destruct (legacy_url url_words) as [[v|]|e'] eqn:E.
    + intros [= <-]. eapply legacy_url_nonempty; eauto.
    + discriminate.
    + cbn. destruct e'; discriminate.
  - cbn. destruct e; discriminate.
Qed.

Lemma chain_from webpage u :
  Py.nonempty u = true ->
  (m3u8_url ← or_else (Some u) (legacy_strategy webpage);
   or_else m3u8_url (Ok (generic_strategy webpage))) = Ok (Some u).
Proof. intros H. unfold or_else. cbn [Py.truthy]. rewrite H, bind_ok. cbn [Py.truthy]. now rewrite H. Qed.

Lemma chain_packed webpage u :
  _extract_missav_m3u8_from_packed webpage = Ok (Some u) ->
  m3u8_url_of_page webpage = Ok (Some u).
Proof.
  intros H. pose proof (packed_result_nonempty _ _ H) as Hn.
  unfold m3u8_url_of_page. rewrite H, bind_ok. cbn [Py.truthy]. rewrite Hn, bind_ok.
  now apply chain_from.
Qed.

Lemma chain_dict webpage u :
  _extract_missav_m3u8_from_packed webpage = Ok None ->
  _extract_missav_m3u8_from_dict_only webpage = Ok (Some u) ->
  m3u8_url_of_page webpage = Ok (Some u).
Proof.
  intros Hp H. pose proof (dict_result_nonempty _ _ H) as Hn.
  unfold m3u8_url_of_page. rewrite Hp, bind_ok. cbn [Py.truthy]. rewrite H, bind_ok.
  now apply chain_from.
Qed.

Lemma chain_legacy webpage u :
  _extract_missav_m3u8_from_packed webpage = Ok None ->
  _extract_missav_m3u8_from_dict_only webpage = Ok None ->
  legacy_strategy webpage = Ok (Some u) ->
  m3u8_url_of_page webpage = Ok (Some u).
Proof.
  intros Hp Hd H. pose proof (legacy_result_nonempty _ _ H) as Hn.
  unfold m3u8_url_of_page. rewrite Hp, bind_ok. cbn [Py.truthy]. rewrite Hd, bind_ok.
  unfold or_else. cbn [Py.truthy]. rewrite H, !bind_ok. cbn [Py.truthy]. now rewrite Hn.
Qed.

Lemma chain_generic webpage :
  _extract_missav_m3u8_from_packed webpage = Ok None ->
  _extract_missav_m3u8_from_dict_only webpage = Ok None ->
  legacy_strategy webpage = Ok None ->
  m3u8_url_of_page webpage = Ok (generic_strategy webpage).
Proof.
  intros Hp Hd H.
  unfold m3u8_url_of_page. rewrite Hp, bind_ok. cbn [Py.truthy]. rewrite Hd, bind_ok.
  unfold or_else. cbn [Py.truthy]. rewrite H, bind_ok.
  destruct (generic_strategy webpage); reflexivity.
Qed.

End Chain.

(** C4.  The extractor tries the packed-eval strategy, then the
    dictionary-only one, then the legacy delimited one, then the generic
    scan, and its URL is that of the first strategy that yields one; when
    the packed-eval and the dictionary-only strategies would both succeed,
    the URL is the packed-eval one. *)
Theorem strategy_priority (webpage : string) :
  (forall u, _extract_missav_m3u8_from_packed webpage = Ok (Some u) ->
     m3u8_url_of_page webpage = Ok (Some u)) /\
  (forall u u', _extract_missav_m3u8_from_packed webpage = Ok (Some u) ->
     _extract_missav_m3u8_from_dict_only webpage = Ok (Some u') ->
     m3u8_url_of_page webpage = Ok (Some u)) /\
  (forall u, _extract_missav_m3u8_from_packed webpage = Ok None ->
     _extract_missav_m3u8_from_dict_only webpage = Ok (Some u) ->
     m3u8_url_of_page webpage = Ok (Some u)) /\
  (forall u, _extract_missav_m3u8_from_packed webpage = Ok None ->
     _extract_missav_m3u8_from_dict_only webpage = Ok None ->
     legacy_strategy webpage = Ok (Some u) ->
     m3u8_url_of_page webpage = Ok (Some u)) /\
  (_extract_missav_m3u8_from_packed webpage = Ok None ->
   _extract_missav_m3u8_from_dict_only webpage = Ok None ->
   legacy_strategy webpage = Ok None ->
   m3u8_url_of_page webpage = Ok (generic_strategy webpage)).
Proof.
  repeat split.
  - apply chain_packed.
  - intros u u' H _. now apply chain_packed.
  - apply chain_dict.
  - apply chain_legacy.
  - apply chain_generic.
Qed.

Lemma strategy_priority_witness :
  _extract_missav_m3u8_from_packed both_markers_page
    = Ok (Some "https://surrit.com/x/playlist.m3u8") /\
  _extract_missav_m3u8_from_dict_only both_markers_page
    = Ok (Some "https://surrit.com/5-4-3-2-1/playlist.m3u8") /\
  m3u8_url_of_page both_markers_page = Ok (Some "https://surrit.com/x/playlist.m3u8").
Proof.
  assert (Hp : _extract_missav_m3u8_from_packed both_markers_page
               = Ok (Some "https://surrit.com/x/playlist.m3u8"))
    by (vm_compute; reflexivity).
  assert (Hd : _extract_missav_m3u8_from_dict_only both_markers_page
               = Ok (Some "https://surrit.com/5-4-3-2-1/playlist.m3u8"))
    by (vm_compute; reflexivity).
  split; [exact Hp|]. split; [exact Hd|].
  exact (proj1 (proj2 (strategy_priority both_markers_page)) _ _ Hp Hd).
Defined.

Section Title.

Lemma og_field_ok name webpage :
  Re.binds 1 (og_re name) = true -> exists v, og_field name webpage = Ok v.
Proof.
  intros Hb. unfold og_field, group_str.
  destruct (Re.search (og_re name) webpage) as [m|] eqn:Hs; [|eauto].
  destruct (search_binds 1 _ _ m Hb Hs) as [g Hg]. rewrite Hg, bind_ok. eauto.
Qed.

Lemma og_meta_ok webpage : exists t d, _extract_og_meta webpage = Ok (t, d).
Proof.
  unfold _extract_og_meta.
  destruct (og_field_ok "og:title" webpage eq_refl) as [t ->].
  destruct (og_field_ok "og:description" webpage eq_refl) as [d ->].
  rewrite !bind_ok. eauto.
Qed.

Lemma example_title : _missav_filename_from_url example_url = Ok "naac-032".
Proof. vm_compute. reflexivity. Qed.

End Title.

(** C1, as the code has it.  The address https://missav.ai/dm1/naac-032
    gives the title naac-032.  For a page that contains the legacy fixture
    at the first occurrence of 'm3u8|', and on which the packed-eval and
    the dictionary-only strategies find nothing, the extractor returns the
    manifest https://surrit.com/5-4-3-2-1/ts/video.m3u8. *)
Theorem example_title_and_manifest :
  _missav_filename_from_url example_url = Ok "naac-032" /\
  forall pre post : string,
    Py.find "m3u8|" (pre +:+ legacy_fixture +:+ post) = Z.of_nat (Py.len pre) ->
    _extract_missav_m3u8_from_packed (pre +:+ legacy_fixture +:+ post) = Ok None ->
    _extract_missav_m3u8_from_dict_only (pre +:+ legacy_fixture +:+ post) = Ok None ->
    exists ogt ogd,
      _extract_missav_m3u8_and_title (pre +:+ legacy_fixture +:+ post) example_url
      = Ok (Some ("https://surrit.com/5-4-3-2-1/ts/video.m3u8", "naac-032", ogt, ogd)).
Proof.
  split; [exact example_title|].
  intros pre post Hf Hp Hd. unfold _extract_missav_m3u8_and_title.
  rewrite (fixture_manifest pre post Hf Hp Hd), bind_ok. cbn [Py.nonempty].
  rewrite example_title, bind_ok.
  destruct (og_meta_ok (pre +:+ legacy_fixture +:+ post)) as (t & d & ->).
  rewrite bind_ok. eauto.
Qed.

Lemma example_title_and_manifest_witness :
  exists ogt ogd,
    _extract_missav_m3u8_and_title ("<script>" +:+ legacy_fixture +:+ "</script>") example_url
    = Ok (Some ("https://surrit.com/5-4-3-2-1/ts/video.m3u8", "naac-032", ogt, ogd)).
Proof.
  apply (proj2 example_title_and_manifest "<script>" "</script>");
    vm_compute; reflexivity.
Defined.

(** On the page that consists of the fixture alone the manifest is not
    https://surrit.com/5-4-3-2-1/video.m3u8. *)
Lemma example_manifest_not_as_claimed :
  Py.contains legacy_fixture legacy_fixture = true /\
  _extract_missav_m3u8_and_title legacy_fixture example_url
  = Ok (Some ("https://surrit.com/5-4-3-2-1/ts/video.m3u8", "naac-032", None, None)) /\
  m3u8_url_of_page legacy_fixture <> Ok (Some "https://surrit.com/5-4-3-2-1/video.m3u8").
Proof. repeat split; try (vm_compute; reflexivity). vm_compute. discriminate. Qed.

(** ** File classification *)

Section Classify.

Lemma string_compare_refl s : String.compare s s = Eq.
Proof.
  induction s as [|c s IH]; [reflexivity|]. cbn.
  unfold Ascii.compare. now rewrite N.compare_refl.
Qed.

Lemma string_lt_trans a b c :
  String.compare a b = Lt -> String.compare b c = Lt -> String.compare a c = Lt.
Proof.
  intros H1 H2.
  apply (proj2 (String_as_OT.cmp_lt a c)).
  apply String_as_OT.lt_trans with b; now apply String_as_OT.cmp_lt.
Qed.

Lemma path_compare_refl p : path_compare p p = Eq.
Proof. induction p as [|a p IH]; [reflexivity|]. cbn. now rewrite string_compare_refl. Qed.

Lemma path_compare_eq p : forall q, path_compare p q = Eq -> p = q.
Proof.
  induction p as [|a p IH]; intros [|b q]; cbn; try discriminate; [reflexivity|].
  destruct (String.compare a b) eqn:E; try discriminate.
  apply String.compare_eq_iff in E. intros H. f_equal; auto.
Qed.

Lemma path_compare_antisym p : forall q, path_compare q p = CompOpp (path_compare p q).
Proof.
  induction p as [|a p IH]; intros [|b q]; cbn; try reflexivity.
  rewrite (String.compare_antisym a b).
  destruct (String.compare b a); cbn; auto.
Qed.

Lemma path_lt_trans p : forall q r,
  path_compare p q = Lt -> path_compare q r = Lt -> path_compare p r = Lt.
Proof.
  induction p as [|a p IH]; intros [|b q] [|c r]; cbn; try discriminate; try reflexivity.
  destruct (String.compare a b) eqn:Eab; try discriminate;
    destruct (String.compare b c) eqn:Ebc; try discriminate; intros H1 H2.
  - apply String.compare_eq_iff in Eab, Ebc. subst.
    rewrite string_compare_refl. eauto.
  - apply String.compare_eq_iff in Eab. subst. now rewrite Ebc.
  - apply String.compare_eq_iff in Ebc. subst. now rewrite Eab.
  - now rewrite (string_lt_trans _ _ _ Eab Ebc).
Qed.

Lemma path_le_iff p q : path_le p q <-> path_compare p q <> Gt.
Proof.
  unfold path_le, path_ltb. rewrite (path_compare_antisym p q).
  destruct (path_compare p q); cbn; split; intros; congruence.
Qed.

#[local] Instance path_le_total : Total path_le.
Proof.
  intros p q. rewrite !path_le_iff, (path_compare_antisym p q).
  destruct (path_compare p q); cbn; [left|left|right]; congruence.
Qed.

#[local] Instance path_le_antisym : AntiSymm (=) path_le.
Proof.
  intros p q. rewrite !path_le_iff, (path_compare_antisym p q).
  destruct (path_compare p q) eqn:E; cbn; intros H1 H2; try congruence.
  now apply path_compare_eq.
Qed.

#[local] Instance path_le_trans : Transitive path_le.
Proof.
  intros p q r. rewrite !path_le_iff. intros H1 H2.
  destruct (path_compare p q) eqn:E1; [| |congruence].
  - apply path_compare_eq in E1. now subst.
  - destruct (path_compare q r) eqn:E2; [| |congruence].
    + apply path_compare_eq in E2. subst. congruence.
    + rewrite (path_lt_trans _ _ _ E1 E2). congruence.
Qed.

Lemma insert_sorted_perm f l : Permutation (insert_sorted f l) (f :: l).
Proof.
  induction l as [|g l IH]; cbn; [reflexivity|].
  destruct (path_ltb g f); [|reflexivity].
  rewrite IH. apply perm_swap.
Qed.

Lemma sorted_perm l : Permutation (sorted l) l.
Proof.
  induction l as [|f l IH]; cbn; [reflexivity|].
  rewrite insert_sorted_perm. now constructor.
Qed.

Lemma insert_sorted_sorted f l :
  StronglySorted path_le l -> StronglySorted path_le (insert_sorted f l).
Proof.
  induction 1 as [|g l Hs IH Hall]; cbn.
  - repeat constructor.
  - destruct (path_ltb g f) eqn:E.
    + constructor; [exact IH|].
      apply List.Forall_forall. intros x Hx.
      apply (Permutation_in _ (insert_sorted_perm f l)) in Hx as [<-|Hx].
      * destruct (total path_le g f) as [H|H]; [exact H|].
        unfold path_le in H. congruence.
      * rewrite List.Forall_forall in Hall. now apply Hall.
    + constructor; [now constructor|].
      constructor; [exact E|].
      apply List.Forall_forall. intros x Hx.
      rewrite List.Forall_forall in Hall.
      transitivity g; [exact E | now apply Hall].
Qed.

Lemma sorted_sorted l : StronglySorted path_le (sorted l).
Proof.
  induction l as [|f l IH]; cbn; [constructor | now apply insert_sorted_sorted].
Qed.

(** Sorting forgets the order of the input. *)
Lemma sorted_permutation l l' : Permutation l l' -> sorted l = sorted l'.
Proof.
  intros H. apply (StronglySorted_unique path_le); try apply sorted_sorted.
  apply Permutation_trans with l; [apply sorted_perm|].
  apply Permutation_trans with l'; [exact H | symmetry; apply sorted_perm].
Qed.

Lemma video_not_sub f : is_video f = true -> is_sub f = false.
Proof.
  unfold is_video, is_sub, VIDEO_EXTS, Py.mem. cbn [existsb].
  generalize (Py.lower (path_suffix f)). intros e H.
  repeat (apply orb_true_iff in H as [H|H];
          [apply String.eqb_eq in H; subst e; reflexivity|]).
  discriminate.
Qed.

Lemma fold_classify is_file l : forall v s,
  fold_left (classify_step is_file) l (v, s) =
  (match v with
   | Some _ => v
   | None => head (List.filter (media_file is_file) l)
   end,
   s ++ List.filter (subtitle_file is_file) l).
Proof.
  induction l as [|f l IH]; intros v s; cbn [fold_left].
  - cbn. rewrite app_nil_r. now destruct v.
  - unfold classify_step at 2. unfold media_file, subtitle_file.
    cbn [List.filter]. fold (media_file is_file) (subtitle_file is_file).
    destruct (is_file f) eqn:Ef; cbn [negb andb].
    + destruct (is_video f) eqn:Ev; cbn [andb].
      * rewrite (video_not_sub f Ev).
        destruct v as [v0|]; cbn; rewrite IH; reflexivity.
      * destruct (is_sub f) eqn:Es; rewrite IH; [|reflexivity].
        now rewrite <- app_assoc.
    + rewrite IH. reflexivity.
Qed.

Lemma split_video_and_subs_eq is_file files :
  _split_video_and_subs is_file files =
  (head (List.filter (media_file is_file) (sorted files)),
   List.filter (subtitle_file is_file) (sorted files)).
Proof. unfold _split_video_and_subs. now rewrite fold_classify. Qed.

Lemma sorted_filter (P : path -> bool) l :
  StronglySorted path_le l -> StronglySorted path_le (List.filter P l).
Proof.
  induction 1 as [|g l Hs IH Hall]; cbn; [constructor|].
  destruct (P g); [|exact IH].
  constructor; [exact IH|].
  apply List.Forall_forall. intros x Hx. apply filter_In in Hx as [Hx _].
  rewrite List.Forall_forall in Hall. now apply Hall.
Qed.

Lemma filter_perm (P : path -> bool) l l' :
  Permutation l l' -> Permutation (List.filter P l) (List.filter P l').
Proof.
  induction 1 as [|x l l' H IH|x y l|l l' l'' H1 IH1 H2 IH2]; cbn [List.filter].
  - constructor.
  - destruct (P x); [now constructor | exact IH].
  - destruct (P x), (P y); try reflexivity. apply perm_swap.
  - now apply Permutation_trans with (List.filter P l').
Qed.

Lemma head_sorted_least (P : path -> bool) files v :
  head (List.filter P (sorted files)) = Some v ->
  In v files /\ P v = true /\ forall g, In g files -> P g = true -> path_le v g.
Proof.
  intros H.
  pose proof (sorted_filter P _ (sorted_sorted files)) as Hs.
  assert (Hin : forall g, In g (List.filter P (sorted files)) <-> In g files /\ P g = true).
  { intros g. rewrite filter_In. split; intros [H1 H2]; split; auto.
    - now apply (Permutation_in _ (sorted_perm files)).
    - now apply (Permutation_in _ (Permutation_sym (sorted_perm files))). }
  destruct (List.filter P (sorted files)) as [|x l]; [discriminate|].
  injection H as ->.
  destruct (proj1 (Hin v) (or_introl eq_refl)) as [Hv Hp].
  split; [exact Hv|]. split; [exact Hp|].
  intros g Hg Hpg. destruct (proj2 (Hin g) (conj Hg Hpg)) as [<-|Hg'].
  - destruct (total path_le v v); assumption.
  - apply StronglySorted_inv in Hs as [_ Hall].
    rewrite List.Forall_forall in Hall. now apply Hall.
Qed.

Lemma head_none_no_match (P : path -> bool) files :
  head (List.filter P (sorted files)) = None ->
  forall g, In g files -> P g = false.
Proof.
  intros H g Hg. destruct (P g) eqn:E; [|reflexivity].
  assert (In g (List.filter P (sorted files))) as Hin.
  { apply filter_In. split; [|exact E].
    now apply (Permutation_in _ (Permutation_sym (sorted_perm files))). }
  destruct (List.filter P (sorted files)); [destruct Hin | discriminate].
Qed.

End Classify.

(** C9.  Classifying any permutation of a list of paths gives the same
    result.  The primary media file is the least, in the order of paths,
    of the regular files whose extension is a media extension (none if
    there is no such file); the subtitle list is made of exactly the regular
    files whose extension is a subtitle extension, in sorted order; every
    other file is left out. *)
Theorem classify_permutation_invariant (is_file : path -> bool)
        (files files' : list path) :
  Permutation files files' ->
  _split_video_and_subs is_file files' = _split_video_and_subs is_file files /\
  match fst (_split_video_and_subs is_file files) with
  | Some v =>
      In v files /\ media_file is_file v = true /\
      forall g, In g files -> media_file is_file g = true -> path_le v g
  | None => forall g, In g files -> media_file is_file g = false
  end /\
  snd (_split_video_and_subs is_file files)
    = List.filter (subtitle_file is_file) (sorted files) /\
  StronglySorted path_le (snd (_split_video_and_subs is_file files)) /\
  Permutation (snd (_split_video_and_subs is_file files))
              (List.filter (subtitle_file is_file) files).
Proof.
  intros Hperm. rewrite !split_video_and_subs_eq. cbn [fst snd].
  split; [now rewrite (sorted_permutation _ _ Hperm)|].
  split.
  - destruct (head (List.filter (media_file is_file) (sorted files))) as [v|] eqn:E.
    + now apply head_sorted_least.
    + now apply head_none_no_match.
  - split; [reflexivity|]. split.
    + apply sorted_filter, sorted_sorted.
    + apply filter_perm, sorted_perm.
Qed.

Lemma classify_permutation_invariant_witness :
  _split_video_and_subs (fun _ => true) (List.rev sample_files)
  = _split_video_and_subs (fun _ => true) sample_files.
Proof.
  exact (proj1 (classify_permutation_invariant (fun _ => true) sample_files
                  (List.rev sample_files) (Permutation_rev sample_files))).
Defined.

(** ** Progress reporting *)

Section Progress.

Lemma db_update_log job_id f a :
  db (update_log job_id f a) !! job_id = f <$> db a !! job_id.
Proof. unfold update_log. cbn [db]. apply lookup_alter_eq. Qed.

Lemma job_hook_cases job_id d a :
  job_hook job_id d a =
  match hook_report d with
  | Ok (Some (pct, msg)) => (Ok tt, progress_cb job_id pct msg a)
  | Ok None => (Ok tt, a)
  | Raise e => (Raise e, a)
  end.
Proof. reflexivity. Qed.

Lemma job_hook_capped job_id d a :
  (forall log, db a !! job_id = Some log -> progress log <= 100) ->
  forall log', db (snd (job_hook job_id d a)) !! job_id = Some log' ->
               progress log' <= 100.
Proof.
  intros Ha log'. rewrite job_hook_cases.
  destruct (hook_report d) as [[[pct msg]|]|e]; cbn [snd]; try apply Ha.
  unfold progress_cb. rewrite db_update_log.
  destruct (db a !! job_id) as [log|]; cbn; [|discriminate].
  intros [= <-]. cbn. lia.
Qed.

Lemma feed_capped job_id events : forall a,
  (forall log, db a !! job_id = Some log -> progress log <= 100) ->
  forall log', db (snd (feed (job_hook job_id) events a)) !! job_id = Some log' ->
               progress log' <= 100.
Proof.
  induction events as [|d events IH]; intros a Ha log'; cbn [feed].
  - apply Ha.
  - pose proof (job_hook_capped job_id d a Ha) as Hd.
    destruct (job_hook job_id d a) as [[[]|e] a']; cbn [snd] in *.
    + now apply IH.
    + apply Hd.
Qed.

Lemma hook_report_no_information d :
  d_status d = Some "downloading" ->
  truthy_num (d_total_bytes d) = false ->
  Re.search percent_re (str_or (d_percent_str d) EmptyString) = None ->
  usable_fragments d = false ->
  hook_report d = Ok (Some (0, str_or (d_percent_str d) MSG_DOWNLOADING)).
Proof.
  intros Hs Ht Hp Hf. unfold hook_report. rewrite Hs.
  change (Py.str_eqb "downloading" "downloading") with true. cbv iota.
  rewrite Ht, Hp. unfold usable_fragments in Hf.
  destruct (d_fragment_index d) as [fi|]; [|reflexivity].
  destruct (d_fragment_count d) as [fc|]; [|reflexivity].
  cbn [truthy_num]. destruct (negb (fc =? 0)); [|reflexivity].
  change (default 0 (Some fc)) with fc. now rewrite Hf.
Qed.

End Progress.

(** C6, as the code has it.  Along the events of one job the stored percent
    never exceeds 100.  It is not monotone: on a 'downloading' event with
    no known total size, no parsable percent string and no usable fragment
    pair, the hook reports 0 to the callback, and the job's percent becomes
    0 whatever it was. *)
Theorem progress_capped_and_reset :
  (forall job_id events a,
     (forall log, db a !! job_id = Some log -> progress log <= 100) ->
     forall log', db (snd (feed (job_hook job_id) events a)) !! job_id = Some log' ->
                  progress log' <= 100) /\
  (forall d,
     d_status d = Some "downloading" ->
     truthy_num (d_total_bytes d) = false ->
     Re.search percent_re (str_or (d_percent_str d) EmptyString) = None ->
     usable_fragments d = false ->
     hook_report d = Ok (Some (0, str_or (d_percent_str d) MSG_DOWNLOADING)) /\
     forall job_id a log,
       db a !! job_id = Some log ->
       job_progress job_id (snd (job_hook job_id d a)) = Some 0).
Proof.
  split; [exact feed_capped|].
  intros d Hs Ht Hp Hf.
  pose proof (hook_report_no_information d Hs Ht Hp Hf) as Hr.
  split; [exact Hr|].
  intros job_id a log Hl. rewrite job_hook_cases, Hr. cbn [snd].
  unfold job_progress, progress_cb. rewrite db_update_log, Hl. reflexivity.
Qed.

Lemma progress_capped_and_reset_witness :
  job_progress 1 (snd (job_hook 1 bare_downloading
                         (one_job (set_progress 50 "50%" running_log)))) = Some 0.
Proof.
  exact (proj2 (proj2 progress_capped_and_reset bare_downloading
                  eq_refl eq_refl eq_refl eq_refl)
               1 (one_job (set_progress 50 "50%" running_log))
               (set_progress 50 "50%" running_log) eq_refl).
Defined.

(** After a fragment event has brought the job to 50, a downloading event
    without information brings it back to 0. *)
Lemma progress_regresses_to_zero :
  job_progress 1 (snd (feed (job_hook 1) [fragment_event 1 2] (one_job running_log)))
    = Some 50 /\
  job_progress 1 (snd (feed (job_hook 1) [fragment_event 1 2; bare_downloading]
                         (one_job running_log)))
    = Some 0.
Proof. split; vm_compute; reflexivity. Qed.

(** ** Cancellation *)

Section Cancel.

Context {W : Type}.

Lemma feed_app (hook : event -> @io W unit) evs1 : forall evs2 w w1,
  feed hook evs1 w = (Ok tt, w1) ->
  feed hook (evs1 ++ evs2) w = feed hook evs2 w1.
Proof.
  induction evs1 as [|d evs1 IH]; intros evs2 w w1 H; cbn [feed List.app] in *.
  - now injection H as <-.
  - destruct (hook d w) as [[[]|e] w']; [now apply IH | discriminate].
Qed.

Lemma hook_cancelled (cb : callback_t) (check : check_t) d (w : W) :
  fst (check w) = true ->
  progress_hook (Some cb) (Some check) d w = (Raise DownloadCancelled, snd (check w)).
Proof.
  intros H. unfold progress_hook. destruct (check w) as [c w']. cbn in *. now subst.
Qed.

Lemma feed_cancelled (cb : callback_t) (check : check_t) evs1 d evs2 (w w1 : W) :
  feed (progress_hook (Some cb) (Some check)) evs1 w = (Ok tt, w1) ->
  fst (check w1) = true ->
  feed (progress_hook (Some cb) (Some check)) (evs1 ++ d :: evs2) w
  = (Raise DownloadCancelled, snd (check w1)).
Proof.
  intros H1 H2. rewrite (feed_app _ _ _ _ _ H1). cbn [feed].
  now rewrite (hook_cancelled cb check d w1 H2).
Qed.

End Cancel.

Lemma int_go_not_cancelled s : forall acc, Py.int_go s acc <> Raise DownloadCancelled.
Proof.
  induction s as [|c s IH]; intros acc; cbn; [discriminate|].
  destruct (Char.is_digit c); [apply IH | discriminate].
Qed.

Lemma hook_report_not_cancelled d : hook_report d <> Raise DownloadCancelled.
Proof.
  unfold hook_report.
  destruct (d_status d) as [st|]; [|discriminate].
  destruct (Py.str_eqb st "downloading"); [|destruct (Py.str_eqb st "finished"); discriminate].
  destruct (truthy_num (d_total_bytes d)); [discriminate|].
  destruct (Re.search percent_re _) as [m|].
  - unfold group_str. destruct (Re.group 1 (Re.m_caps m)) as [g|]; [|discriminate].
    rewrite bind_ok. unfold round_half_up. destruct (Url.cut "." g) as [whole frac].
    destruct (Py.int whole) as [n|e] eqn:E.
    + rewrite bind_ok. destruct frac; discriminate.
    + cbn. intros [= ->]. unfold Py.int in E. destruct whole; [discriminate|].
      now apply int_go_not_cancelled in E.
  - destruct (d_fragment_index d); [|discriminate].
    destruct (truthy_num (d_fragment_count d)); [|discriminate].
    destruct (0 <? _); discriminate.
Qed.

(** C7, as the code has it.  When the cancellation check passed to the
    download answers true at a progress event, the hook raises
    [DownloadCancelled] before the callback sees that event, and no later
    event is processed; the download ends with that exception.  The
    exception branch of the job runner then records the status error with
    the text of the exception, which for [DownloadCancelled] is empty.  The
    hook the job runner installs has no cancellation check and never raises
    [DownloadCancelled]. *)
Theorem cancellation_aborts_transfer :
  (forall (W : Type) (cb : callback_t) (check : check_t)
          (evs1 evs2 : list event) (d : event) (w w1 : W),
     feed (progress_hook (Some cb) (Some check)) evs1 w = (Ok tt, w1) ->
     fst (check w1) = true ->
     feed (progress_hook (Some cb) (Some check)) (evs1 ++ d :: evs2) w
       = (Raise DownloadCancelled, snd (check w1)) /\
     forall env u,
       transfer env u = evs1 ++ d :: evs2 ->
       download_other env u (_progress_hook_factory (Some cb) (Some check)) w
       = (Raise DownloadCancelled, snd (check w1))) /\
  (forall now job_id a log,
     db a !! job_id = Some log ->
     let a' := on_download_error now job_id DownloadCancelled a in
     job_status job_id a' = Some "error" /\
     job_message job_id a' = Some EmptyString /\
     job_progress job_id a' = Some (progress log)) /\
  (forall job_id d a, fst (job_hook job_id d a) <> Raise DownloadCancelled).
Proof.
  split; [|split].
  - intros W cb check evs1 evs2 d w w1 H1 H2.
    pose proof (feed_cancelled cb check evs1 d evs2 w w1 H1 H2) as Hf.
    split; [exact Hf|].
    intros env u Ht. unfold download_other, run_delegate, _progress_hook_factory.
    now rewrite Ht, Hf.
  - intros now job_id a log Hl a'. subst a'.
    unfold job_status, job_message, job_progress, on_download_error.
    rewrite db_update_log, Hl. repeat split.
  - intros job_id d a. rewrite job_hook_cases.
    pose proof (hook_report_not_cancelled d) as Hn.
    destruct (hook_report d) as [[[pct msg]|]|e]; cbn [fst]; congruence.
Qed.

Lemma cancellation_aborts_transfer_witness :
  feed (progress_hook (Some (lifted_cb 1)) (Some (counting_check 1)))
       ([fragment_event 1 4] ++ fragment_event 2 4 :: [fragment_event 3 4])
       (one_job running_log, O)
  = (Raise DownloadCancelled,
     (progress_cb 1 25 MSG_DOWNLOADING (one_job running_log), 2%nat)).
Proof.
  exact (proj1 (proj1 cancellation_aborts_transfer (app * nat)%type
                  (lifted_cb 1) (counting_check 1)
                  [fragment_event 1 4] [fragment_event 3 4] (fragment_event 2 4)
                  (one_job running_log, O)
                  (progress_cb 1 25 MSG_DOWNLOADING (one_job running_log), 1%nat)
                  eq_refl eq_refl)).
Defined.

(** A download cancelled at its second event leaves the job with an empty
    message, the very state an ordinary failure with an empty text leaves;
    the job runner itself, which passes no check, runs the same transfer to
    the end. *)
Lemma cancelled_job_has_no_message :
  let r := download_video_with_subs sample_env "http://example.org/v"
             (Some (lifted_cb 1)) (Some (counting_check 1))
             (one_job running_log, O) in
  fst r = Raise DownloadCancelled /\
  job_status 1 (on_download_error 9 1 DownloadCancelled (fst (snd r))) = Some "error" /\
  job_message 1 (on_download_error 9 1 DownloadCancelled (fst (snd r)))
    = Some EmptyString /\
  on_download_error 9 1 DownloadCancelled (fst (snd r))
    = on_download_error 9 1 (OtherError EmptyString) (fst (snd r)) /\
  job_status 1 (snd (_run_download_job sample_env 9 1 "http://example.org/v"
                       "video" 7 (one_job pending_log))) = Some "done".
Proof.
  cbv zeta. split; [vm_compute; reflexivity|].
  split; [vm_compute; reflexivity|].
  split; [vm_compute; reflexivity|].
  split; [reflexivity|]. vm_compute. reflexivity.
Qed.

(** ** The result table *)

Section Results.

Lemma download_result_state job_id uid a : snd (download_result job_id uid a) = a.
Proof.
  unfold download_result.
  repeat match goal with
         | |- context [match ?x with _ => _ end] => destruct x
         end; reflexivity.
Qed.

Lemma download_result_expired job_id uid a log :
  db a !! job_id = Some log -> user_id log = uid -> status log = "done" ->
  _job_results a !! job_id = None ->
  fst (download_result job_id uid a) = HTTPException 404 "檔案已過期，請重新下載".
Proof.
  intros Hl Hu Hs Hr. unfold download_result. rewrite Hl, Hu, Z.eqb_refl, Hs, Hr.
  reflexivity.
Qed.

End Results.

(** C8, as the code has it.  Serving a result leaves the result table as it
    is, so a further fetch for the same job is answered as the first one
    was.  The table is emptied at shutdown, and from then on a fetch for a
    finished job reports the 'expired' error. *)
Theorem result_kept_until_shutdown :
  (forall job_id uid a, snd (download_result job_id uid a) = a) /\
  (forall job_id uid a,
     fst (download_result job_id uid (snd (download_result job_id uid a)))
     = fst (download_result job_id uid a)) /\
  (forall a, _job_results (lifespan_shutdown a) = ∅) /\
  (forall job_id uid a log,
     db a !! job_id = Some log -> user_id log = uid -> status log = "done" ->
     fst (download_result job_id uid (lifespan_shutdown a))
     = HTTPException 404 "檔案已過期，請重新下載").
Proof.
  split; [exact download_result_state|].
  split; [intros; now rewrite download_result_state|].
  split; [reflexivity|].
  intros job_id uid a log Hl Hu Hs.
  apply (download_result_expired job_id uid _ log); auto.
Qed.

Lemma result_kept_until_shutdown_witness :
  fst (download_result 1 7 (lifespan_shutdown served_app))
  = HTTPException 404 "檔案已過期，請重新下載".
Proof.
  exact (proj2 (proj2 (proj2 result_kept_until_shutdown)) 1 7 served_app done_log
               eq_refl eq_refl eq_refl).
Defined.

(** A result that has been served once is served again by the next fetch. *)
Lemma result_served_twice :
  fst (download_result 1 7 served_app)
    = FileResponse ["tmp"; "job"; "clip.mkv"] "clip.mkv" "application/octet-stream" /\
  fst (download_result 1 7 (snd (download_result 1 7 served_app)))
    = FileResponse ["tmp"; "job"; "clip.mkv"] "clip.mkv" "application/octet-stream" /\
  fst (download_result 1 7 (snd (download_result 1 7 served_app)))
    <> HTTPException 404 "檔案已過期，請重新下載".
Proof. repeat split; try (vm_compute; reflexivity). vm_compute. discriminate. Qed.

(** * Further properties of the code *)

(** ** Strings *)

Section StringFacts.

Lemma chars_app a b : Py.chars (a +:+ b) = Py.chars a ++ Py.chars b.
Proof. induction a as [|c a IH]; [reflexivity|]. rewrite app_cons. cbn. now rewrite IH. Qed.

Lemma chars_of_chars l : Py.chars (Py.of_chars l) = l.
Proof. induction l as [|c l IH]; [reflexivity|]. cbn. now rewrite IH. Qed.

Lemma rev_app_s a b : Py.rev (a +:+ b) = Py.rev b +:+ Py.rev a.
Proof. unfold Py.rev. now rewrite chars_app, rev_app_distr, of_chars_app. Qed.

Lemma rev_rev_s s : Py.rev (Py.rev s) = s.
Proof. unfold Py.rev. now rewrite chars_of_chars, rev_involutive, of_chars_chars. Qed.

Lemma chars_rev s : Py.chars (Py.rev s) = List.rev (Py.chars s).
Proof. unfold Py.rev. apply chars_of_chars. Qed.

Lemma len_chars s : Py.len s = length (Py.chars s).
Proof. unfold Py.len. induction s as [|c s IH]; [reflexivity|]. cbn. now rewrite IH. Qed.

Lemma len_rev s : Py.len (Py.rev s) = Py.len s.
Proof. now rewrite !len_chars, chars_rev, length_rev. Qed.

Lemma take_app_len a b : Py.take (Py.len a) (a +:+ b) = a.
Proof.
  induction a as [|c a IH]; [now destruct b|].
  rewrite app_cons. unfold Py.len in *. cbn. now rewrite IH.
Qed.

Lemma drop_app_len a b : Py.drop (Py.len a) (a +:+ b) = b.
Proof.
  induction a as [|c a IH]; [now destruct b|].
  rewrite app_cons. unfold Py.len in *. cbn. exact IH.
Qed.

Lemma startswith_app_same p : forall q s,
  Py.startswith (p +:+ q) (p +:+ s) = Py.startswith q s.
Proof.
  induction p as [|c p IH]; intros q s; [reflexivity|].
  rewrite !app_cons. cbn [Py.startswith]. now rewrite Char.eqb_refl, IH.
Qed.

Lemma endswith_app suffix stem : Py.endswith suffix (stem +:+ suffix) = true.
Proof. unfold Py.endswith. rewrite rev_app_s. apply startswith_self_app. Qed.

(** What is left of a string once leading characters are dropped is made
    of characters of the string. *)
Lemma lstrip_by_chars p s c :
  In c (Py.chars (Py.lstrip_by p s)) -> In c (Py.chars s).
Proof.
  induction s as [|x s IH]; cbn; [tauto|].
  destruct (p x); cbn; [right; auto | tauto].
Qed.

Lemma strip_by_chars p s c :
  In c (Py.chars (Py.strip_by p s)) -> In c (Py.chars s).
Proof.
  unfold Py.strip_by, Py.rstrip_by. rewrite chars_rev, <- in_rev. intros H.
  apply lstrip_by_chars in H. rewrite chars_rev, <- in_rev in H.
  now apply lstrip_by_chars in H.
Qed.

Lemma lstrip_by_head p s c s' :
  Py.lstrip_by p s = String c s' -> p c = false.
Proof.
  induction s as [|x s IH]; cbn; [discriminate|].
  destruct (p x) eqn:E; [exact IH|]. now intros [= <- _].
Qed.

Lemma rev_cons_s c s : Py.rev (String c s) = Py.rev s +:+ String c EmptyString.
Proof. unfold Py.rev. cbn [Py.chars List.rev]. now rewrite of_chars_app. Qed.

Lemma lstrip_by_snoc p y : p y = false -> forall u,
  exists u', Py.lstrip_by p (u +:+ String y EmptyString) = u' +:+ String y EmptyString.
Proof.
  intros Hy u. induction u as [|z u IH].
  - exists EmptyString.
    change (Py.lstrip_by p (String y EmptyString) = String y EmptyString).
    cbn. now rewrite Hy.
  - rewrite app_cons. cbn [Py.lstrip_by]. destruct (p z); [exact IH|].
    now exists (String z u).
Qed.

(** A stripped string neither begins nor ends with a stripped character. *)
Lemma strip_by_first p s c s' :
  Py.strip_by p s = String c s' -> p c = false.
Proof.
  unfold Py.strip_by, Py.rstrip_by.
  destruct (Py.lstrip_by p s) as [|y t] eqn:E; [discriminate|].
  pose proof (lstrip_by_head p s y t E) as Hy.
  rewrite rev_cons_s.
  destruct (lstrip_by_snoc p y Hy (Py.rev t)) as [u' ->].
  rewrite rev_app_s. change (Py.rev (String y EmptyString)) with (String y EmptyString).
  rewrite app_cons. now intros [= <- _].
Qed.

Lemma strip_by_last p s u c :
  Py.strip_by p s = u +:+ String c EmptyString -> p c = false.
Proof.
  unfold Py.strip_by, Py.rstrip_by. intros H.
  apply (f_equal Py.rev) in H. rewrite rev_rev_s, rev_app_s in H.
  change (Py.rev (String c EmptyString)) with (String c EmptyString) in H.
  rewrite app_cons in H. now apply lstrip_by_head in H.
Qed.

End StringFacts.

(** ** Names and page metadata *)

Section Names.

Lemma snoc_exists s : Py.nonempty s = true -> exists u c, s = u +:+ String c EmptyString.
Proof.
  induction s as [|x s IH]; [discriminate|]. intros _.
  destruct s as [|y s].
  - now exists EmptyString, x.
  - destruct (IH eq_refl) as (u & c & E). exists (String x u), c.
    rewrite app_cons. now rewrite <- E.
Qed.

Lemma lstrip_by_id p c s : p c = false -> Py.lstrip_by p (String c s) = String c s.
Proof. intros H. cbn. now rewrite H. Qed.

Lemma strip_by_idem p s : Py.strip_by p (Py.strip_by p s) = Py.strip_by p s.
Proof.
  destruct (Py.strip_by p s) as [|c r] eqn:E; [reflexivity|].
  pose proof (strip_by_first p s c r E) as Hc.
  destruct (snoc_exists (String c r) eq_refl) as (u & z & Eu).
  assert (Hz : p z = false) by (apply (strip_by_last p s u z); now rewrite E).
  unfold Py.strip_by at 1, Py.rstrip_by. rewrite (lstrip_by_id p c r Hc).
  rewrite Eu, rev_app_s.
  change (Py.rev (String z EmptyString)) with (String z EmptyString).
  rewrite app_cons. rewrite (lstrip_by_id p z _ Hz).
  rewrite <- app_cons.
  change (String z EmptyString) with (Py.rev (String z EmptyString)) at 1.
  rewrite <- rev_app_s. apply rev_rev_s.
Qed.

Lemma at_pos_chr p prev c s off :
  Re.at_pos (Re.Chr p) prev (String c s) off =
  if p c then Some (Re.RMatch off (String c EmptyString) [] s) else None.
Proof.
  unfold Re.at_pos. cbn [Re.run Re.rest Re.caps].
  destruct (p c); [|reflexivity]. now rewrite take_one.
Qed.

Lemma sub_go_chr p r s : forall prev off,
  Re.sub_go (Re.Chr p) (fun _ => Ok r) prev s off 0 = Ok (replace_chars p r s).
Proof.
  induction s as [|c s IH]; intros prev off; [reflexivity|].
  cbn [Re.sub_go replace_chars]. rewrite at_pos_chr.
  destruct (p c).
  - rewrite bind_ok. cbn [Re.m_text]. unfold Py.len. cbn [String.length Nat.sub].
    now rewrite IH, bind_ok.
  - now rewrite IH, bind_ok.
Qed.

Lemma replace_chars_legal s c :
  In c (Py.chars (replace_chars illegal_filename_char "_" s)) ->
  illegal_filename_char c = false.
Proof.
  induction s as [|x s IH]; cbn [replace_chars]; [intros []|].
  rewrite chars_app, in_app_iff. intros [H|H]; [|auto].
  destruct (illegal_filename_char x) eqn:E; cbn in H; destruct H as [<-|[]];
    [reflexivity | exact E].
Qed.

Lemma sanitize_filename_eq name :
  sanitize_filename name =
  Ok (let n := Py.strip (replace_chars illegal_filename_char "_" name) in
      if Py.nonempty n then n else "video").
Proof.
  unfold sanitize_filename, Re.sub. now rewrite sub_go_chr, bind_ok.
Qed.

Lemma video_safe : safe_name "video".
Proof.
  split; [reflexivity|]. cbn. intros c H.
  repeat (destruct H as [<-|H]; [reflexivity|]). destruct H.
Qed.

Lemma sanitize_filename_ok name :
  exists out, sanitize_filename name = Ok out /\ safe_name out.
Proof.
  rewrite sanitize_filename_eq. eexists. split; [reflexivity|]. cbv zeta.
  destruct (Py.nonempty (Py.strip _)) eqn:E; [|apply video_safe].
  split; [exact E|]. intros c H. apply strip_by_chars in H.
  now apply replace_chars_legal in H.
Qed.

End Names.

(** X1.  [sanitize_filename] never raises, and what it returns is never
    empty and holds none of the characters it replaces. *)
Theorem sanitize_filename_safe (name : string) :
  exists out, sanitize_filename name = Ok out /\ safe_name out.
Proof. apply sanitize_filename_ok. Qed.

Lemma missav_filename_safe_aux (u name : string) :
  _missav_filename_from_url u = Ok name -> safe_name name.
Proof.
  unfold _missav_filename_from_url.
  destruct (Url.urlparse (Py.strip u)) as [p|e]; [|discriminate]. rewrite bind_ok.
  destruct (negb (Py.nonempty _)).
  - intros [= <-]. apply video_safe.
  - destruct (Py.index _ (-1)) as [segment|e]; [|discriminate]. rewrite bind_ok.
    destruct (sanitize_filename_ok
                (strip_first_suffix MISSAV_STRIP_SUFFIXES segment)) as (out & -> & Hs).
    rewrite bind_ok. destruct (Py.nonempty out); intros [= <-];
      [exact Hs | apply video_safe].
Qed.


(** X2.  A title derived from an address is a safe file name: when
    [_missav_filename_from_url] returns, its result is not empty and holds
    no character that is illegal in a file name. *)
Theorem missav_filename_safe (u name : string) :
  _missav_filename_from_url u = Ok name -> safe_name name.
Proof. apply missav_filename_safe_aux. Qed.

Lemma missav_filename_safe_witness : safe_name "ipzz-556".
Proof.
  apply (missav_filename_safe "https://missav.ai/ipzz-556-uncensored-leak").
  vm_compute. reflexivity.
Defined.

Section Suffix.

Lemma slice_drop_suffix stem suffix :
  Py.nonempty suffix = true ->
  Py.slice (stem +:+ suffix) 0 (- Z.of_nat (Py.len suffix)) = stem.
Proof.
  intros Hn. unfold Py.slice, Py.clamp. rewrite len_app.
  assert (0 < Py.len suffix)%nat by (destruct suffix; [discriminate | unfold Py.len; cbn; lia]).
  destruct (Z.ltb_spec 0 0); [lia|].
  destruct (Z.ltb_spec (- Z.of_nat (Py.len suffix)) 0); [|lia].
  replace (Z.to_nat (Z.max 0 (Z.min (Z.of_nat (Py.len stem + Py.len suffix)) 0))) with O by lia.
  replace (Z.to_nat _) with (Py.len stem) by lia.
  rewrite Nat.sub_0_r. cbn [Py.drop]. apply take_app_len.
Qed.

Lemma strip_suffix_hit suffix more stem :
  Py.nonempty suffix = true ->
  strip_first_suffix (suffix :: more) (stem +:+ suffix) = Py.rstrip_chars "-" stem.
Proof.
  intros Hn. cbn [strip_first_suffix]. rewrite endswith_app.
  now rewrite slice_drop_suffix.
Qed.

Lemma strip_suffix_miss suffix more segment :
  Py.endswith suffix segment = false ->
  strip_first_suffix (suffix :: more) segment = strip_first_suffix more segment.
Proof. intros H. cbn [strip_first_suffix]. now rewrite H. Qed.

End Suffix.

(** X3.  The suffix tokens are tried in the order -uncensored-leak,
    -uncensored, -leak, and the first that ends the segment is the only one
    removed, with the dashes left at the end: a segment ending in
    -uncensored-leak or in -uncensored loses all of it, one ending in -leak
    (and not in -uncensored-leak) loses -leak only. *)
Theorem strip_first_suffix_priority (stem : string) :
  strip_first_suffix MISSAV_STRIP_SUFFIXES (stem +:+ "-uncensored-leak")
    = Py.rstrip_chars "-" stem /\
  strip_first_suffix MISSAV_STRIP_SUFFIXES (stem +:+ "-uncensored")
    = Py.rstrip_chars "-" stem /\
  (Py.endswith "-uncensored" stem = false ->
   strip_first_suffix MISSAV_STRIP_SUFFIXES (stem +:+ "-leak")
     = Py.rstrip_chars "-" stem).
Proof.
  unfold MISSAV_STRIP_SUFFIXES. split; [|split].
  - now apply strip_suffix_hit.
  - rewrite strip_suffix_miss.
    + now apply strip_suffix_hit.
    + unfold Py.endswith. rewrite rev_app_s. reflexivity.
  - intros H. rewrite strip_suffix_miss.
    + rewrite strip_suffix_miss; [now apply strip_suffix_hit|].
      unfold Py.endswith. rewrite rev_app_s. reflexivity.
    + unfold Py.endswith in *. rewrite rev_app_s.
      change (Py.rev "-uncensored-leak") with (Py.rev "-leak" +:+ Py.rev "-uncensored").
      now rewrite startswith_app_same.
Qed.

Lemma strip_first_suffix_priority_witness :
  strip_first_suffix MISSAV_STRIP_SUFFIXES ("abc-leak" +:+ "-leak")
  = Py.rstrip_chars "-" "abc-leak".
Proof.
  exact (proj2 (proj2 (strip_first_suffix_priority "abc-leak")) eq_refl).
Defined.

Section OgMeta.

Lemma or_none_strip_clean g : clean_field (or_none (Py.strip g)).
Proof.
  unfold clean_field, or_none. intros s.
  destruct (Py.nonempty (Py.strip g)) eqn:E; [|discriminate].
  intros [= <-]. split; [exact E | apply strip_by_idem].
Qed.

Lemma og_field_clean name webpage :
  Re.binds 1 (og_re name) = true ->
  exists v, og_field name webpage = Ok v /\ clean_field v.
Proof.
  intros Hb. unfold og_field, group_str.
  destruct (Re.search (og_re name) webpage) as [m|] eqn:Hs.
  - destruct (search_binds 1 _ _ m Hb Hs) as [g Hg]. rewrite Hg, bind_ok.
    eexists. split; [reflexivity | apply or_none_strip_clean].
  - eexists. split; [reflexivity|]. intros s. discriminate.
Qed.

End OgMeta.

(** X4.  [_extract_og_meta] never raises, and each of the two fields it
    returns is either absent or a non-empty text without blanks around
    it. *)
Theorem og_meta_clean (webpage : string) :
  exists t d, _extract_og_meta webpage = Ok (t, d) /\ clean_field t /\ clean_field d.
Proof.
  unfold _extract_og_meta.
  destruct (og_field_clean "og:title" webpage eq_refl) as (t & -> & Ht).
  destruct (og_field_clean "og:description" webpage eq_refl) as (d & -> & Hd).
  rewrite !bind_ok. eauto.
Qed.

(** ** Shape of the URLs the strategies return *)

Section UrlShape.

Import Re.

Lemma run_suffix r : forall st k x,
  run r st k = Some x -> exists st', k st' = Some x /\ exists pre, rest st = pre +:+ rest st'.
Proof.
  induction r as [|p|a IHa b IHb|a IHa b IHb|a IHa|n a IHa|]; intros st k x H;
    cbn [run] in H.
  - exists st. split; [exact H | now exists EmptyString].
  - destruct (rest st) as [|c s'] eqn:E; [discriminate|].
    destruct (p c); [|discriminate].
    eexists. split; [exact H|]. now exists (String c EmptyString).
  - apply IHa in H as (st1 & H & pre1 & E1). apply IHb in H as (st2 & H & pre2 & E2).
    exists st2. split; [exact H|]. exists (pre1 +:+ pre2).
    now rewrite E1, E2, app_assoc_s.
  - destruct (run a st k) eqn:Ea.
    + injection H as <-. eapply IHa; eauto.
    + eapply IHb; eauto.
  - generalize dependent (S (Py.len (rest st))). intros fuel.
    revert st. induction fuel as [|fuel IHf]; intros st H; cbn [star_loop] in H.
    + exists st. split; [exact H | now exists EmptyString].
    + match type of H with
      | match ?t with _ => _ end = _ => destruct t eqn:Ea
      end.
      * injection H as <-. apply IHa in Ea as (st1 & Ea & pre1 & E1).
        destruct (Py.len (rest st1) <? Py.len (rest st))%nat; [|discriminate].
        apply IHf in Ea as (st2 & Ea & pre2 & E2).
        exists st2. split; [exact Ea|]. exists (pre1 +:+ pre2).
        now rewrite E1, E2, app_assoc_s.
      * exists st. split; [exact H | now exists EmptyString].
  - apply IHa in H as (st1 & H & pre1 & E1).
    eexists. split; [exact H|]. now exists pre1.
  - destruct (boundary st); [|discriminate].
    exists st. split; [exact H | now exists EmptyString].
Qed.

Lemma run_lit c st k :
  run (lit c) st k =
  if Py.startswith (String c "") (rest st) then k (adv 1 st) else None.
Proof.
  cbn [lit run adv]. destruct (rest st) as [|b s'] eqn:E; [reflexivity|].
  cbn [Py.startswith]. destruct s'; rewrite andb_true_r; reflexivity.
Qed.

Lemma run_str w : forall st k,
  run (str w) st k = if Py.startswith w (rest st) then k (adv (Py.len w) st) else None.
Proof.
  induction w as [|a w IH]; intros st k; [reflexivity|].
  cbn [str]. change (run (Cat ?x ?y) st k) with (run x st (fun st' => run y st' k)).
  rewrite run_lit. unfold Py.len. cbn [String.length adv Py.startswith].
  destruct (rest st) as [|b s'] eqn:E; [reflexivity|].
  destruct s'; rewrite andb_true_r; (destruct (Char.eqb a b); [|reflexivity]);
    cbn [andb]; rewrite IH; reflexivity.
Qed.

Lemma startswith_split w : forall s,
  Py.startswith w s = true -> s = w +:+ Py.drop (Py.len w) s.
Proof.
  induction w as [|a w IH]; intros s H; [reflexivity|].
  destruct s as [|b s]; [discriminate|]. cbn [Py.startswith] in H.
  apply andb_true_iff in H as [Hc H]. apply Char.eqb_eq in Hc as ->.
  rewrite app_cons. unfold Py.len. cbn [String.length Py.drop]. f_equal. now apply IH.
Qed.

Lemma consumed_app a b : consumed (a +:+ b) b = a.
Proof.
  unfold consumed. rewrite len_app.
  replace (Py.len a + Py.len b - Py.len b)%nat with (Py.len a) by lia.
  apply take_app_len.
Qed.

Lemma run_ends_lit w r : forall st x,
  ends_lit w r -> run r st Some = Some x -> exists pre, rest st = (pre +:+ w) +:+ rest x.
Proof.
  induction r as [|p|a IHa b IHb|a IHa b IHb|a IHa|n a IHa|]; intros st x He H;
    cbn [ends_lit] in He; try contradiction.
  cbn [run] in H. apply run_suffix in H as (st1 & H & pre1 & E1).
  destruct He as [->|He].
  - rewrite run_str in H. destruct (Py.startswith w (rest st1)) eqn:Es; [|discriminate].
    injection H as <-. rewrite rest_adv. exists pre1.
    rewrite E1, app_assoc_s. f_equal. now apply startswith_split.
  - destruct (IHb st1 x He H) as [pre2 E2]. exists (pre1 +:+ pre2).
    rewrite E1, E2, !app_assoc_s. reflexivity.
Qed.

Lemma at_pos_ends_lit w r p s off m :
  ends_lit w r -> at_pos r p s off = Some m -> Py.endswith w (m_text m) = true.
Proof.
  intros He H. unfold at_pos in H.
  destruct (run r _ Some) as [st|] eqn:E; [|discriminate]. injection H as <-.
  destruct (run_ends_lit w r _ _ He E) as [pre Ep]. cbn [rest] in Ep.
  cbn [m_text]. rewrite Ep, consumed_app. apply endswith_app.
Qed.

Lemma at_pos_starts_lit w b p s off m :
  at_pos (Cat (str w) b) p s off = Some m -> Py.startswith w (m_text m) = true.
Proof.
  intros H. unfold at_pos in H.
  destruct (run _ _ Some) as [st|] eqn:E; [|discriminate]. injection H as <-.
  cbn [run] in E. rewrite run_str in E. cbn [rest] in E.
  destruct (Py.startswith w s) eqn:Es; [|discriminate].
  apply run_suffix in E as (st1 & E & pre & Ep). injection E as ->.
  rewrite rest_adv in Ep. cbn [rest] in Ep. cbn [m_text].
  rewrite (startswith_split w s Es), Ep, <- app_assoc_s, consumed_app.
  apply startswith_self_app.
Qed.

Lemma m3u8_url_shape s m :
  search m3u8_url_re s = Some m ->
  Py.startswith "http" (m_text m) = true /\ Py.endswith ".m3u8" (m_text m) = true.
Proof.
  intros H. apply search_go_at in H as (p & s' & off & H). split.
  - exact (at_pos_starts_lit "http" _ p s' off m H).
  - apply (at_pos_ends_lit ".m3u8" m3u8_url_re p s' off m); [|exact H].
    cbn. right. right. right. now left.
Qed.

End UrlShape.

(** X5.  The packed-eval strategy never raises, and a URL it returns
    begins with http and ends with .m3u8. *)
Theorem packed_result_shape (webpage : string) :
  exists r, _extract_missav_m3u8_from_packed webpage = Ok r /\
    forall u, r = Some u ->
      Py.startswith "http" u = true /\ Py.endswith ".m3u8" u = true.
Proof.
  unfold _extract_missav_m3u8_from_packed.
  match goal with
  | |- exists r, (?F ≫= _) = Ok r /\ _ => assert (Hfound : exists f, F = Ok f)
  end.
  { unfold group_str.
    destruct (Re.search packed_main_re webpage) as [m|] eqn:Hm.
    - destruct (search_binds 1 packed_main_re webpage m eq_refl Hm) as [g1 ->].
      destruct (search_binds 2 packed_main_re webpage m eq_refl Hm) as [g2 ->].
      rewrite !bind_ok. eauto.
    - destruct (Re.search packed_fallback_re webpage) as [fb|] eqn:Hf; [|eauto].
      destruct (search_binds 1 packed_fallback_re webpage fb eq_refl Hf) as [g1 ->].
      rewrite bind_ok.
      destruct (Re.search packed_dict_re _); [|eauto]. cbv zeta.
      destruct (negb _); eauto. }
  destruct Hfound as [f ->]. rewrite bind_ok.
  destruct f as [[packed dict_str]|].
  - rewrite unpack_ok, bind_ok.
    destruct (Re.search m3u8_url_re _) as [m|] eqn:Hs.
    + eexists. split; [reflexivity|]. intros u [= <-]. now apply m3u8_url_shape in Hs.
    + eexists. split; [reflexivity|]. discriminate.
  - eexists. split; [reflexivity|]. discriminate.
Qed.

Section LegacyTotal.

Lemma index_raises {A} (l : list A) i e : Py.index l i = Raise e -> e = IndexError.
Proof.
  unfold Py.index. destruct (_ || _); [congruence|].
  destruct (nth_error _ _); congruence.
Qed.

Lemma index_of_raises w l e : Py.index_of w l = Raise e -> exists msg, e = ValueError msg.
Proof.
  unfold Py.index_of. rewrite index_of_from_position.
  destruct (position w l); [discriminate|]. intros [= <-]. eauto.
Qed.

Lemma legacy_url_raises url_words e :
  legacy_url url_words = Raise e -> e = IndexError \/ exists msg, e = ValueError msg.
Proof.
  unfold legacy_url. destruct (Py.mem "video" url_words); [|discriminate].
  destruct (Py.index_of "video" url_words) as [vi|e0] eqn:E0.
  - rewrite bind_ok.
    destruct (Py.index url_words (vi - 1)) as [x1|e1] eqn:E1;
      [rewrite bind_ok | cbn; intros [= <-]; left; eapply index_raises; eauto].
    destruct (Py.index url_words (vi + 1)) as [x2|e2] eqn:E2;
      [rewrite bind_ok | cbn; intros [= <-]; left; eapply index_raises; eauto].
    destruct (Py.index url_words vi) as [x3|e3] eqn:E3;
      [rewrite bind_ok; discriminate | cbn; intros [= <-]; left; eapply index_raises; eauto].
  - cbn. intros [= <-]. right. eapply index_of_raises; eauto.
Qed.

Lemma legacy_words_raises webpage e : legacy_words webpage = Raise e -> e = IndexError.
Proof.
  unfold legacy_words.
  destruct (Py.index (Py.split "m3u8|" webpage) 1) as [after|e1] eqn:E1;
    [rewrite bind_ok | cbn; intros [= <-]; eapply index_raises; eauto].
  destruct (Py.index (Py.split "|playlist|source" after) 0) as [chunk|e2] eqn:E2;
    [rewrite bind_ok; discriminate | cbn; intros [= <-]; eapply index_raises; eauto].
Qed.

Lemma legacy_strategy_total webpage : exists r, legacy_strategy webpage = Ok r.
Proof.
  unfold legacy_strategy.
  destruct (legacy_words webpage) as [url_words|e] eqn:Ew.
  - rewrite bind_ok. destruct (legacy_url url_words) as [r|e] eqn:Eu; [cbn; eauto|].
    apply legacy_url_raises in Eu as [->|[msg ->]]; cbn; eauto.
  - apply legacy_words_raises in Ew as ->. cbn. eauto.
Qed.

(** Without the separator the text is a single piece. *)
Lemma split_go_absent sep s : forall i cur,
  0 <= i -> Py.find_from sep s i = -1 ->
  Py.split_go sep s 0 cur = [Py.of_chars (List.rev cur) +:+ s].
Proof.
  induction s as [|c s IH]; intros i cur Hi H; cbn [Py.find_from Py.split_go] in *.
  - now rewrite app_empty_r.
  - destruct (Py.startswith sep (String c s)); [lia|].
    rewrite (IH (i + 1) (c :: cur)) by (lia || exact H).
    cbn [List.rev]. rewrite of_chars_app, app_assoc_s. reflexivity.
Qed.

Lemma legacy_strategy_no_marker webpage :
  Py.contains "m3u8|" webpage = false -> legacy_strategy webpage = Ok None.
Proof.
  unfold Py.contains, Py.find. intros H. apply negb_false_iff, Z.eqb_eq in H.
  unfold legacy_strategy, legacy_words, Py.split.
  rewrite (split_go_absent "m3u8|" webpage 0 []) by (lia || exact H).
  reflexivity.
Qed.

End LegacyTotal.

(** X6.  No exception escapes the legacy strategy, and it yields nothing
    on a page without 'm3u8|'. *)
Theorem legacy_strategy_silent (webpage : string) :
  (exists r, legacy_strategy webpage = Ok r) /\
  (Py.contains "m3u8|" webpage = false -> legacy_strategy webpage = Ok None).
Proof. split; [apply legacy_strategy_total | apply legacy_strategy_no_marker]. Qed.

Lemma legacy_strategy_silent_witness :
  legacy_strategy "<html>no manifest here</html>" = Ok None.
Proof.
  exact (proj2 (legacy_strategy_silent "<html>no manifest here</html>") eq_refl).
Defined.

(** X7.  The chain of the four strategies never raises: the extractor
    raises only if the title cannot be derived from the address, and a
    result it returns has a non-empty manifest URL, a safe title, and clean
    metadata fields. *)
Theorem extract_total_and_wellformed (webpage page_url : string) :
  (exists r, m3u8_url_of_page webpage = Ok r) /\
  (forall t, _missav_filename_from_url page_url = Ok t ->
     exists r, _extract_missav_m3u8_and_title webpage page_url = Ok r) /\
  (forall u t ogt ogd,
     _extract_missav_m3u8_and_title webpage page_url = Ok (Some (u, t, ogt, ogd)) ->
     Py.nonempty u = true /\ safe_name t /\ clean_field ogt /\ clean_field ogd).
Proof.
  assert (Hchain : exists r, m3u8_url_of_page webpage = Ok r).
  { unfold m3u8_url_of_page.
    destruct (packed_result_shape webpage) as (r1 & -> & _). rewrite bind_ok.
    assert (exists r2, (if Py.truthy r1 then Ok r1
                        else _extract_missav_m3u8_from_dict_only webpage) = Ok r2)
      as [r2 ->] by (destruct (Py.truthy r1); [eauto | rewrite dict_only_eq; eauto]).
    rewrite bind_ok. unfold or_else.
    destruct (legacy_strategy_total webpage) as [r3 ->].
    destruct (Py.truthy r2); rewrite !bind_ok; [|rewrite ?bind_ok];
      destruct (Py.truthy _); rewrite ?bind_ok; eauto. }
  split; [exact Hchain|]. destruct Hchain as [r Hr].
  unfold _extract_missav_m3u8_and_title. rewrite Hr, bind_ok.
  destruct (og_meta_clean webpage) as (ot & od & Hog & Hot & Hod).
  split.
  - intros t Ht. destruct r as [u|]; [|eauto].
    destruct (Py.nonempty u); [|eauto]. rewrite Ht, bind_ok, Hog, bind_ok. eauto.
  - intros u t ogt ogd. destruct r as [u0|]; [|discriminate].
    destruct (Py.nonempty u0) eqn:En; [|discriminate].
    destruct (_missav_filename_from_url page_url) as [t0|e] eqn:Et; [|discriminate].
    rewrite bind_ok, Hog, bind_ok. intros [= <- <- <- <-].
    split; [exact En|]. split; [exact (missav_filename_safe_aux _ _ Et)|].
    split; assumption.
Qed.

Lemma extract_total_and_wellformed_witness :
  exists r, _extract_missav_m3u8_and_title both_markers_page example_url = Ok r.
Proof.
  exact (proj1 (proj2 (extract_total_and_wellformed both_markers_page example_url))
               "naac-032" example_title).
Defined.

(** ** Progress normalisation *)



(** ** The job runner *)

Section JobRun.

Lemma progress_only_refl j a : progress_only j a a.
Proof. repeat split; eauto. Qed.

Lemma progress_only_trans j a b c :
  progress_only j a b -> progress_only j b c -> progress_only j a c.
Proof.
  intros (R1 & D1 & O1 & L1 & N1) (R2 & D2 & O2 & L2 & N2).
  split; [congruence|]. split; [congruence|]. split; [|split].
  - intros k Hk. rewrite O2, O1; auto.
  - intros log Hl. destruct (L1 log Hl) as (l1 & H1 & S1 & C1 & U1).
    destruct (L2 l1 H1) as (l2 & H2 & S2 & C2 & U2).
    exists l2. repeat split; congruence.
  - auto.
Qed.

Lemma progress_cb_only j pct msg a : progress_only j a (progress_cb j pct msg a).
Proof.
  unfold progress_cb, update_log, progress_only. cbn [db _job_results on_disk].
  split; [reflexivity|]. split; [reflexivity|]. split; [|split].
  - intros k Hk. now apply lookup_alter_ne.
  - intros log Hl. rewrite lookup_alter_eq, Hl. eexists. split; [reflexivity|].
    repeat split.
  - intros Hl. now rewrite lookup_alter_eq, Hl.
Qed.

Lemma job_hook_only j d a : progress_only j a (snd (job_hook j d a)).
Proof.
  rewrite job_hook_cases.
  destruct (hook_report d) as [[[pct msg]|]|e]; cbn [snd];
    [apply progress_cb_only | apply progress_only_refl | apply progress_only_refl].
Qed.

Lemma feed_only j events : forall a, progress_only j a (snd (feed (job_hook j) events a)).
Proof.
  induction events as [|d events IH]; intros a; cbn [feed].
  - apply progress_only_refl.
  - pose proof (job_hook_only j d a) as Hd.
    destruct (job_hook j d a) as [[[]|e] w1]; cbn [snd] in *; [|exact Hd].
    eapply progress_only_trans; [exact Hd | apply IH].
Qed.

Lemma run_delegate_only env j u a :
  progress_only j a (snd (run_delegate env (Some (job_hook j)) u a)).
Proof.
  unfold run_delegate. pose proof (feed_only j (transfer env u) a) as H.
  destruct (feed (job_hook j) (transfer env u) a) as [[[]|e] w1]; exact H.
Qed.

Lemma download_only env j u a :
  progress_only j a
    (snd (download_video_with_subs env u (Some (progress_cb j)) None a)).
Proof.
  unfold download_video_with_subs.
  change (_progress_hook_factory (Some (progress_cb j)) None) with (Some (job_hook j)).
  destruct (_origin_from_url u); [|apply progress_only_refl].
  destruct (_is_missav_url u).
  - unfold download_missav.
    destruct (fetch_page env u); [|apply progress_only_refl].
    destruct (_extract_missav_m3u8_and_title _ u) as [[[[[m t] ot] od]|]|];
      try apply progress_only_refl.
    pose proof (run_delegate_only env j m a) as H.
    destruct (run_delegate env (Some (job_hook j)) m a) as [[[]|e] w1]; exact H.
  - unfold download_other.
    pose proof (run_delegate_only env j u a) as H.
    destruct (run_delegate env (Some (job_hook j)) u a) as [[[]|e] w1]; [|exact H].
    destruct (info env u) as [[it idesc]|]; [|exact H].
    destruct (sanitize_filename _); exact H.
Qed.

Lemma package_state env dtype out a :
  db (snd (package env dtype out a)) = db a /\
  _job_results (snd (package env dtype out a)) = _job_results a.
Proof.
  unfold package. destruct out as [[[[[tmp t] v] subs] ot] od].
  destruct (Py.str_eqb dtype "video").
  - destruct v as [v|]; [destruct (on_disk a v)|]; now split.
  - destruct (Py.str_eqb dtype "subs").
    + destruct subs as [|s1 [|s2 subs]]; try now split.
      destruct (zip_write env _ _); now split.
    + destruct (zip_write env _ _); now split.
Qed.

Lemma set_running_only j a log :
  db a !! j = Some log ->
  db (update_log j set_running a) !! j = Some (set_running log) /\
  _job_results (update_log j set_running a) = _job_results a /\
  forall k, k <> j -> db (update_log j set_running a) !! k = db a !! k.
Proof.
  intros Hl. unfold update_log. cbn [db _job_results].
  rewrite lookup_alter_eq, Hl. split; [reflexivity|]. split; [reflexivity|].
  intros k Hk. now apply lookup_alter_ne.
Qed.

Lemma run_job_outcome env now j u dtype uid a log :
  db a !! j = Some log -> status log = "pending" ->
  let r := _run_download_job env now j u dtype uid a in
  others_untouched j a (snd r) /\
  match fst r with
  | Ok _ =>
      exists log', db (snd r) !! j = Some log' /\ completed_at log' = Some now /\
        user_id log' = user_id log /\
        ((status log' = "done" /\ progress log' = 100 /\ is_Some (_job_results (snd r) !! j))
         \/ (status log' = "error" /\ _job_results (snd r) = _job_results a))
  | Raise _ =>
      exists log', db (snd r) !! j = Some log' /\ status log' = "downloading" /\
        _job_results (snd r) = _job_results a
  end.
Proof.
  intros Hl Hs r. subst r. unfold _run_download_job. rewrite Hl, Hs.
  change (negb (Py.str_eqb "pending" "pending")) with false. cbv iota.
  destruct (set_running_only j a log Hl) as (H1 & R1 & O1).
  set (a1 := update_log j set_running a) in *.
  pose proof (download_only env j u a1) as (R2 & _ & O2 & L2 & _).
  destruct (L2 _ H1) as (l2 & H2 & S2 & C2 & U2).
  destruct (download_video_with_subs env u (Some (progress_cb j)) None a1)
    as [[out|e] a2]; cbn [fst snd] in *.
  - destruct out as [[[[[tmp t] v] subs] ogt] ogd].
    pose proof (package_state env dtype (tmp, t, v, subs, ogt, ogd) a2) as (Dp & Rp).
    destruct (package env dtype (tmp, t, v, subs, ogt, ogd) a2) as [[[rd|msg]|e] a3];
      cbn [fst snd] in *.
    + split.
      * intros k Hk. unfold update_log, store_result. cbn [db _job_results].
        rewrite lookup_alter_ne by congruence. rewrite lookup_insert_ne by congruence.
        rewrite Dp, Rp, R2, R1, O2, O1 by congruence. now split.
      * unfold update_log, store_result. cbn [db _job_results].
        rewrite lookup_alter_eq, Dp, H2. eexists. split; [reflexivity|].
        split; [reflexivity|]. split; [exact U2|]. left.
        split; [reflexivity|]. split; [reflexivity|].
        rewrite lookup_insert_eq. eauto.
    + split.
      * intros k Hk. unfold update_log. cbn [db _job_results].
        rewrite lookup_alter_ne by congruence.
        rewrite Dp, Rp, R2, R1, O2, O1 by congruence. now split.
      * unfold update_log. cbn [db _job_results].
        rewrite lookup_alter_eq, Dp, H2. eexists. split; [reflexivity|].
        split; [reflexivity|]. split; [exact U2|]. right.
        split; [reflexivity|]. congruence.
    + split.
      * intros k Hk. rewrite Dp, Rp, R2, R1, O2, O1 by congruence. now split.
      * rewrite Dp, H2. eexists. split; [reflexivity|]. split; [exact S2|]. congruence.
  - split.
    + intros k Hk. unfold on_download_error, update_log. cbn [db _job_results].
      rewrite lookup_alter_ne by congruence. rewrite R2, R1, O2, O1 by congruence.
      now split.
    + unfold on_download_error, update_log. cbn [db _job_results].
      rewrite lookup_alter_eq, H2. eexists. split; [reflexivity|].
      split; [reflexivity|]. split; [exact U2|]. right. split; [reflexivity|]. congruence.
Qed.

Lemma run_job_guard env now j u dtype uid a :
  (forall log, db a !! j = Some log -> status log <> "pending") ->
  _run_download_job env now j u dtype uid a = (Ok tt, a).
Proof.
  intros H. unfold _run_download_job.
  destruct (db a !! j) as [log|] eqn:Hl; [|reflexivity].
  destruct (Py.str_eqb (status log) "pending") eqn:E; [|reflexivity].
  apply String.eqb_eq in E. now apply H in E.
Qed.

End JobRun.

(** X9.  Running a pending job leaves every other job and every other
    entry of the result table untouched.  When the runner returns, the job
    is in a final state stamped with the completion time: done, with
    progress 100 and an entry in the result table, or error, with the
    table as it was.  When the archive writer raises, the exception leaves
    the runner and the job stays in status downloading. *)
Theorem run_job_outcomes env now j u dtype uid a log :
  db a !! j = Some log -> status log = "pending" ->
  let r := _run_download_job env now j u dtype uid a in
  others_untouched j a (snd r) /\
  match fst r with
  | Ok _ =>
      exists log', db (snd r) !! j = Some log' /\ completed_at log' = Some now /\
        user_id log' = user_id log /\
        ((status log' = "done" /\ progress log' = 100 /\ is_Some (_job_results (snd r) !! j))
         \/ (status log' = "error" /\ _job_results (snd r) = _job_results a))
  | Raise _ =>
      exists log', db (snd r) !! j = Some log' /\ status log' = "downloading" /\
        _job_results (snd r) = _job_results a
  end.
Proof. apply run_job_outcome. Qed.

Lemma run_job_outcomes_witness :
  let r := _run_download_job sample_env 9 1 "http://example.org/v" "video" 7
             (one_job pending_log) in
  others_untouched 1 (one_job pending_log) (snd r) /\
  match fst r with
  | Ok _ =>
      exists log', db (snd r) !! 1 = Some log' /\ completed_at log' = Some 9 /\
        user_id log' = user_id pending_log /\
        ((status log' = "done" /\ progress log' = 100 /\ is_Some (_job_results (snd r) !! 1))
         \/ (status log' = "error"
             /\ _job_results (snd r) = _job_results (one_job pending_log)))
  | Raise _ =>
      exists log', db (snd r) !! 1 = Some log' /\ status log' = "downloading" /\
        _job_results (snd r) = _job_results (one_job pending_log)
  end.
Proof.
  exact (run_job_outcomes sample_env 9 1 "http://example.org/v" "video" 7
           (one_job pending_log) pending_log eq_refl eq_refl).
Defined.

(** X10.  A job is run at most once: the runner does nothing to a job that
    is absent or not pending, and after a run the same call changes
    nothing more. *)
Theorem run_job_once env now j u dtype uid a :
  ((forall log, db a !! j = Some log -> status log <> "pending") ->
   _run_download_job env now j u dtype uid a = (Ok tt, a)) /\
  (let a' := snd (_run_download_job env now j u dtype uid a) in
   _run_download_job env now j u dtype uid a' = (Ok tt, a')).
Proof.
  split; [apply run_job_guard|]. cbv zeta.
  destruct (db a !! j) as [log|] eqn:Hl.
  - destruct (String.eqb (status log) "pending") eqn:Es.
    + apply String.eqb_eq in Es.
      destruct (run_job_outcome env now j u dtype uid a log Hl Es) as [_ H].
      apply run_job_guard. intros log' Hl'.
      destruct (fst (_run_download_job env now j u dtype uid a)).
      * destruct H as (l & E & _ & _ & [(S & _)|(S & _)]);
          rewrite E in Hl'; injection Hl' as <-; rewrite S; discriminate.
      * destruct H as (l & E & S & _).
        rewrite E in Hl'; injection Hl' as <-; rewrite S; discriminate.
    + assert (Hn : forall l, db a !! j = Some l -> status l <> "pending").
      { intros l E. rewrite Hl in E. injection E as <-.
        intros C. rewrite C in Es. discriminate. }
      rewrite (run_job_guard env now j u dtype uid a Hn). cbn [snd].
      now apply run_job_guard.
  - assert (Hn : forall l, db a !! j = Some l -> status l <> "pending")
      by (intros l E; congruence).
    rewrite (run_job_guard env now j u dtype uid a Hn). cbn [snd].
    now apply run_job_guard.
Qed.

Lemma run_job_once_witness :
  _run_download_job sample_env 9 1 "http://example.org/v" "video" 7 served_app
  = (Ok tt, served_app).
Proof.
  apply (proj1 (run_job_once sample_env 9 1 "http://example.org/v" "video" 7 served_app)).
  intros log H. vm_compute in H. injection H as <-. discriminate.
Defined.

(** ** Serving and shutting down *)

(** X11.  [download_result] serves a file only to the owner of a job that
    is done and has an entry in the result table; it answers 404 for an
    unknown job, 403 to another user, and 400 to the owner while the job is
    not done. *)
Theorem download_result_access (j uid : Z) (a : app) :
  match fst (download_result j uid a) with
  | FileResponse p _ _ =>
      exists log data,
        db a !! j = Some log /\ user_id log = uid /\ status log = "done" /\
        _job_results a !! j = Some data /\
        (r_video_path data = Some p \/
         (r_video_path data = None /\ r_file_path data = Some p /\ on_disk a p = true))
  | HTTPException code _ =>
      (db a !! j = None -> code = 404) /\
      (forall log, db a !! j = Some log -> user_id log <> uid -> code = 403) /\
      (forall log, db a !! j = Some log -> user_id log = uid ->
                   status log <> "done" -> code = 400)
  end.
Proof.
  unfold download_result.
  destruct (db a !! j) as [log|] eqn:Hl; cbn [fst].
  - destruct (Z.eqb_spec (user_id log) uid) as [Hu|Hu]; cbn [negb fst].
    + destruct (Py.str_eqb (status log) "done") eqn:Hs; cbn [negb fst].
      * apply String.eqb_eq in Hs.
        destruct (_job_results a !! j) as [data|] eqn:Hr; cbn [fst].
        -- destruct (r_video_path data) as [p|] eqn:Hv; cbn [fst].
           ++ exists log, data. repeat split; auto.
           ++ destruct (r_file_path data) as [p|] eqn:Hf; cbn [fst].
              ** destruct (on_disk a p) eqn:Hd; cbn [fst].
                 --- exists log, data. repeat split; auto.
                 --- repeat split; intros; congruence.
              ** repeat split; intros; congruence.
        -- repeat split; intros; congruence.
      * repeat split; intros; try congruence.
    + repeat split; intros; congruence.
  - repeat split; intros; congruence.
Qed.

Section Shutdown.

Lemma shutdown_removes a j data p :
  _job_results a !! j = Some data -> r_tmpdir data `prefix_of` p ->
  on_disk (lifespan_shutdown a) p = false.
Proof.
  intros Hr Hp. unfold lifespan_shutdown. cbn [on_disk].
  apply andb_false_iff. right. apply negb_false_iff.
  apply existsb_exists. exists (r_tmpdir data). split.
  - apply in_map_iff. exists (j, data). split; [reflexivity|].
    apply list_elem_of_In. now apply elem_of_map_to_list.
  - now apply bool_decide_eq_true.
Qed.

End Shutdown.

(** X12.  Shutdown empties the result table, leaves the job table as it
    is, creates no file, and removes every path under the scratch directory
    of each entry of the table (the removal taken to succeed). *)
Theorem shutdown_cleans (a : app) :
  _job_results (lifespan_shutdown a) = ∅ /\
  db (lifespan_shutdown a) = db a /\
  (forall p, on_disk (lifespan_shutdown a) p = true -> on_disk a p = true) /\
  (forall j data p,
     _job_results a !! j = Some data -> r_tmpdir data `prefix_of` p ->
     on_disk (lifespan_shutdown a) p = false).
Proof.
  split; [reflexivity|]. split; [reflexivity|]. split.
  - unfold lifespan_shutdown. cbn [on_disk]. intros p H.
    now apply andb_true_iff in H as [H _].
  - apply shutdown_removes.
Qed.

(** ** Failures of a job *)

Section JobErrors.

Lemma run_job_download_raises env now j u dtype uid a log e :
  db a !! j = Some log -> status log = "pending" ->
  download_video_with_subs env u (Some (progress_cb j)) None (update_log j set_running a)
    = (Raise e, update_log j set_running a) ->
  let a' := snd (_run_download_job env now j u dtype uid a) in
  fst (_run_download_job env now j u dtype uid a) = Ok tt /\
  job_status j a' = Some "error" /\
  job_message j a' = Some (str_of_exn e) /\
  job_progress j a' = Some 0 /\
  _job_results a' = _job_results a.
Proof.
  intros Hl Hs Hd. cbv zeta. unfold _run_download_job. rewrite Hl, Hs.
  change (negb (Py.str_eqb "pending" "pending")) with false. cbv iota.
  rewrite Hd. cbn [fst snd].
  unfold job_status, job_message, job_progress, on_download_error, update_log.
  cbn [db _job_results]. rewrite !lookup_alter_eq, Hl. repeat split.
Qed.

Lemma extract_none webpage u :
  m3u8_url_of_page webpage = Ok None ->
  _extract_missav_m3u8_and_title webpage u = Ok None.
Proof. intros H. unfold _extract_missav_m3u8_and_title. now rewrite H. Qed.

End JobErrors.

(** X13.  A pending job for a MissAV address whose page cannot be fetched
    ends in status error with the message that wraps the cause, and a job
    whose page yields no manifest ends in status error with the
    page-structure message; in both cases the progress stays 0, nothing is
    stored in the result table, and the downloader is not started. *)
Theorem missav_job_failures env now j u dtype uid a log o :
  db a !! j = Some log -> status log = "pending" ->
  _origin_from_url u = Ok o -> _is_missav_url u = true ->
  let a' := snd (_run_download_job env now j u dtype uid a) in
  (forall e, fetch_page env u = Raise e ->
     job_status j a' = Some "error" /\
     job_message j a' = Some ("無法載入 missav 頁面：" +:+ str_of_exn e) /\
     job_progress j a' = Some 0 /\ _job_results a' = _job_results a) /\
  (forall webpage, fetch_page env u = Ok webpage ->
     m3u8_url_of_page webpage = Ok None ->
     job_status j a' = Some "error" /\
     job_message j a'
       = Some "無法從 missav 頁面解析影片連結（頁面結構可能已變更）" /\
     job_progress j a' = Some 0 /\ _job_results a' = _job_results a).
Proof.
  intros Hl Hs Ho Hm. cbv zeta. split.
  - intros e He.
    apply (run_job_download_raises env now j u dtype uid a log
             (ValueError ("無法載入 missav 頁面：" +:+ str_of_exn e)) Hl Hs).
    unfold download_video_with_subs, download_missav. now rewrite Ho, Hm, He.
  - intros webpage Hw Hn.
    apply (run_job_download_raises env now j u dtype uid a log
             (ValueError "無法從 missav 頁面解析影片連結（頁面結構可能已變更）") Hl Hs).
    unfold download_video_with_subs, download_missav.
    now rewrite Ho, Hm, Hw, (extract_none _ _ Hn).
Qed.

Lemma missav_job_failures_witness :
  job_message 1 (snd (_run_download_job sample_env 9 1 "https://missav.ai/dm1/naac-032"
                        "video" 7 (one_job pending_log)))
  = Some ("無法載入 missav 頁面：" +:+ "offline").
Proof.
  exact (proj1 (proj2 (proj1
           (missav_job_failures sample_env 9 1 "https://missav.ai/dm1/naac-032" "video" 7
              (one_job pending_log) pending_log "https://missav.ai"
              eq_refl eq_refl eq_refl eq_refl)
           (OtherError "offline") eq_refl))).
Defined.

(** ** The language code of subtitles *)

(** X14.  [_normalize_subtitle_lang] only ever returns zht or zhs, returns
    zhs exactly for zhs, zh-cn and zh_cn (case and surrounding blanks
    ignored), and leaves its own results unchanged. *)
Theorem normalize_subtitle_lang_range (lang : string) :
  (_normalize_subtitle_lang lang = "zht" \/ _normalize_subtitle_lang lang = "zhs") /\
  (_normalize_subtitle_lang lang = "zhs" <->
   lang <> EmptyString /\
   In (Py.lower (Py.strip lang)) ["zhs"; "zh-cn"; "zh_cn"]) /\
  _normalize_subtitle_lang (_normalize_subtitle_lang lang) = _normalize_subtitle_lang lang.
Proof.
  assert (Hmem : forall x l, Py.mem x l = true <-> In x l).
  { intros x l. unfold Py.mem. rewrite existsb_exists. split.
    - intros (y & Hy & E). apply String.eqb_eq in E. now subst.
    - intros H. exists x. split; [exact H | apply String.eqb_refl]. }
  assert (Hiff : _normalize_subtitle_lang lang = "zhs" <->
                 lang <> EmptyString /\
                 In (Py.lower (Py.strip lang)) ["zhs"; "zh-cn"; "zh_cn"]).
  { unfold _normalize_subtitle_lang.
    destruct lang as [|c lang]; cbn [Py.nonempty negb].
    - split; [discriminate | intros [H _]; congruence].
    - destruct (Py.mem _ _) eqn:E.
      + split; [|reflexivity]. intros _. split; [discriminate | now apply Hmem].
      + split; [discriminate|]. intros [_ H]. apply Hmem in H. congruence. }
  assert (Hrange : _normalize_subtitle_lang lang = "zht"
                   \/ _normalize_subtitle_lang lang = "zhs").
  { unfold _normalize_subtitle_lang.
    destruct (negb (Py.nonempty lang)); [now left|].
    destruct (Py.mem _ _); [now right | now left]. }
  split; [exact Hrange|]. split; [exact Hiff|].
  destruct Hrange as [H|H]; rewrite H; reflexivity.
Qed.

(** ** Text without codes *)

Section UnpackIdentity.

Lemma unpack_spec_embedded parts s : forall before,
  no_standalone_code before s = true -> unpack_spec parts before s = s.
Proof.
  induction s as [|c s IH]; intros before H; [reflexivity|].
  cbn [no_standalone_code] in H. apply andb_true_iff in H as [Hc H].
  apply negb_true_iff in Hc. cbn [unpack_spec]. rewrite (IH _ H).
  unfold unpack_char. destruct (packed_code_char c) eqn:Ec.
  - cbn [andb] in Hc. rewrite Hc. now destruct (code_index c).
  - now rewrite (non_code_char c Ec).
Qed.

End UnpackIdentity.

(** X15.  Unpacking leaves a text unchanged when none of its code
    characters stands alone between word boundaries - codes inside longer
    words or numbers are not touched - whatever the dictionary. *)
Theorem unpack_embedded_codes (packed dict_str : string) :
  no_standalone_code None packed = true ->
  _unpack_missav_packed_js packed dict_str = Ok packed.
Proof. intros H. rewrite unpack_ok. now rewrite unpack_spec_embedded. Qed.

Lemma unpack_embedded_codes_witness :
  _unpack_missav_packed_js "function(){ var x1 = 2024; }" "m3u8|x|y"
  = Ok "function(){ var x1 = 2024; }".
Proof.
  exact (unpack_embedded_codes "function(){ var x1 = 2024; }" "m3u8|x|y" eq_refl).
Defined.

(** ** The characters of a manifest URL *)

Section UrlChars.

Import Re.

Lemma forallb_chars_app P a b :
  forallb P (Py.chars (a +:+ b)) = forallb P (Py.chars a) && forallb P (Py.chars b).
Proof. now rewrite chars_app, forallb_app. Qed.

Lemma run_within P r : forall st k x,
  within P r -> run r st k = Some x ->
  exists st', k st' = Some x /\
    exists pre, rest st = pre +:+ rest st' /\ forallb P (Py.chars pre) = true.
Proof.
  induction r as [|p|a IHa b IHb|a IHa b IHb|a IHa|n a IHa|]; intros st k x Hw H;
    cbn [run within] in *.
  - exists st. split; [exact H | now exists EmptyString].
  - destruct (rest st) as [|c s'] eqn:E; [discriminate|].
    destruct (p c) eqn:Ep; [|discriminate].
    eexists. split; [exact H|]. exists (String c EmptyString). split; [reflexivity|].
    cbn. now rewrite (Hw c Ep).
  - destruct Hw as [Ha Hb].
    apply (IHa _ _ _ Ha) in H as (st1 & H & pre1 & E1 & F1).
    apply (IHb _ _ _ Hb) in H as (st2 & H & pre2 & E2 & F2).
    exists st2. split; [exact H|]. exists (pre1 +:+ pre2).
    split; [now rewrite E1, E2, app_assoc_s|]. now rewrite forallb_chars_app, F1, F2.
  - destruct Hw as [Ha Hb]. destruct (run a st k) eqn:Ea.
    + injection H as <-. eapply IHa; eauto.
    + eapply IHb; eauto.
  - generalize dependent (S (Py.len (rest st))). intros fuel.
    revert st. induction fuel as [|fuel IHf]; intros st H; cbn [star_loop] in H.
    + exists st. split; [exact H | now exists EmptyString].
    + match type of H with
      | match ?t with _ => _ end = _ => destruct t eqn:Ea
      end.
      * injection H as <-. apply (IHa _ _ _ Hw) in Ea as (st1 & Ea & pre1 & E1 & F1).
        destruct (Py.len (rest st1) <? Py.len (rest st))%nat; [|discriminate].
        apply IHf in Ea as (st2 & Ea & pre2 & E2 & F2).
        exists st2. split; [exact Ea|]. exists (pre1 +:+ pre2).
        split; [now rewrite E1, E2, app_assoc_s|]. now rewrite forallb_chars_app, F1, F2.
      * exists st. split; [exact H | now exists EmptyString].
  - apply (IHa _ _ _ Hw) in H as (st1 & H & pre1 & E1 & F1).
    eexists. split; [exact H|]. now exists pre1.
  - destruct (boundary st); [|discriminate].
    exists st. split; [exact H | now exists EmptyString].
Qed.

Lemma app_cancel_r a b c : a +:+ c = b +:+ c -> a = b.
Proof.
  intros H. apply (f_equal Py.chars) in H. rewrite !chars_app in H.
  apply app_inv_tail in H. apply (f_equal Py.of_chars) in H.
  now rewrite !of_chars_chars in H.
Qed.

Lemma search_within P r s m :
  within P r -> search r s = Some m -> forallb P (Py.chars (m_text m)) = true.
Proof.
  intros Hw H. apply search_go_at in H as (p & s' & off & H).
  unfold at_pos in H. destruct (run r _ Some) as [st|] eqn:E; [|discriminate].
  injection H as <-. cbn [m_text].
  apply (run_within P _ _ _ _ Hw) in E as (st' & E & pre & Ep & F).
  injection E as ->. cbn [rest] in Ep. now rewrite Ep, consumed_app.
Qed.

Lemma lit_within (P : ascii -> bool) c : P c = true -> within P (lit c).
Proof. intros H x Hx. apply Char.eqb_eq in Hx. now subst. Qed.

Lemma m3u8_url_within : within url_char m3u8_url_re.
Proof.
  unfold m3u8_url_re, opt, plus. cbn [seq str within].
  repeat split; try (apply lit_within; reflexivity); auto.
Qed.

Lemma any_m3u8_within : within url_char any_m3u8_re.
Proof.
  unfold any_m3u8_re, opt, plus. cbn [seq str within].
  repeat split; try (apply lit_within; reflexivity); auto.
Qed.

(** Dropping characters of a class at the end keeps a prefix that is free
    of the class. *)
Lemma lstrip_by_split p s :
  exists d, s = d +:+ Py.lstrip_by p s /\ forallb p (Py.chars d) = true.
Proof.
  induction s as [|c s (d & E & F)]; [now exists EmptyString|].
  cbn [Py.lstrip_by]. destruct (p c) eqn:Ec.
  - exists (String c d). rewrite app_cons. split; [now f_equal|]. cbn. now rewrite Ec.
  - now exists EmptyString.
Qed.

Lemma rstrip_by_split p s :
  exists d, s = Py.rstrip_by p s +:+ d /\ forallb p (Py.chars d) = true.
Proof.
  unfold Py.rstrip_by. destruct (lstrip_by_split p (Py.rev s)) as (d & E & F).
  exists (Py.rev d). split.
  - rewrite <- rev_app_s, <- E. symmetry. apply rev_rev_s.
  - rewrite chars_rev, forallb_forall. intros c Hc. apply in_rev in Hc.
    rewrite forallb_forall in F. now apply F.
Qed.

Lemma prefix_survives p w : forall a d,
  Py.startswith w (a +:+ d) = true ->
  forallb p (Py.chars d) = true ->
  forallb (fun c => negb (p c)) (Py.chars w) = true ->
  Py.startswith w a = true.
Proof.
  induction w as [|x w IH]; intros a d Hs Hd Hw; [reflexivity|].
  cbn [Py.chars forallb] in Hw. apply andb_true_iff in Hw as [Hx Hw].
  apply negb_true_iff in Hx.
  destruct a as [|y a].
  - change (EmptyString +:+ d) with d in Hs. destruct d as [|z d]; [discriminate|].
    cbn [Py.startswith] in Hs. apply andb_true_iff in Hs as [Hz _].
    apply Char.eqb_eq in Hz. subst z. cbn in Hd. now rewrite Hx in Hd.
  - rewrite app_cons in Hs. cbn [Py.startswith] in *.
    apply andb_true_iff in Hs as [-> Hs]. cbn [andb]. eapply IH; eauto.
Qed.

Lemma rstrip_keeps_prefix p w s :
  Py.startswith w s = true ->
  forallb (fun c => negb (p c)) (Py.chars w) = true ->
  Py.startswith w (Py.rstrip_by p s) = true.
Proof.
  intros Hs Hw. destruct (rstrip_by_split p s) as (d & E & F).
  rewrite E in Hs. eapply prefix_survives; eauto.
Qed.

Lemma rstrip_by_last p s u c :
  Py.rstrip_by p s = u +:+ String c EmptyString -> p c = false.
Proof.
  unfold Py.rstrip_by. intros H. apply (f_equal Py.rev) in H.
  rewrite rev_rev_s, rev_app_s in H.
  change (Py.rev (String c EmptyString)) with (String c EmptyString) in H.
  rewrite app_cons in H. now apply lstrip_by_head in H.
Qed.

Lemma rstrip_by_chars p s c :
  In c (Py.chars (Py.rstrip_by p s)) -> In c (Py.chars s).
Proof.
  unfold Py.rstrip_by. rewrite chars_rev, <- in_rev. intros H.
  apply lstrip_by_chars in H. now rewrite chars_rev, <- in_rev in H.
Qed.

Lemma lstrip_by_none p s :
  forallb (fun c => negb (p c)) (Py.chars s) = true -> Py.lstrip_by p s = s.
Proof.
  destruct s as [|c s]; [reflexivity|]. cbn. intros H.
  apply andb_true_iff in H as [H _]. apply negb_true_iff in H. now rewrite H.
Qed.

Lemma strip_by_none p s :
  forallb (fun c => negb (p c)) (Py.chars s) = true -> Py.strip_by p s = s.
Proof.
  intros H. unfold Py.strip_by, Py.rstrip_by. rewrite (lstrip_by_none p s H).
  rewrite lstrip_by_none; [apply rev_rev_s|].
  rewrite chars_rev, forallb_forall. intros c Hc. apply in_rev in Hc.
  rewrite forallb_forall in H. now apply H.
Qed.

Lemma url_char_not_space s :
  forallb url_char (Py.chars s) = true ->
  forallb (fun c => negb (Char.is_space c)) (Py.chars s) = true.
Proof.
  rewrite !forallb_forall. intros H c Hc. specialize (H c Hc).
  unfold url_char in H. apply negb_true_iff.
  destruct (Char.is_space c); [discriminate H | reflexivity].
Qed.

Lemma generic_shape webpage u :
  generic_strategy webpage = Some u ->
  Py.startswith "http" u = true /\
  forallb url_char (Py.chars u) = true /\
  (forall v c, u = v +:+ String c EmptyString -> Char.eqb c backslash = false).
Proof.
  unfold generic_strategy.
  destruct (search any_m3u8_re _) as [m|] eqn:Hs; [|discriminate]. intros [= <-].
  pose proof (search_within url_char _ _ _ any_m3u8_within Hs) as Hc.
  assert (Hstart : Py.startswith "http" (m_text m) = true).
  { apply search_go_at in Hs as (p & s' & off & Hs).
    exact (at_pos_starts_lit "http" _ p s' off m Hs). }
  set (T := m_text m) in *.
  set (R := Py.rstrip_by (fun c => Char.eqb c backslash) T).
  assert (HR : forallb url_char (Py.chars R) = true).
  { rewrite forallb_forall in *. intros c Hin. apply Hc.
    now apply rstrip_by_chars in Hin. }
  unfold Py.strip. rewrite (strip_by_none _ R (url_char_not_space R HR)).
  split; [|split; [exact HR|]].
  - apply rstrip_keeps_prefix; [exact Hstart | reflexivity].
  - intros v c E. exact (rstrip_by_last _ T v c E).
Qed.

End UrlChars.

(** X16.  A manifest URL found by the packed-eval strategy or by the
    generic scan is a single token: it holds no blank, quote or angle
    bracket.  The URL of the generic scan moreover begins with http and
    does not end with a backslash. *)
Theorem manifest_url_single_token (webpage : string) :
  (forall u, _extract_missav_m3u8_from_packed webpage = Ok (Some u) ->
     forallb url_char (Py.chars u) = true) /\
  (forall u, generic_strategy webpage = Some u ->
     Py.startswith "http" u = true /\
     forallb url_char (Py.chars u) = true /\
     (forall v c, u = v +:+ String c EmptyString -> Char.eqb c backslash = false)).
Proof.
  split; [|apply generic_shape].
  intros u. unfold _extract_missav_m3u8_from_packed.
  match goal with
  | |- (?F ≫= _) = _ -> _ => destruct F as [[[packed dict_str]|]|e]
  end; rewrite ?bind_ok; try discriminate.
  rewrite unpack_ok, bind_ok.
  destruct (Re.search m3u8_url_re _) as [m|] eqn:Hs; [|discriminate].
  intros [= <-]. exact (search_within url_char _ _ _ m3u8_url_within Hs).
Qed.

Lemma manifest_url_single_token_witness :
  forallb url_char (Py.chars "https://surrit.com/x/playlist.m3u8") = true.
Proof.
  apply (proj1 (manifest_url_single_token both_markers_page)).
  vm_compute. reflexivity.
Defined.

(** ** From the request to the final state of a job *)

Section JobEndpoints.





End JobEndpoints.



(** X18.  [admin_delete_download] answers 403 to a caller who is no
    administrator and 404 for an unknown record, changing nothing.
    Otherwise it removes the record and nothing else: from then on
    [download_status] and [download_result] answer 404 for it to every
    user and the runner does nothing for it, while its entry of the result
    table, and so its scratch directory, stays until shutdown. *)
Theorem deleted_job_unreachable (j : Z) (cu : Z * User) (a : app) :
  let r := admin_delete_download j cu a in
  match r.1 with
  | HTTPError code _ =>
      r.2 = a /\
      (if is_admin cu.2 then code = 404 /\ db a !! j = None else code = 403)
  | Replied _ =>
      is_admin cu.2 = true /\ is_Some (db a !! j) /\
      (forall k, k <> j -> db r.2 !! k = db a !! k) /\
      _job_results r.2 = _job_results a /\
      (forall uid, exists d, download_status j uid r.2 = HTTPError 404 d) /\
      (forall uid, exists d, download_result j uid r.2 = (HTTPException 404 d, r.2)) /\
      (forall env now u dtype uid,
         _run_download_job env now j u dtype uid r.2 = (Ok tt, r.2))
  end.
Proof.
  cbv zeta. unfold admin_delete_download, get_current_admin.
  destruct (is_admin cu.2); cbn [negb fst snd]; [|auto].
  destruct (db a !! j) as [log|] eqn:Hl; cbn [fst snd]; [|auto].
  set (a' := App (delete j (db a)) (_job_results a) (on_disk a)).
  assert (Hd : db a' !! j = None) by apply lookup_delete_eq.
  split; [reflexivity|]. split; [eauto|]. split.
  { intros k Hk. cbn [a' db]. now apply lookup_delete_ne. }
  split; [reflexivity|]. split.
  { intros uid. unfold download_status. rewrite Hd. eauto. }
  split.
  { intros uid. unfold download_result. rewrite Hd. eauto. }
  intros env now u dtype uid. unfold _run_download_job. now rewrite Hd.
Qed.

(** ** Accounts *)

Section AccountFacts.

Lemma query_first_Some p (t : users) i u :
  query_first p t = Some (i, u) -> t !! i = Some u /\ p i u = true.
Proof.
  unfold query_first. intros H. apply List.find_some in H as [Hin Hp].
  apply list_elem_of_In, elem_of_map_to_list in Hin. now split.
Qed.

Lemma query_first_None p (t : users) i u :
  query_first p t = None -> t !! i = Some u -> p i u = false.
Proof.
  unfold query_first. intros H Hl.
  apply (List.find_none _ _ H (i, u)).
  now apply list_elem_of_In, elem_of_map_to_list.
Qed.

Lemma query_first_found p (t : users) i u :
  t !! i = Some u -> p i u = true -> exists r, query_first p t = Some r.
Proof.
  intros Hl Hp. destruct (query_first p t) as [r|] eqn:E; [eauto|].
  rewrite (query_first_None p t i u E Hl) in Hp. discriminate.
Qed.

Lemma unique_ok_spec t : unique_ok t = true <-> distinct t.
Proof.
  unfold unique_ok, distinct. split.
  - intros H i j u v Hi Hj Hij.
    rewrite List.forallb_forall in H.
    assert (Hi' : In (i, u) (map_to_list t))
      by now apply list_elem_of_In, elem_of_map_to_list.
    assert (Hj' : In (j, v) (map_to_list t))
      by now apply list_elem_of_In, elem_of_map_to_list.
    specialize (H _ Hi'). rewrite List.forallb_forall in H. specialize (H _ Hj').
    cbn [fst snd] in H.
    destruct (Z.eqb_spec i j) as [|_]; [contradiction|]. cbn [orb] in H.
    apply andb_true_iff in H as [H1 H2].
    apply negb_true_iff, String.eqb_neq in H1.
    apply negb_true_iff, String.eqb_neq in H2. now split.
  - intros H. apply List.forallb_forall. intros [i u] Hi.
    apply List.forallb_forall. intros [j v] Hj. cbn [fst snd].
    apply list_elem_of_In, elem_of_map_to_list in Hi.
    apply list_elem_of_In, elem_of_map_to_list in Hj.
    destruct (Z.eqb_spec i j) as [|Hij]; [reflexivity|]. cbn [orb].
    destruct (H i j u v Hi Hj Hij) as [H1 H2].
    apply String.eqb_neq in H1, H2. unfold Py.str_eqb. now rewrite H1, H2.
Qed.

Lemma commit_ok t : distinct t -> commit t = Ok t.
Proof. intros H. unfold commit. apply unique_ok_spec in H. now rewrite H. Qed.

(** Writing a row whose email and user name no other row has keeps the
    constraints. *)
Lemma distinct_insert t k user :
  distinct t ->
  (forall j v, t !! j = Some v -> j <> k ->
     email user <> email v /\ username user <> username v) ->
  distinct (<[k := user]> t).
Proof.
  intros Ht Hk i j u v Hi Hj Hij.
  destruct (decide (i = k)) as [->|Hik].
  - rewrite lookup_insert_eq in Hi. injection Hi as <-.
    rewrite lookup_insert_ne in Hj by congruence. eapply Hk; eauto.
  - rewrite lookup_insert_ne in Hi by congruence.
    destruct (decide (j = k)) as [->|Hjk].
    + rewrite lookup_insert_eq in Hj. injection Hj as <-.
      destruct (Hk i u Hi Hik). split; congruence.
    + rewrite lookup_insert_ne in Hj by congruence. eapply Ht; eauto.
Qed.

Lemma distinct_delete t k : distinct t -> distinct (delete k t).
Proof.
  intros Ht i j u v Hi Hj Hij.
  apply lookup_delete_Some in Hi as [_ Hi]. apply lookup_delete_Some in Hj as [_ Hj].
  eapply Ht; eauto.
Qed.

Variable hashpw : string -> string -> string.
Variable checkpw : string -> string -> bool.
Variable jwt_encode : string -> Z -> string.

Lemma create_user_spec new_id now salt e n p t :
  distinct t -> t !! new_id = None ->
  let r := create_user hashpw new_id now salt e n p t in
  distinct r.2 /\
  match r.1 with
  | Ok (Replied (i, u)) =>
      i = new_id /\ u = MkUser e n (get_password_hash hashpw salt p) false now /\
      r.2 = <[new_id := u]> t /\
      (forall j v, t !! j = Some v -> email v <> e /\ username v <> n)
  | Ok (HTTPError c _) =>
      c = 400 /\ r.2 = t /\
      exists j v, t !! j = Some v /\ (email v = e \/ username v = n)
  | Raise _ => False
  end.
Proof.
  intros Ht Hfresh. cbv zeta. unfold create_user.
  destruct (query_first (fun _ u => Py.str_eqb (email u) e) t) as [[j v]|] eqn:He.
  { cbn [fst snd]. split; [exact Ht|]. split; [reflexivity|]. split; [reflexivity|].
    apply query_first_Some in He as [Hj Hv]. apply String.eqb_eq in Hv. eauto. }
  destruct (query_first (fun _ u => Py.str_eqb (username u) n) t) as [[j v]|] eqn:Hn.
  { cbn [fst snd]. split; [exact Ht|]. split; [reflexivity|]. split; [reflexivity|].
    apply query_first_Some in Hn as [Hj Hv]. apply String.eqb_eq in Hv. eauto. }
  assert (Hno : forall j v, t !! j = Some v -> email v <> e /\ username v <> n).
  { intros j v Hj. split; apply String.eqb_neq.
    - exact (query_first_None _ t j v He Hj).
    - exact (query_first_None _ t j v Hn Hj). }
  set (user := MkUser e n (get_password_hash hashpw salt p) false now).
  assert (Hd : distinct (<[new_id := user]> t)).
  { apply distinct_insert; [exact Ht|]. intros j v Hj _.
    destruct (Hno j v Hj). cbn [user email username]. split; congruence. }
  rewrite (commit_ok _ Hd). cbn [fst snd]. auto.
Qed.

Lemma admin_update_user_lawful salt uid bu be bp ba cu t :
  distinct t ->
  let r := admin_update_user hashpw salt uid bu be bp ba cu t in
  distinct r.2 /\
  match r.1 with
  | Ok (Replied _) => True
  | Ok (HTTPError _ _) => r.2 = t
  | Raise _ => False
  end.
Proof.
  intros Ht. cbv zeta. unfold admin_update_user. cbv zeta.
  destruct (get_current_admin cu); [|now split].
  destruct (t !! uid) as [user|] eqn:Hu; [|now split].
  set (taken := fun p : User -> bool =>
                  query_first (fun i u => p u && negb (i =? uid)) t).
  assert (Hfree : forall p, taken p = None ->
            forall j v, t !! j = Some v -> j <> uid -> p v = false).
  { intros p Hp j v Hj Hne. pose proof (query_first_None _ t j v Hp Hj) as H.
    cbn beta in H. destruct (Z.eqb_spec j uid); [contradiction|].
    now rewrite andb_true_r in H. }
  assert (Hold : forall j v, t !! j = Some v -> j <> uid ->
            email user <> email v /\ username user <> username v).
  { intros j v Hj Hne. eapply Ht; eauto. }
  assert (Hfin : forall user',
            (forall j v, t !! j = Some v -> j <> uid ->
               email user' <> email v /\ username user' <> username v) ->
            forall (info : UserInfo),
            let r := match commit (<[uid := user']> t) with
                     | Ok t' => (Ok (Replied info), t')
                     | Raise e => (Raise e, t)
                     end in
            distinct r.2 /\
            match r.1 with
            | Ok (Replied _) => True
            | Ok (HTTPError _ _) => r.2 = t
            | Raise _ => False
            end).
  { intros user' Hk info. cbv zeta.
    pose proof (distinct_insert t uid user' Ht Hk) as Hd.
    rewrite (commit_ok _ Hd). now split. }
  destruct bu as [n|].
  - destruct (query_first (fun i u => Py.str_eqb (username u) n && negb (i =? uid)) t)
      as [?|] eqn:Tn; [now split|].
    pose proof (Hfree (fun u => Py.str_eqb (username u) n) Tn) as Fn.
    destruct be as [e|].
    + destruct (query_first (fun i u => Py.str_eqb (email u) e && negb (i =? uid)) t)
        as [?|] eqn:Te; [now split|].
      pose proof (Hfree (fun u => Py.str_eqb (email u) e) Te) as Fe.
      apply Hfin. intros j v Hj Hne.
      specialize (Fn j v Hj Hne). specialize (Fe j v Hj Hne).
      apply String.eqb_neq in Fn, Fe.
      destruct bp, ba; cbn [email username]; split; congruence.
    + apply Hfin. intros j v Hj Hne.
      specialize (Fn j v Hj Hne). apply String.eqb_neq in Fn.
      destruct (Hold j v Hj Hne).
      destruct bp, ba; cbn [email username]; split; congruence.
  - destruct be as [e|].
    + destruct (query_first (fun i u => Py.str_eqb (email u) e && negb (i =? uid)) t)
        as [?|] eqn:Te; [now split|].
      pose proof (Hfree (fun u => Py.str_eqb (email u) e) Te) as Fe.
      apply Hfin. intros j v Hj Hne.
      specialize (Fe j v Hj Hne). apply String.eqb_neq in Fe.
      destruct (Hold j v Hj Hne).
      destruct bp, ba; cbn [email username]; split; congruence.
    + apply Hfin. intros j v Hj Hne.
      destruct (Hold j v Hj Hne).
      destruct bp, ba; cbn [email username]; split; congruence.
Qed.

End AccountFacts.

(** X19.  The checks of [register], [admin_create_user] and
    [admin_update_user] leave the unique constraints of the table nothing
    to refuse: on a table that satisfies them, with a fresh key for the new
    row, none of the three raises, each leaves a table that satisfies
    them, and each answers an [HTTPException] only with the table
    unchanged.  [admin_delete_user] keeps the constraints as well. *)
Theorem account_writes_keep_constraints
        (hashpw : string -> string -> string) (jwt_encode : string -> Z -> string)
        (new_id now : Z) (salt e n p : string) (uid : Z)
        (bu be bp : option string) (ba : option bool) (cu : Z * User) (t : users) :
  unique_ok t = true -> t !! new_id = None ->
  lawful t (register hashpw jwt_encode new_id now salt e n p t) /\
  lawful t (admin_create_user hashpw new_id now salt e n p cu t) /\
  lawful t (admin_update_user hashpw salt uid bu be bp ba cu t) /\
  unique_ok (admin_delete_user uid cu t).2 = true.
Proof.
  intros Hu Hfresh. pose proof (proj1 (unique_ok_spec t) Hu) as Ht.
  pose proof (create_user_spec hashpw new_id now salt e n p t Ht Hfresh) as Hc.
  cbv zeta in Hc. unfold lawful.
  split; [|split; [|split]].
  - unfold register.
    destruct (create_user hashpw new_id now salt e n p t) as [[[[i u]|c d]|x] t'];
      cbn [fst snd] in *; destruct Hc as [Hd Hc].
    + split; [now apply unique_ok_spec | exact I].
    + split; [now apply unique_ok_spec | tauto].
    + contradiction.
  - unfold admin_create_user. destruct (get_current_admin cu); [|now split].
    destruct (create_user hashpw new_id now salt e n p t) as [[[[i u]|c d]|x] t'];
      cbn [fst snd] in *; destruct Hc as [Hd Hc].
    + split; [now apply unique_ok_spec | exact I].
    + split; [now apply unique_ok_spec | tauto].
    + contradiction.
  - destruct (admin_update_user_lawful hashpw salt uid bu be bp ba cu t Ht) as [Hd Hr].
    split; [now apply unique_ok_spec | exact Hr].
  - unfold admin_delete_user. destruct (get_current_admin cu) as [c|]; [|exact Hu].
    destruct (uid =? c.1); [exact Hu|].
    destruct (t !! uid) as [user|]; [|exact Hu].
    destruct (Py.str_eqb (username user) ADMIN_USERNAME); [exact Hu|].
    cbn [snd]. apply unique_ok_spec. now apply distinct_delete.
Qed.

Lemma account_writes_keep_constraints_witness :
  lawful sample_users
    (register plain_hashpw plain_jwt 2 5 "salt" "ann@example.org" "ann" "secret"
       sample_users) /\
  lawful sample_users
    (admin_create_user plain_hashpw 2 5 "salt" "ann@example.org" "ann" "secret"
       (1, sample_admin) sample_users) /\
  lawful sample_users
    (admin_update_user plain_hashpw "salt" 1 (Some "root") None None None
       (1, sample_admin) sample_users) /\
  unique_ok (admin_delete_user 1 (1, sample_admin) sample_users).2 = true.
Proof.
  exact (account_writes_keep_constraints plain_hashpw plain_jwt 2 5 "salt"
           "ann@example.org" "ann" "secret" 1 (Some "root") None None None
           (1, sample_admin) sample_users eq_refl eq_refl).
Defined.

Section Logins.

Variable hashpw : string -> string -> string.
Variable checkpw : string -> string -> bool.
Variable jwt_encode : string -> Z -> string.

Lemma login_lookup now ident password (t : users) :
  login checkpw jwt_encode now ident password t
  = match query_first (fun _ u => login_key ident u) t with
    | Some (i, u) =>
        if verify_password checkpw password (hashed_password u)
        then Replied (create_access_token jwt_encode now (str_of_Z i))
        else HTTPError 401 "帳號或密碼錯誤"
    | None => HTTPError 401 "帳號或密碼錯誤"
    end.
Proof. unfold login, login_key. now destruct (Py.contains "@" ident). Qed.

Lemma login_key_same ident (u v : User) :
  login_key ident u = true -> login_key ident v = true ->
  email u = email v \/ username u = username v.
Proof.
  unfold login_key. destruct (Py.contains "@" ident); intros H1 H2;
    apply String.eqb_eq in H1, H2; [left|right]; congruence.
Qed.

(** On a table under the constraints at most one row answers to an
    identifier, and the lookup finds it. *)
Lemma login_key_unique ident (t : users) i u :
  distinct t -> t !! i = Some u -> login_key ident u = true ->
  query_first (fun _ u => login_key ident u) t = Some (i, u).
Proof.
  intros Ht Hi Hk.
  destruct (query_first_found (fun _ u => login_key ident u) t i u Hi Hk) as [[j v] E].
  rewrite E. apply query_first_Some in E as [Hj Hv].
  destruct (decide (j = i)) as [->|Hne]; [congruence|].
  destruct (Ht j i v u Hj Hi Hne) as [He Hn].
  destruct (login_key_same ident v u Hv Hk); contradiction.
Qed.

Lemma login_key_none ident (t : users) :
  (forall i u, t !! i = Some u -> login_key ident u = false) ->
  query_first (fun _ u => login_key ident u) t = None.
Proof.
  intros H. destruct (query_first _ t) as [[j v]|] eqn:E; [|reflexivity].
  apply query_first_Some in E as [Hj Hv]. rewrite (H j v Hj) in Hv. discriminate.
Qed.

(** A new row that does not answer to the identifier leaves the lookup as
    it was. *)
Lemma login_insert_other now ident password (t : users) k user :
  distinct (<[k := user]> t) -> t !! k = None -> login_key ident user = false ->
  login checkpw jwt_encode now ident password (<[k := user]> t)
  = login checkpw jwt_encode now ident password t.
Proof.
  intros Hd Hfresh Hk. rewrite !login_lookup.
  destruct (query_first (fun _ u => login_key ident u) t) as [[i u]|] eqn:E.
  - apply query_first_Some in E as [Hi Hu].
    assert (Hne : i <> k) by congruence.
    rewrite (login_key_unique ident (<[k := user]> t) i u Hd); [reflexivity| |exact Hu].
    now rewrite lookup_insert_ne by congruence.
  - rewrite login_key_none; [reflexivity|].
    intros i u Hi. destruct (decide (i = k)) as [->|Hne].
    + rewrite lookup_insert_eq in Hi. now injection Hi as <-.
    + rewrite lookup_insert_ne in Hi by congruence.
      exact (query_first_None _ t i u E Hi).
Qed.

Lemma login_new now ident password (t : users) k user :
  distinct (<[k := user]> t) -> login_key ident user = true ->
  verify_password checkpw password (hashed_password user) = true ->
  login checkpw jwt_encode now ident password (<[k := user]> t)
  = Replied (create_access_token jwt_encode now (str_of_Z k)).
Proof.
  intros Hd Hk Hv. rewrite login_lookup.
  rewrite (login_key_unique ident _ k user Hd (lookup_insert_eq t k user) Hk).
  now rewrite Hv.
Qed.

Hypothesis checkpw_hashpw :
  forall pw salt, checkpw pw (encode_utf8 (hashpw pw salt)) = true.

Lemma verify_hash salt p :
  verify_password checkpw p (get_password_hash hashpw salt p) = true.
Proof. apply checkpw_hashpw. Qed.

Lemma register_login_aux new_id now now' salt e n p (t : users) tok :
  unique_ok t = true -> t !! new_id = None ->
  (register hashpw jwt_encode new_id now salt e n p t).1 = Ok (Replied tok) ->
  let t' := (register hashpw jwt_encode new_id now salt e n p t).2 in
  tok = create_access_token jwt_encode now (str_of_Z new_id) /\
  (Py.contains "@" e = true ->
   login checkpw jwt_encode now' e p t'
   = Replied (create_access_token jwt_encode now' (str_of_Z new_id))) /\
  (Py.contains "@" n = false ->
   login checkpw jwt_encode now' n p t'
   = Replied (create_access_token jwt_encode now' (str_of_Z new_id))) /\
  (forall ident q, ident <> e -> ident <> n ->
     login checkpw jwt_encode now' ident q t' = login checkpw jwt_encode now' ident q t).
Proof.
  intros Hu Hfresh. pose proof (proj1 (unique_ok_spec t) Hu) as Ht.
  pose proof (create_user_spec hashpw new_id now salt e n p t Ht Hfresh) as Hc.
  cbv zeta in *. unfold register.
  destruct (create_user hashpw new_id now salt e n p t) as [[[[i u]|c d]|x] t'];
    cbn [fst snd] in *; try discriminate.
  intros [= <-]. destruct Hc as (Hd & -> & -> & -> & Hno).
  set (user := MkUser e n (get_password_hash hashpw salt p) false now) in *.
  split; [reflexivity|]. split; [|split].
  - intros He. apply login_new; [exact Hd| |apply verify_hash].
    unfold login_key. rewrite He. apply String.eqb_refl.
  - intros Hn. apply login_new; [exact Hd| |apply verify_hash].
    unfold login_key. rewrite Hn. apply String.eqb_refl.
  - intros ident q He Hn. apply login_insert_other; [exact Hd|exact Hfresh|].
    unfold login_key. destruct (Py.contains "@" ident); apply String.eqb_neq;
      cbn [user email username]; congruence.
Qed.

Lemma seed_admin_aux new_id now salt (t : users) :
  unique_ok t = true -> t !! new_id = None ->
  match _seed_admin hashpw new_id now salt t with
  | Ok t' =>
      unique_ok t' = true /\
      ((exists i u, t !! i = Some u /\ username u = ADMIN_USERNAME) -> t' = t) /\
      ((forall i u, t !! i = Some u -> username u <> ADMIN_USERNAME) ->
       (exists u, t' !! new_id = Some u /\ is_admin u = true) /\
       (forall i u, t !! i = Some u -> t' !! i = Some u /\ email u <> ADMIN_EMAIL) /\
       forall now', login checkpw jwt_encode now' ADMIN_USERNAME ADMIN_PASSWORD t'
                    = Replied (create_access_token jwt_encode now' (str_of_Z new_id)))
  | Raise _ =>
      (forall i u, t !! i = Some u -> username u <> ADMIN_USERNAME) /\
      exists i u, t !! i = Some u /\ email u = ADMIN_EMAIL
  end.
Proof.
  intros Hu Hfresh. pose proof (proj1 (unique_ok_spec t) Hu) as Ht.
  unfold _seed_admin.
  destruct (query_first (fun _ u => Py.str_eqb (username u) ADMIN_USERNAME) t)
    as [[j v]|] eqn:Hq.
  - apply query_first_Some in Hq as [Hj Hv]. apply String.eqb_eq in Hv.
    split; [exact Hu|]. split; [reflexivity|].
    intros Hno. now destruct (Hno j v Hj).
  - assert (Hno : forall i u, t !! i = Some u -> username u <> ADMIN_USERNAME).
    { intros i u Hi. apply String.eqb_neq. exact (query_first_None _ t i u Hq Hi). }
    set (user := MkUser ADMIN_EMAIL ADMIN_USERNAME
                        (get_password_hash hashpw salt ADMIN_PASSWORD) true now).
    unfold commit. destruct (unique_ok (<[new_id := user]> t)) eqn:Hk.
    + split; [exact Hk|]. split.
      { intros (i & u & Hi & Hn). now destruct (Hno i u Hi). }
      intros _. split; [|split].
      * exists user. split; [apply lookup_insert_eq | reflexivity].
      * intros i u Hi. assert (Hne : i <> new_id) by congruence.
        split; [now rewrite lookup_insert_ne by congruence|].
        apply unique_ok_spec in Hk.
        refine (fun E => proj1 (Hk new_id i user u _ _ _) (eq_sym E));
          [apply lookup_insert_eq | now rewrite lookup_insert_ne by congruence
          | congruence].
      * intros now'. apply login_new; [now apply unique_ok_spec|reflexivity|].
        apply verify_hash.
    + split; [exact Hno|].
      destruct (query_first (fun _ u => Py.str_eqb (email u) ADMIN_EMAIL) t)
        as [[j v]|] eqn:He.
      * apply query_first_Some in He as [Hj Hv]. apply String.eqb_eq in Hv. eauto.
      * exfalso. assert (Hd : distinct (<[new_id := user]> t)).
        { apply distinct_insert; [exact Ht|]. intros j v Hj _.
          pose proof (query_first_None _ t j v He Hj) as H1. cbn beta in H1.
          apply String.eqb_neq in H1. specialize (Hno j v Hj).
          cbn [user email username]. split; congruence. }
        apply unique_ok_spec in Hd. congruence.
Qed.

End Logins.

Section Passwords.

Lemma encode_utf8_app a b : encode_utf8 (a +:+ b) = encode_utf8 a +:+ encode_utf8 b.
Proof.
  induction a as [|c a IH]; [reflexivity|].
  rewrite app_cons. cbn [encode_utf8]. now rewrite IH, app_assoc_s.
Qed.

Lemma encode_utf8_ascii p :
  forallb (fun c => (Char.code c <? 128)%N) (Py.chars p) = true -> encode_utf8 p = p.
Proof.
  induction p as [|c p IH]; [reflexivity|]. cbn [Py.chars forallb encode_utf8].
  intros H. apply andb_true_iff in H as [Hc Hp].
  unfold utf8_char. rewrite Hc, app_cons, (IH Hp). reflexivity.
Qed.

Lemma take_app_le n : forall a b, (n <= Py.len a)%nat -> Py.take n (a +:+ b) = Py.take n a.
Proof.
  unfold Py.len. induction n as [|n IH]; intros a b H; [now destruct a, b|].
  destruct a as [|c a]; [cbn in H; lia|].
  rewrite app_cons. cbn [Py.take]. f_equal. apply IH. cbn in H. lia.
Qed.

Lemma password_bytes_cut p s :
  forallb (fun c => (Char.code c <? 128)%N) (Py.chars p) = true ->
  (72 <= Py.len p)%nat ->
  _password_bytes (p +:+ s) = _password_bytes p.
Proof.
  intros Ha Hl. unfold _password_bytes, BCRYPT_MAX_PASSWORD_BYTES.
  rewrite encode_utf8_app, (encode_utf8_ascii p Ha). now apply take_app_le.
Qed.

End Passwords.

(** X20.  [admin_delete_user] never removes the caller nor an account
    named admin, and touches no row but the one it is asked to remove.  It
    answers with success only to an administrator and for an account that
    existed, which is gone afterwards; every [HTTPException] leaves the
    table as it was, and a caller who is no administrator is answered
    403. *)
Theorem admin_delete_user_guards (uid : Z) (cu : Z * User) (t : users) :
  t !! cu.1 = Some cu.2 ->
  let r := admin_delete_user uid cu t in
  r.2 !! cu.1 = Some cu.2 /\
  (forall i u, t !! i = Some u -> username u = ADMIN_USERNAME -> r.2 !! i = Some u) /\
  (forall i, i <> uid -> r.2 !! i = t !! i) /\
  match r.1 with
  | Replied _ => is_admin cu.2 = true /\ is_Some (t !! uid) /\ r.2 !! uid = None
  | HTTPError c _ => r.2 = t /\ (is_admin cu.2 = false -> c = 403)
  end.
Proof.
  intros Hcu. cbv zeta. unfold admin_delete_user, get_current_admin.
  destruct (is_admin cu.2); cbn [negb fst snd]; [|auto].
  destruct (Z.eqb_spec uid cu.1) as [Hs|Hs]; cbn [fst snd]; [repeat split; auto; discriminate|].
  destruct (t !! uid) as [user|] eqn:Hu; cbn [fst snd];
    [|repeat split; auto; discriminate].
  destruct (Py.str_eqb (username user) ADMIN_USERNAME) eqn:Ha; cbn [fst snd];
    [repeat split; auto; discriminate|].
  apply String.eqb_neq in Ha.
  split; [now rewrite lookup_delete_ne by congruence|]. split.
  { intros i u Hi Hn. rewrite lookup_delete_ne; [exact Hi|].
    intros <-. rewrite Hu in Hi. injection Hi as <-. contradiction. }
  split; [intros i Hi; now rewrite lookup_delete_ne by congruence|].
  split; [reflexivity|]. split; [eauto|apply lookup_delete_eq].
Qed.

Lemma admin_delete_user_guards_witness :
  let r := admin_delete_user 1 (1, sample_admin) sample_users in
  r.2 !! 1 = Some sample_admin /\
  (forall i u, sample_users !! i = Some u -> username u = ADMIN_USERNAME ->
     r.2 !! i = Some u) /\
  (forall i, i <> 1 -> r.2 !! i = sample_users !! i) /\
  match r.1 with
  | Replied _ =>
      is_admin sample_admin = true /\ is_Some (sample_users !! 1) /\ r.2 !! 1 = None
  | HTTPError c _ => r.2 = sample_users /\ (is_admin sample_admin = false -> c = 403)
  end.
Proof.
  exact (admin_delete_user_guards 1 (1, sample_admin) sample_users eq_refl).
Defined.

(** X21.  An account that [register] has created can log in: with the
    password it registered, [login] answers a token for the new account
    when given its email (which holds an at sign) and when given its user
    name (when that holds none).  The logins of every other identifier are
    answered as before the registration.  The hash library is taken to
    accept the password a hash was made from. *)
Theorem register_then_login
        (hashpw : string -> string -> string) (checkpw : string -> string -> bool)
        (jwt_encode : string -> Z -> string)
        (new_id now now' : Z) (salt e n p : string) (t : users) (tok : string) :
  (forall pw s, checkpw pw (encode_utf8 (hashpw pw s)) = true) ->
  unique_ok t = true -> t !! new_id = None ->
  (register hashpw jwt_encode new_id now salt e n p t).1 = Ok (Replied tok) ->
  let t' := (register hashpw jwt_encode new_id now salt e n p t).2 in
  tok = create_access_token jwt_encode now (str_of_Z new_id) /\
  (Py.contains "@" e = true ->
   login checkpw jwt_encode now' e p t'
   = Replied (create_access_token jwt_encode now' (str_of_Z new_id))) /\
  (Py.contains "@" n = false ->
   login checkpw jwt_encode now' n p t'
   = Replied (create_access_token jwt_encode now' (str_of_Z new_id))) /\
  (forall ident q, ident <> e -> ident <> n ->
     login checkpw jwt_encode now' ident q t' = login checkpw jwt_encode now' ident q t).
Proof.
  intros Hb Hu Hfresh Hr.
  exact (register_login_aux hashpw checkpw jwt_encode Hb new_id now now' salt e n p t tok
           Hu Hfresh Hr).
Qed.

Lemma plain_checkpw_hashpw pw s :
  plain_checkpw pw (encode_utf8 (plain_hashpw pw s)) = true.
Proof. unfold plain_checkpw, plain_hashpw. apply String.eqb_refl. Qed.

Lemma register_then_login_witness :
  let t' := (register plain_hashpw plain_jwt 2 5 "salt" "ann@example.org" "ann" "secret"
               sample_users).2 in
  "2" = create_access_token plain_jwt 5 (str_of_Z 2) /\
  (Py.contains "@" "ann@example.org" = true ->
   login plain_checkpw plain_jwt 6 "ann@example.org" "secret" t'
   = Replied (create_access_token plain_jwt 6 (str_of_Z 2))) /\
  (Py.contains "@" "ann" = false ->
   login plain_checkpw plain_jwt 6 "ann" "secret" t'
   = Replied (create_access_token plain_jwt 6 (str_of_Z 2))) /\
  (forall ident q, ident <> "ann@example.org" -> ident <> "ann" ->
     login plain_checkpw plain_jwt 6 ident q t'
     = login plain_checkpw plain_jwt 6 ident q sample_users).
Proof.
  exact (register_then_login plain_hashpw plain_checkpw plain_jwt 2 5 6 "salt"
           "ann@example.org" "ann" "secret" sample_users "2"
           plain_checkpw_hashpw eq_refl eq_refl eq_refl).
Defined.

(** X22.  [_seed_admin] on a table under the constraints.  When it
    returns, the table is under the constraints; it is unchanged when an
    account named admin existed; otherwise the existing accounts are kept,
    no account held the email admin@localhost, the new account is an
    administrator, and [login] accepts the identifier admin with the
    default password.  It raises exactly in one situation: no account is
    named admin and an account holds the email admin@localhost, which the
    unique constraint refuses. *)
Theorem seed_admin_outcomes
        (hashpw : string -> string -> string) (checkpw : string -> string -> bool)
        (jwt_encode : string -> Z -> string)
        (new_id now : Z) (salt : string) (t : users) :
  (forall pw s, checkpw pw (encode_utf8 (hashpw pw s)) = true) ->
  unique_ok t = true -> t !! new_id = None ->
  match _seed_admin hashpw new_id now salt t with
  | Ok t' =>
      unique_ok t' = true /\
      ((exists i u, t !! i = Some u /\ username u = ADMIN_USERNAME) -> t' = t) /\
      ((forall i u, t !! i = Some u -> username u <> ADMIN_USERNAME) ->
       (exists u, t' !! new_id = Some u /\ is_admin u = true) /\
       (forall i u, t !! i = Some u -> t' !! i = Some u /\ email u <> ADMIN_EMAIL) /\
       forall now', login checkpw jwt_encode now' ADMIN_USERNAME ADMIN_PASSWORD t'
                    = Replied (create_access_token jwt_encode now' (str_of_Z new_id)))
  | Raise _ =>
      (forall i u, t !! i = Some u -> username u <> ADMIN_USERNAME) /\
      exists i u, t !! i = Some u /\ email u = ADMIN_EMAIL
  end.
Proof.
  intros Hb Hu Hfresh.
  exact (seed_admin_aux hashpw checkpw jwt_encode Hb new_id now salt t Hu Hfresh).
Qed.

Lemma seed_admin_outcomes_witness :
  exists i u, renamed_users !! i = Some u /\ email u = ADMIN_EMAIL.
Proof.
  pose proof (seed_admin_outcomes plain_hashpw plain_checkpw plain_jwt 2 5 "salt"
                renamed_users plain_checkpw_hashpw eq_refl eq_refl) as H.
  exact (proj2 H).
Defined.

(** X23.  Only the first 72 bytes of a password count.  For a password of
    at least 72 ASCII characters, any text added at its end changes
    neither the answer of [login] nor what [admin_update_user] and the
    other writers store as its hash. *)
Theorem password_cut_at_72_bytes
        (hashpw : string -> string -> string) (checkpw : string -> string -> bool)
        (jwt_encode : string -> Z -> string)
        (now : Z) (ident salt p s : string) (t : users) :
  forallb (fun c => (Char.code c <? 128)%N) (Py.chars p) = true ->
  (72 <= Py.len p)%nat ->
  login checkpw jwt_encode now ident (p +:+ s) t = login checkpw jwt_encode now ident p t /\
  get_password_hash hashpw salt (p +:+ s) = get_password_hash hashpw salt p.
Proof.
  intros Ha Hl. pose proof (password_bytes_cut p s Ha Hl) as E.
  split.
  - unfold login, verify_password. now rewrite E.
  - unfold get_password_hash. now rewrite E.
Qed.

Lemma password_cut_at_72_bytes_witness :
  login plain_checkpw plain_jwt 5 "admin" (long_password +:+ "x") sample_users
  = login plain_checkpw plain_jwt 5 "admin" long_password sample_users /\
  get_password_hash plain_hashpw "salt" (long_password +:+ "x")
  = get_password_hash plain_hashpw "salt" long_password.
Proof.
  apply (password_cut_at_72_bytes plain_hashpw plain_checkpw plain_jwt 5 "admin" "salt"
           long_password "x" sample_users); [reflexivity | vm_compute; lia].
Defined.
